(** * The tabular data engine of the spreadsheet component

    A shallow embedding of [src/components/SpreadsheetTable.tsx]: the row
    store and its structural operations, the filter/sort pipeline
    ([processedData]), the search annotation, and the selection and edit
    handlers, followed by the properties established about them.

    Conventions of the embedding.
    - A row is the object [{ id, ...cells }]: the numeric member [id] is kept
      apart, as the interface [SpreadsheetRow] declares it, and every other
      member is a string stored under its key.  Keys other than [id] are the
      domain of [cells]: a custom column whose key would be [id] is outside
      the interface and outside the embedding.
    - Numbers that hold row ids and time values are mathematical integers
      extended with the two non-finite values the code can produce
      ([-Infinity] from [Math.max()] of nothing, [NaN] from [parseInt]);
      rounding of doubles is not modelled.
    - Strings are byte strings; [toLowerCase] and the white space class act
      on the ASCII range.
    - React state is passed explicitly; a handler is a function from the
      state (and the props) to the next state.  Logging and alerts are
      dropped; [confirm], the current date, the built-in [Date] parser and
      the built-in [Array.prototype.sort] are inputs of the embedding. *)

From Stdlib Require Import ZArith QArith List Bool Ascii String Lia Permutation Sorted.
From stdpp Require Import gmap strings list pretty.

Import ListNotations.
Local Open Scope string_scope.
Local Open Scope Z_scope.
Local Open Scope list_scope.

(** ** JavaScript numbers used for row ids and time values *)

Module JS.

Inductive num : Type :=
  | NaN
  | NegInf
  | Int (z : Z).

Definition num_eq_dec (a b : num) : {a = b} + {a <> b}.
Proof. decide equality. apply Z.eq_dec. Defined.

(** [a === b] on numbers: [NaN] differs from everything, itself included. *)
Definition strict_eq (a b : num) : bool :=
  match a, b with
  | Int x, Int y => Z.eqb x y
  | NegInf, NegInf => true
  | _, _ => false
  end.

(** SameValueZero, the equality of [Array.prototype.includes] and of [Set]. *)
Definition same_value_zero (a b : num) : bool :=
  match a, b with
  | NaN, NaN => true
  | _, _ => strict_eq a b
  end.

Definition includes_num (xs : list num) (x : num) : bool :=
  existsb (same_value_zero x) xs.

(** [a < b] on numbers. *)
Definition num_lt (a b : num) : bool :=
  match a, b with
  | NaN, _ | _, NaN => false
  | NegInf, NegInf => false
  | NegInf, Int _ => true
  | Int _, NegInf => false
  | Int x, Int y => Z.ltb x y
  end.

Definition max2 (a b : num) : num :=
  match a, b with
  | NaN, _ | _, NaN => NaN
  | NegInf, y => y
  | x, NegInf => x
  | Int x, Int y => Int (Z.max x y)
  end.

(** [Math.max(...xs)]; with no argument the result is [-Infinity]. *)
Definition Math_max (xs : list num) : num := fold_right max2 NegInf xs.

(** [a + k] for a finite integer [k]. *)
Definition plus (a : num) (k : Z) : num :=
  match a with
  | Int z => Int (z + k)
  | NegInf => NegInf
  | NaN => NaN
  end.

(** Truthiness of a number: [0] and [NaN] are falsy. *)
Definition truthy (a : num) : bool :=
  match a with
  | NaN => false
  | NegInf => true
  | Int z => negb (Z.eqb z 0)
  end.

(** [String(a)], as used by template literals. *)
Definition num_to_string (a : num) : string :=
  match a with
  | NaN => "NaN"
  | NegInf => "-Infinity"
  | Int z => pretty z
  end.

End JS.

Export JS.

(** ** Rows *)

Record SpreadsheetRow : Type := mkRow {
  id : num;
  cells : gmap string string
}.

(** [{ ...row, id: newId }] *)
Definition with_id (newId : num) (row : SpreadsheetRow) : SpreadsheetRow :=
  {| id := newId; cells := cells row |}.

(** [{ ...row, [field]: value }] *)
Definition with_field (field value : string) (row : SpreadsheetRow) : SpreadsheetRow :=
  {| id := id row; cells := <[field := value]> (cells row) |}.

(** [String(row[field] || '')]: an absent member reads as the empty string. *)
Definition field_string (row : SpreadsheetRow) (field : string) : string :=
  match cells row !! field with
  | Some v => v
  | None => EmptyString
  end.

Definition ids (data : list SpreadsheetRow) : list num := map id data.

(** [data.find(row => row.id === rowId)] *)
Definition find_row (rowId : num) (data : list SpreadsheetRow) : option SpreadsheetRow :=
  List.find (fun row => strict_eq (id row) rowId) data.

(** A row with id [rowId] is in the store. *)
Definition present (rowId : num) (data : list SpreadsheetRow) : Prop :=
  exists row, In row data /\ strict_eq (id row) rowId = true.

(** ** Strings *)

Module Str.

Definition is_upper (c : ascii) : bool :=
  let n := nat_of_ascii c in (65 <=? n)%nat && (n <=? 90)%nat.

Definition lower_char (c : ascii) : ascii :=
  if is_upper c then ascii_of_nat (nat_of_ascii c + 32) else c.

(** [s.toLowerCase()] *)
Fixpoint toLowerCase (s : string) : string :=
  match s with
  | EmptyString => EmptyString
  | String c s' => String (lower_char c) (toLowerCase s')
  end.

(** White space and line terminators of the ASCII range: the class of
    [trim] and of the regular expression [\s]. *)
Definition is_space (c : ascii) : bool :=
  let n := nat_of_ascii c in
  ((9 <=? n)%nat && (n <=? 13)%nat) || (n =? 32)%nat.

Fixpoint trimStart (s : string) : string :=
  match s with
  | EmptyString => EmptyString
  | String c s' => if is_space c then trimStart s' else s
  end.

(** The string without its trailing white space. *)
Fixpoint trimEnd (s : string) : string :=
  match s with
  | EmptyString => EmptyString
  | String c s' =>
      match trimEnd s' with
      | EmptyString => if is_space c then EmptyString else String c EmptyString
      | t => String c t
      end
  end.

(** [s.trim()] *)
Definition trim (s : string) : string := trimEnd (trimStart s).

(** Truthiness of a string: only the empty string is falsy. *)
Definition nonempty (s : string) : bool :=
  match s with
  | EmptyString => false
  | String _ _ => true
  end.

(** [s.startsWith(p)] *)
Fixpoint startsWith (s p : string) : bool :=
  match p, s with
  | EmptyString, _ => true
  | String _ _, EmptyString => false
  | String a p', String b s' => Ascii.eqb a b && startsWith s' p'
  end.

(** [s.includes(t)]: [t] occurs in [s] as a contiguous substring. *)
Fixpoint includes (s t : string) : bool :=
  startsWith s t ||
  match s with
  | EmptyString => false
  | String _ s' => includes s' t
  end.

(** [s.replace(/c/g, '')] for a single character [c], and
    [s.replace(/\s+/g, '')]. *)
Fixpoint remove_chars (p : ascii -> bool) (s : string) : string :=
  match s with
  | EmptyString => EmptyString
  | String c s' => if p c then remove_chars p s' else String c (remove_chars p s')
  end.

Definition comma : ascii := ascii_of_nat 44.
Definition dash : ascii := ascii_of_nat 45.

(** [s.split(c)] for a single character separator: never empty. *)
Fixpoint split (c : ascii) (s : string) : list string :=
  match s with
  | EmptyString => [EmptyString]
  | String a s' =>
      if Ascii.eqb a c then EmptyString :: split c s'
      else match split c s' with
           | [] => [String a EmptyString]
           | w :: ws => String a w :: ws
           end
  end.

(** [parts.join(sep)] *)
Fixpoint join (sep : string) (parts : list string) : string :=
  match parts with
  | [] => EmptyString
  | [w] => w
  | w :: ws => w ++ sep ++ join sep ws
  end.

End Str.

Export Str.

(** ** Column registry *)

Definition fields : list string :=
  ["jobRequest"; "submitted"; "status"; "submitter"; "url"; "assigned";
   "priority"; "dueDate"; "estValue"].

(** [col.toLowerCase().replace(/\s+/g, '')] *)
Definition field_of_column (col : string) : string :=
  remove_chars is_space (toLowerCase col).

Definition allFields (customColumns : list string) : list string :=
  fields ++ map field_of_column customColumns.

(** [hiddenFields.includes(field)] *)
Definition includes_str (xs : list string) (x : string) : bool :=
  existsb (String.eqb x) xs.

Definition visibleFields (customColumns hiddenFields : list string) : list string :=
  List.filter (fun field => negb (includes_str hiddenFields field))
              (allFields customColumns).

(** The property key that a computed member [[field]] denotes when [field]
    is [visibleFields[colIndex]]: an index outside the array yields
    [undefined], whose key is the string ["undefined"]. *)
Definition key_at (vf : list string) (colIndex : nat) : string :=
  match nth_error vf colIndex with
  | Some f => f
  | None => "undefined"
  end.

(** ** Row store operations *)

(** The record literal of [addRow] and [addRowAt], with the empty members
    added for the custom columns. *)
Definition newRow (newId : num) (today : string) (customColumns : list string)
  : SpreadsheetRow :=
  let base : gmap string string :=
    list_to_map
      [("jobRequest", EmptyString); ("submitted", today);
       ("status", "need to start"); ("submitter", EmptyString);
       ("url", EmptyString); ("assigned", EmptyString);
       ("priority", "Medium"); ("dueDate", EmptyString);
       ("estValue", EmptyString)] in
  {| id := newId;
     cells := fold_left (fun m col => <[field_of_column col := EmptyString]> m)
                        customColumns base |}.

(** [Math.max(...data.map(row => row.id)) + 1] *)
Definition nextId (data : list SpreadsheetRow) : num :=
  plus (Math_max (ids data)) 1.

Definition addRow (today : string) (customColumns : list string)
    (data : list SpreadsheetRow) : list SpreadsheetRow :=
  data ++ [newRow (nextId data) today customColumns].

(** [position] is [None] for [undefined] and for the [NaN] that
    [undefined + 1] yields; both take the appending branch. *)
Definition addRowAt (today : string) (customColumns : list string)
    (position : option nat) (data : list SpreadsheetRow) : list SpreadsheetRow :=
  let row := newRow (nextId data) today customColumns in
  match position with
  | Some p =>
      if (p <? length data)%nat
      then firstn p data ++ row :: skipn p data
      else data ++ [row]
  | None => data ++ [row]
  end.

Definition deleteRow (rowId : num) (data : list SpreadsheetRow) : list SpreadsheetRow :=
  List.filter (fun row => negb (strict_eq (id row) rowId)) data.

Definition duplicateRow (rowId : num) (data : list SpreadsheetRow) : list SpreadsheetRow :=
  match find_row rowId data with
  | Some rowToDuplicate => data ++ [with_id (nextId data) rowToDuplicate]
  | None => data
  end.

(** [clearRow]: every member except [id] becomes the empty string. *)
Definition cleared (row : SpreadsheetRow) : SpreadsheetRow :=
  {| id := id row; cells := (fun _ => EmptyString) <$> cells row |}.

Definition clearRow (rowId : num) (data : list SpreadsheetRow) : list SpreadsheetRow :=
  map (fun row => if strict_eq (id row) rowId then cleared row else row) data.

(** The three branches of [handleBatchAction] on the row store, given the
    derived [uniqueRowIds].  The rows of the store are pairwise distinct
    objects, so [rowsToDuplicate.indexOf(row)] is the position of [row] in
    [rowsToDuplicate]. *)
Definition batchDeleteRows (uniqueRowIds : list num) (data : list SpreadsheetRow)
  : list SpreadsheetRow :=
  List.filter (fun row => negb (includes_num uniqueRowIds (id row))) data.

Definition batchDuplicateRows (uniqueRowIds : list num) (data : list SpreadsheetRow)
  : list SpreadsheetRow :=
  let rowsToDuplicate := List.filter (fun row => includes_num uniqueRowIds (id row)) data in
  let newRows :=
    imap (fun i row => with_id (plus (plus (Math_max (ids data)) (Z.of_nat i)) 1) row)
         rowsToDuplicate in
  data ++ newRows.

Definition batchClearRows (uniqueRowIds : list num) (data : list SpreadsheetRow)
  : list SpreadsheetRow :=
  map (fun row => if includes_num uniqueRowIds (id row) then cleared row else row) data.

(** ** Sequences of row operations *)

Inductive RowOp : Type :=
  | OpAddRow (today : string) (customColumns : list string)
  | OpAddRowAt (today : string) (customColumns : list string) (position : option nat)
  | OpDuplicateRow (rowId : num)
  | OpBatchDuplicate (uniqueRowIds : list num)
  | OpDeleteRow (rowId : num)
  | OpBatchDelete (uniqueRowIds : list num).

Definition applyOp (op : RowOp) (data : list SpreadsheetRow) : list SpreadsheetRow :=
  match op with
  | OpAddRow today cc => addRow today cc data
  | OpAddRowAt today cc position => addRowAt today cc position data
  | OpDuplicateRow rowId => duplicateRow rowId data
  | OpBatchDuplicate rowIds => batchDuplicateRows rowIds data
  | OpDeleteRow rowId => deleteRow rowId data
  | OpBatchDelete rowIds => batchDeleteRows rowIds data
  end.

Definition run (ops : list RowOp) (data : list SpreadsheetRow) : list SpreadsheetRow :=
  fold_left (fun d op => applyOp op d) ops data.

(** An operation that creates a row from nothing ([addRow], [addRowAt])
    meets a store that holds at least one row. *)
Definition op_on_nonempty (op : RowOp) (data : list SpreadsheetRow) : Prop :=
  match op with
  | OpAddRow _ _ | OpAddRowAt _ _ _ => data <> []
  | _ => True
  end.

Fixpoint ops_on_nonempty (ops : list RowOp) (data : list SpreadsheetRow) : Prop :=
  match ops with
  | [] => True
  | op :: ops' => op_on_nonempty op data /\ ops_on_nonempty ops' (applyOp op data)
  end.

Definition is_Int (a : num) : Prop :=
  match a with
  | Int _ => True
  | _ => False
  end.

(** The well-formed stores: integer ids, pairwise distinct. *)
Definition distinct_ids (data : list SpreadsheetRow) : Prop :=
  List.NoDup (ids data) /\ Forall is_Int (ids data).


(** ** Numbers read from cell text

    The value of [parseFloat]: a decimal fraction kept exactly, or one of
    the three non-finite values.  Rounding to a double is not modelled. *)

Module Float.

Inductive float : Type :=
  | FNaN
  | FNegInf
  | FPosInf
  | Fin (q : Q).

(** [a < b] *)
Definition flt (a b : float) : bool :=
  match a, b with
  | FNaN, _ | _, FNaN => false
  | FNegInf, FNegInf => false
  | FNegInf, _ => true
  | _, FNegInf => false
  | FPosInf, _ => false
  | Fin _, FPosInf => true
  | Fin x, Fin y => match Qcompare x y with Lt => true | _ => false end
  end.

(** [x || 0]: [NaN] and zero are falsy. *)
Definition or_zero (x : float) : float :=
  match x with
  | FNaN => Fin 0
  | Fin q => if Qeq_bool q 0 then Fin 0 else x
  | _ => x
  end.

Definition is_digit (c : ascii) : bool :=
  let n := nat_of_ascii c in (48 <=? n)%nat && (n <=? 57)%nat.

Definition digit_val (c : ascii) : Z := Z.of_nat (nat_of_ascii c - 48).

(** Reads the longest run of decimal digits: the number read so far, the
    count of digits read, and the rest of the text. *)
Fixpoint read_digits (acc : Z) (n : Z) (s : string) : Z * Z * string :=
  match s with
  | String c s' =>
      if is_digit c then read_digits (10 * acc + digit_val c) (n + 1) s'
      else (acc, n, s)
  | EmptyString => (acc, n, s)
  end.

(** An optional sign: [true] for a minus. *)
Definition read_sign (s : string) : bool * string :=
  match s with
  | String c s' =>
      if Ascii.eqb c "-"%char then (true, s')
      else if Ascii.eqb c "+"%char then (false, s')
      else (false, s)
  | EmptyString => (false, s)
  end.

(** [m * 10 ^ e] *)
Definition scale (m e : Z) : Q :=
  if (0 <=? e)%Z then inject_Z (m * 10 ^ e)
  else Qmake m (Z.to_pos (10 ^ (- e))).

(** [parseFloat(input)]: leading white space is skipped and the longest
    prefix that is a decimal literal is read; there is none for [NaN]. *)
Definition parseFloat (input : string) : float :=
  let t := trimStart input in
  let '(neg, t1) := read_sign t in
  if startsWith t1 "Infinity" then (if neg then FNegInf else FPosInf)
  else
    let '(ip, ni, t2) := read_digits 0 0 t1 in
    let '(m, nf, t3) :=
      match t2 with
      | String c r => if Ascii.eqb c "."%char then read_digits ip 0 r else (ip, 0, t2)
      | EmptyString => (ip, 0, t2)
      end in
    if (ni + nf =? 0)%Z then FNaN
    else
      let e :=
        match t3 with
        | String c r =>
            if Ascii.eqb c "e"%char || Ascii.eqb c "E"%char then
              let '(eneg, r1) := read_sign r in
              let '(ev, ne, _) := read_digits 0 0 r1 in
              if (ne =? 0)%Z then 0 else if eneg then - ev else ev
            else 0
        | EmptyString => 0
        end in
      Fin (scale (if neg then - m else m) (e - nf)).

Definition hex_val (c : ascii) : option Z :=
  let n := nat_of_ascii c in
  if is_digit c then Some (Z.of_nat (n - 48))
  else if (97 <=? n)%nat && (n <=? 102)%nat then Some (Z.of_nat (n - 87))
  else if (65 <=? n)%nat && (n <=? 70)%nat then Some (Z.of_nat (n - 55))
  else None.

Fixpoint read_hex (acc : Z) (n : Z) (s : string) : Z * Z :=
  match s with
  | String c s' =>
      match hex_val c with
      | Some v => read_hex (16 * acc + v) (n + 1) s'
      | None => (acc, n)
      end
  | EmptyString => (acc, n)
  end.

(** [parseInt(input)] with no radix: an integer prefix in base ten, or in
    base sixteen after [0x]; [NaN] when no digit is read. *)
Definition parseInt (input : string) : num :=
  let t := trimStart input in
  let '(neg, t1) := read_sign t in
  let '(v, n) :=
    if startsWith t1 "0x" || startsWith t1 "0X"
    then read_hex 0 0 (String.substring 2 (String.length t1 - 2) t1)
    else let '(v, n, _) := read_digits 0 0 t1 in (v, n) in
  if (n =? 0)%Z then NaN else Int (if neg then - v else v).

End Float.

Export Float.

(** ** Props of the component *)

Inductive SortField : Type :=
  | SortSubmitted | SortStatus | SortSubmitter | SortPriority | SortDueDate | SortEstValue.

Inductive SortOrder : Type := asc | desc.

Inductive FilterField : Type :=
  | FilterStatus | FilterPriority | FilterSubmitter | FilterAssigned
  | FilterSubmitted | FilterDueDate | FilterEstValue.

Inductive CellViewMode : Type := compact | normal | expanded.

Definition sortField_key (f : SortField) : string :=
  match f with
  | SortSubmitted => "submitted"
  | SortStatus => "status"
  | SortSubmitter => "submitter"
  | SortPriority => "priority"
  | SortDueDate => "dueDate"
  | SortEstValue => "estValue"
  end.

Definition filterField_key (f : FilterField) : string :=
  match f with
  | FilterStatus => "status"
  | FilterPriority => "priority"
  | FilterSubmitter => "submitter"
  | FilterAssigned => "assigned"
  | FilterSubmitted => "submitted"
  | FilterDueDate => "dueDate"
  | FilterEstValue => "estValue"
  end.

Record Props : Type := mkProps {
  hiddenFields : list string;
  sortField : option SortField;
  sortOrder : option SortOrder;
  filterField : option FilterField;
  filterValue : string;
  searchTerm : string;
  cellViewMode : CellViewMode
}.

(** ** The filter and sort pipeline *)

(** The predicate of [filtered.filter(...)]. *)
Definition filter_row (ff : FilterField) (fv : string) (row : SpreadsheetRow) : bool :=
  let cellValue := toLowerCase (field_string row (filterField_key ff)) in
  match ff with
  | FilterSubmitted | FilterDueDate => String.eqb cellValue (toLowerCase fv)
  | _ => includes cellValue (toLowerCase fv)
  end.

Definition filter_stage (P : Props) (data : list SpreadsheetRow) : list SpreadsheetRow :=
  match filterField P with
  | Some ff =>
      if nonempty (filterValue P) then List.filter (filter_row ff (filterValue P)) data
      else data
  | None => data
  end.

(** The last lines of the comparator: [-1], [0] or [1], negated for [desc]. *)
Definition verdict (so : SortOrder) (lt gt : bool) : Z :=
  if lt then match so with asc => -1 | desc => 1 end
  else if gt then match so with asc => 1 | desc => -1 end
  else 0.

(** [String(v)] of a member that may be [undefined]. *)
Definition String_of (v : option string) : string :=
  match v with
  | Some s => s
  | None => "undefined"
  end.

(** [parseFloat(String(v).replace(/,/g, '')) || 0] *)
Definition est_key (v : option string) : float :=
  or_zero (parseFloat (remove_chars (Ascii.eqb comma) (String_of v))).

(** [priorityOrder[v] || 0]: the rank of the three members of [Priority],
    and [0] for every other text of the cell (the texts that name a member
    of [Object.prototype] are not texts of a priority cell). *)
Definition priority_key (v : option string) : Z :=
  match v with
  | Some s =>
      if String.eqb s "High" then 3
      else if String.eqb s "Medium" then 2
      else if String.eqb s "Low" then 1
      else 0
  | None => 0
  end.

(** [String(v).toLowerCase()] *)
Definition text_key (v : option string) : string := toLowerCase (String_of v).

Section Pipeline.

(** The time value of [new Date(s)]: an integer, or [NaN] for an invalid
    date. *)
Variable Date_parse : string -> num.

(** [items.sort(comparefn)]: [None] when a call of the comparator throws. *)
Variable Array_sort :
  (SpreadsheetRow -> SpreadsheetRow -> option Z) ->
  list SpreadsheetRow -> option (list SpreadsheetRow).

(** [new Date(v.split('-').reverse().join('-'))] *)
Definition date_key (v : string) : num :=
  Date_parse (join "-" (rev (split dash v))).

(** The comparator passed to [filtered.sort].  The date branch calls
    [split] on the member, which throws a [TypeError] when the row has no
    such member: the result is then [None]. *)
Definition compareFn (sf : SortField) (so : SortOrder) (a b : SpreadsheetRow) : option Z :=
  let aValue := cells a !! sortField_key sf in
  let bValue := cells b !! sortField_key sf in
  match sf with
  | SortSubmitted | SortDueDate =>
      match aValue, bValue with
      | Some av, Some bv =>
          let x := date_key av in
          let y := date_key bv in
          Some (verdict so (num_lt x y) (num_lt y x))
      | _, _ => None
      end
  | SortEstValue =>
      let x := est_key aValue in
      let y := est_key bValue in
      Some (verdict so (flt x y) (flt y x))
  | SortPriority =>
      let x := priority_key aValue in
      let y := priority_key bValue in
      Some (verdict so (Z.ltb x y) (Z.ltb y x))
  | SortStatus | SortSubmitter =>
      let x := text_key aValue in
      let y := text_key bValue in
      Some (verdict so (String.ltb x y) (String.ltb y x))
  end.

(** [processedData]: the rows that pass the filter, sorted when both a
    field and an order are given. *)
Definition processedData (P : Props) (data : list SpreadsheetRow)
  : option (list SpreadsheetRow) :=
  let filtered := filter_stage P data in
  match sortField P, sortOrder P with
  | Some sf, Some so => Array_sort (compareFn sf so) filtered
  | _, _ => Some filtered
  end.

End Pipeline.

(** ** Search *)

Definition cellMatchesSearch (searchTerm : string) (row : SpreadsheetRow)
    (fieldName : string) : bool :=
  if negb (nonempty (trim searchTerm)) then false
  else
    let cellValue := toLowerCase (field_string row fieldName) in
    includes cellValue (toLowerCase searchTerm).

(** The two nested [forEach] loops around the counter. *)
Definition searchResultsCount (searchTerm : string) (view : list SpreadsheetRow)
    (vf : list string) : nat :=
  if negb (nonempty (trim searchTerm)) then 0%nat
  else
    fold_left
      (fun count row =>
         fold_left
           (fun count field =>
              if cellMatchesSearch searchTerm row field then S count else count)
           vf count)
      view 0%nat.


(** ** What the language promises of [Array.prototype.sort]

    The comparator is consistent on the items when it never throws on them
    and orders them as a total preorder.  For such a comparator the result
    is the items in comparator order, ties in their original order; for any
    other the order is left to the engine, and only the items are kept. *)

Section SortContract.

Context {A : Type}.

Definition cmp_le (cmp : A -> A -> option Z) (a b : A) : Prop :=
  exists v, cmp a b = Some v /\ v <= 0.

Definition consistent_on (cmp : A -> A -> option Z) (l : list A) : Prop :=
  (forall a b, In a l -> In b l -> exists v, cmp a b = Some v) /\
  (forall a, In a l -> cmp a a = Some 0) /\
  (forall a b v w, In a l -> In b l ->
                   cmp a b = Some v -> cmp b a = Some w -> Z.sgn v = - Z.sgn w) /\
  (forall a b c, In a l -> In b l -> In c l ->
                 cmp_le cmp a b -> cmp_le cmp b c -> cmp_le cmp a c).

(** [x] stands somewhere before [y] in [l]. *)
Definition occurs_before (x y : A) (l : list A) : Prop := sublist [x; y] l.

Record conforming_sort
    (sort : (A -> A -> option Z) -> list A -> option (list A)) : Prop := {
  sort_returns : forall cmp l,
      (forall a b, In a l -> In b l -> exists v, cmp a b = Some v) ->
      exists l', sort cmp l = Some l';
  sort_permutes : forall cmp l l',
      sort cmp l = Some l' -> Permutation l l';
  sort_orders : forall cmp l l',
      consistent_on cmp l -> sort cmp l = Some l' ->
      StronglySorted (cmp_le cmp) l';
  sort_keeps_ties : forall cmp l l',
      consistent_on cmp l -> sort cmp l = Some l' ->
      forall x y, cmp x y = Some 0 -> occurs_before x y l -> occurs_before x y l'
}.

(** A sort that meets the promise: each item in turn is inserted into the
    sorted prefix, behind the items that are not greater. *)
Fixpoint insert_sorted (cmp : A -> A -> option Z) (x : A) (l : list A)
  : option (list A) :=
  match l with
  | [] => Some [x]
  | y :: l' =>
      match cmp x y with
      | None => None
      | Some c =>
          if c <? 0 then Some (x :: l)
          else option_map (cons y) (insert_sorted cmp x l')
      end
  end.

Definition insertion_sort (cmp : A -> A -> option Z) (l : list A) : option (list A) :=
  fold_left
    (fun acc x =>
       match acc with
       | Some sorted => insert_sorted cmp x sorted
       | None => None
       end)
    l (Some []).

End SortContract.

(** ** A [Date] parser for calendar dates

    [new Date("YYYY-MM-DD")] is midnight UTC of that day, in milliseconds
    since the epoch; the empty string and every other text are read as an
    invalid date here (the language leaves other formats to the engine). *)

Definition days_from_civil (y m d : Z) : Z :=
  let y' := if m <=? 2 then y - 1 else y in
  let era := y' / 400 in
  let yoe := y' - era * 400 in
  let doy := (153 * (if 2 <? m then m - 3 else m + 9) + 2) / 5 + d - 1 in
  let doe := yoe * 365 + yoe / 4 - yoe / 100 + doy in
  era * 146097 + doe - 719468.

Definition is_leap (y : Z) : bool :=
  ((y mod 4 =? 0) && negb (y mod 100 =? 0)) || (y mod 400 =? 0).

Definition days_in_month (y m : Z) : Z :=
  if m =? 2 then (if is_leap y then 29 else 28)
  else if (m =? 4) || (m =? 6) || (m =? 9) || (m =? 11) then 30
  else 31.

(** The number written by [s] when [s] is exactly [n] decimal digits. *)
Definition fixed_digits (n : Z) (s : string) : option Z :=
  match read_digits 0 0 s with
  | (v, k, EmptyString) => if k =? n then Some v else None
  | _ => None
  end.

Definition Date_iso (s : string) : num :=
  match split dash s with
  | [ys; ms; ds] =>
      match fixed_digits 4 ys, fixed_digits 2 ms, fixed_digits 2 ds with
      | Some y, Some m, Some d =>
          if (1 <=? m) && (m <=? 12) && (1 <=? d) && (d <=? days_in_month y m)
          then Int (86400000 * days_from_civil y m d)
          else NaN
      | _, _, _ => NaN
      end
  | _ => NaN
  end.

(** ** State of the component and its handlers *)

Record Cell : Type := mkCell {
  cell_row : num;
  cell_col : nat
}.

Record State : Type := mkState {
  data : list SpreadsheetRow;
  selectedCell : option Cell;
  selectedCells : list string;
  editingCell : option Cell;
  editValue : string;
  customColumns : list string;
  isMultiSelect : bool
}.

Definition set_data (d : list SpreadsheetRow) (st : State) : State :=
  {| data := d; selectedCell := selectedCell st; selectedCells := selectedCells st;
     editingCell := editingCell st; editValue := editValue st;
     customColumns := customColumns st; isMultiSelect := isMultiSelect st |}.

Definition set_selectedCells (cs : list string) (st : State) : State :=
  {| data := data st; selectedCell := selectedCell st; selectedCells := cs;
     editingCell := editingCell st; editValue := editValue st;
     customColumns := customColumns st; isMultiSelect := isMultiSelect st |}.

(** The visible fields of a render. *)
Definition visible (P : Props) (st : State) : list string :=
  visibleFields (customColumns st) (hiddenFields P).

(** [getCellValue]; [view] is the processed data of the render. *)
Definition getCellValue (view : list SpreadsheetRow) (vf : list string)
    (rowId : num) (colIndex : nat) : string :=
  match find_row rowId view with
  | None => EmptyString
  | Some dataRow => field_string dataRow (key_at vf colIndex)
  end.

Definition setCellValue (vf : list string) (rowId : num) (colIndex : nat)
    (value : string) (d : list SpreadsheetRow) : list SpreadsheetRow :=
  let field := key_at vf colIndex in
  map (fun row => if strict_eq (id row) rowId then with_field field value row else row) d.

Definition clearCell (vf : list string) (rowId : num) (colIndex : nat)
    (d : list SpreadsheetRow) : list SpreadsheetRow :=
  let field := key_at vf colIndex in
  map (fun row => if strict_eq (id row) rowId then with_field field EmptyString row else row) d.

Definition clearColumn (vf : list string) (colIndex : nat)
    (d : list SpreadsheetRow) : list SpreadsheetRow :=
  let field := key_at vf colIndex in
  map (fun row => with_field field EmptyString row) d.

Definition handleCellDoubleClick (P : Props) (view : list SpreadsheetRow)
    (rowId : num) (colIndex : nat) (st : State) : State :=
  let cellValue := getCellValue view (visible P st) rowId colIndex in
  {| data := data st;
     selectedCell := Some (mkCell rowId colIndex);
     selectedCells := selectedCells st;
     editingCell := Some (mkCell rowId colIndex);
     editValue := cellValue;
     customColumns := customColumns st;
     isMultiSelect := isMultiSelect st |}.

(** [onChange] of the editor: [setEditValue(e.target.value)]. *)
Definition setEditValue (value : string) (st : State) : State :=
  {| data := data st; selectedCell := selectedCell st; selectedCells := selectedCells st;
     editingCell := editingCell st; editValue := value;
     customColumns := customColumns st; isMultiSelect := isMultiSelect st |}.

Definition saveEdit (P : Props) (st : State) : State :=
  match editingCell st with
  | Some c =>
      {| data := setCellValue (visible P st) (cell_row c) (cell_col c) (editValue st) (data st);
         selectedCell := selectedCell st;
         selectedCells := selectedCells st;
         editingCell := None;
         editValue := EmptyString;
         customColumns := customColumns st;
         isMultiSelect := isMultiSelect st |}
  | None => st
  end.

(** The [Delete] case of the keyboard shortcut handler.  The handler
    returns at once during an edit, and after the [Ctrl+Shift] switch. *)
Definition handleDeleteKey (ctrlKey shiftKey : bool) (P : Props) (st : State) : State :=
  match editingCell st with
  | Some _ => st
  | None =>
      if ctrlKey && shiftKey then st
      else
        match selectedCell st with
        | Some c =>
            if shiftKey then set_data (deleteRow (cell_row c) (data st)) st
            else set_data (clearCell (visible P st) (cell_row c) (cell_col c) (data st)) st
        | None => st
        end
  end.

(** The toolbar button, shown while a cell is selected outside of the
    multi-selection mode: [selectedCell && deleteRow(selectedCell.row)]. *)
Definition toolbarDeleteRow (st : State) : State :=
  match selectedCell st with
  | Some c => set_data (deleteRow (cell_row c) (data st)) st
  | None => st
  end.

(** The row and cell actions of the context menu (the column actions ask
    the user for a name or a confirmation and are left out). *)
Inductive ContextAction : Type :=
  | addRowAbove | addRowBelow | ctxDeleteRow | ctxDuplicateRow
  | ctxClearCell | ctxClearRow | ctxClearColumn.

(** [processedData[rowIndex]?.id] followed by [if (rowId)]: the id when
    there is such a row and its id is truthy. *)
Definition row_id_at (view : list SpreadsheetRow) (rowIndex : option nat) : option num :=
  match rowIndex with
  | Some i =>
      match nth_error view i with
      | Some row => if truthy (id row) then Some (id row) else None
      | None => None
      end
  | None => None
  end.

Definition handleContextAction (action : ContextAction) (today : string) (P : Props)
    (view : list SpreadsheetRow) (rowIndex colIndex : option nat) (st : State) : State :=
  match action with
  | addRowAbove =>
      set_data (addRowAt today (customColumns st) rowIndex (data st)) st
  | addRowBelow =>
      set_data (addRowAt today (customColumns st) (option_map S rowIndex) (data st)) st
  | ctxDeleteRow =>
      match row_id_at view rowIndex with
      | Some rowId => set_data (deleteRow rowId (data st)) st
      | None => st
      end
  | ctxDuplicateRow =>
      match row_id_at view rowIndex with
      | Some rowId => set_data (duplicateRow rowId (data st)) st
      | None => st
      end
  | ctxClearCell =>
      match row_id_at view rowIndex, colIndex with
      | Some rowId, Some c => set_data (clearCell (visible P st) rowId c (data st)) st
      | _, _ => st
      end
  | ctxClearRow =>
      match row_id_at view rowIndex with
      | Some rowId => set_data (clearRow rowId (data st)) st
      | None => st
      end
  | ctxClearColumn =>
      match colIndex with
      | Some c => set_data (clearColumn (visible P st) c (data st)) st
      | None => st
      end
  end.

(** The key of a cell in the multi-selection: [`${row.id}-${colIndex}`]. *)
Definition cellId (rowId : num) (colIndex : nat) : string :=
  (num_to_string rowId ++ "-" ++ pretty colIndex)%string.

(** [parseInt(cellId.split('-')[0])] *)
Definition row_of_cellId (c : string) : num :=
  parseInt (hd EmptyString (split dash c)).

(** [Array.from(new Set(xs))]: first occurrences, in order. *)
Definition unique (xs : list num) : list num :=
  fold_left (fun acc x => if includes_num acc x then acc else acc ++ [x]) xs [].

Definition uniqueRowIds (st : State) : list num :=
  unique (map row_of_cellId (selectedCells st)).

Inductive BatchAction : Type := deleteRows | duplicateRows | clearRows.

(** [handleBatchAction]; [confirmed] is the answer of [confirm]. *)
Definition handleBatchAction (action : BatchAction) (confirmed : bool) (st : State) : State :=
  match action with
  | deleteRows =>
      if confirmed
      then set_selectedCells [] (set_data (batchDeleteRows (uniqueRowIds st) (data st)) st)
      else st
  | duplicateRows =>
      set_selectedCells [] (set_data (batchDuplicateRows (uniqueRowIds st) (data st)) st)
  | clearRows =>
      set_selectedCells [] (set_data (batchClearRows (uniqueRowIds st) (data st)) st)
  end.

(** The selection and the edit session point at rows of the store. *)
Definition cell_in_store (c : option Cell) (d : list SpreadsheetRow) : Prop :=
  match c with
  | Some cl => present (cell_row cl) d
  | None => True
  end.

(** The state the specification calls [Idle]. *)
Definition idle (st : State) : Prop :=
  selectedCell st = None /\ editingCell st = None /\ selectedCells st = [].

(** ** Notions of the specification *)

(** The text is empty or holds white space only. *)
Fixpoint only_spaces (s : string) : bool :=
  match s with
  | EmptyString => true
  | String c s' => is_space c && only_spaces s'
  end.

(** [t] occurs in [v] when the case of letters is ignored. *)
Definition contains_ci (v t : string) : Prop :=
  exists a b c, v = (a ++ b ++ c)%string /\ toLowerCase b = toLowerCase t.

(** [v] and [t] are equal when the case of letters is ignored. *)
Definition equal_ci (v t : string) : Prop := toLowerCase v = toLowerCase t.

(** The filter predicate in the words of the specification: equality for
    the two date fields, containment for the others. *)
Definition satisfies_filter (ff : FilterField) (fv : string) (row : SpreadsheetRow) : Prop :=
  match ff with
  | FilterSubmitted | FilterDueDate => equal_ci (field_string row (filterField_key ff)) fv
  | _ => contains_ci (field_string row (filterField_key ff)) fv
  end.

(** The pairs of a row of the view and a visible field. *)
Definition cells_of_view (view : list SpreadsheetRow) (vf : list string)
  : list (SpreadsheetRow * string) :=
  list_prod view vf.

(** An order [lt] on keys that a comparator can be built from: on the keys
    of [S] it is a strict weak order. *)
Record strict_weak {K : Type} (lt : K -> K -> bool) (S : K -> Prop) : Prop := {
  swo_irrefl : forall a, S a -> lt a a = false;
  swo_asym : forall a b, S a -> S b -> lt a b = true -> lt b a = false;
  swo_negtrans : forall a b c, S a -> S b -> S c ->
                               lt a b = false -> lt b c = false -> lt a c = false
}.

Section Sortable.

Variable Date_parse : string -> num.

(** The rows can be compared on the sort field: for the two date fields
    every row holds the member and its text is read as a valid date; the
    other fields put no condition. *)
Definition sortable (sf : SortField) (rows : list SpreadsheetRow) : Prop :=
  match sf with
  | SortSubmitted | SortDueDate =>
      forall row, In row rows ->
        exists v, cells row !! sortField_key sf = Some v /\ date_key Date_parse v <> NaN
  | _ => True
  end.

End Sortable.

(** ** Error kinds of the specification

    The component raises none of them: its handlers return nothing and
    replace the store, or leave it as it is. *)

Inductive EngineError : Type :=
  | RowNotFound
  | FieldNotFound
  | ProtectedColumn
  | DuplicateFieldKey.

(** [duplicateRow] as the specification words it: a failure for an absent
    row, the store with the copy for a present one. *)
Definition duplicateRow_spec (rowId : num) (data : list SpreadsheetRow)
  : EngineError + list SpreadsheetRow :=
  match find_row rowId data with
  | None => inl RowNotFound
  | Some row => inr (data ++ [with_id (plus (Math_max (ids data)) 1) row])
  end.

(** ** Sample stores *)

Definition sample_row (n : Z) (kvs : list (string * string)) : SpreadsheetRow :=
  {| id := Int n; cells := list_to_map kvs |}.

Definition sample_store : list SpreadsheetRow :=
  [ sample_row 1 [("jobRequest", "Launch campaign"); ("submitter", "Aisha Patel");
              ("status", "in-progress"); ("priority", "Medium");
              ("submitted", "15-11-2024"); ("dueDate", "20-11-2024");
              ("estValue", "1,200")];
    sample_row 2 [("jobRequest", "Update press kit"); ("submitter", "Irfan Khan");
              ("status", "complete"); ("priority", "High");
              ("submitted", "28-10-2024"); ("dueDate", "30-10-2024");
              ("estValue", "300")];
    sample_row 5 [("jobRequest", "Finalize onboarding"); ("submitter", "Mark Johnson");
              ("status", "complete"); ("priority", "Low");
              ("submitted", "05-12-2024"); ("dueDate", "10-12-2024");
              ("estValue", "4,750.50")] ].

Definition single_store : list SpreadsheetRow := [sample_row 1 [("jobRequest", "Only row")]].

Definition sample_props : Props :=
  {| hiddenFields := []; sortField := None; sortOrder := None;
     filterField := None; filterValue := EmptyString; searchTerm := EmptyString;
     cellViewMode := normal |}.

Definition sort_props (sf : SortField) (so : SortOrder) : Props :=
  {| hiddenFields := []; sortField := Some sf; sortOrder := Some so;
     filterField := None; filterValue := EmptyString; searchTerm := EmptyString;
     cellViewMode := normal |}.

Definition filter_props (ff : FilterField) (fv : string) : Props :=
  {| hiddenFields := []; sortField := None; sortOrder := None;
     filterField := Some ff; filterValue := fv; searchTerm := EmptyString;
     cellViewMode := normal |}.

(** The rows [[{id: 1, estValue: "1,200"}, {id: 2, estValue: "300"}]]. *)
Definition est_row_1 : SpreadsheetRow := sample_row 1 [("estValue", "1,200")].
Definition est_row_2 : SpreadsheetRow := sample_row 2 [("estValue", "300")].

(** Four rows by due date: 2026, 2024, none (the default of a new row),
    2025. *)
Definition due_2026 : SpreadsheetRow := sample_row 1 [("dueDate", "01-01-2026")].
Definition due_2024 : SpreadsheetRow := sample_row 2 [("dueDate", "01-01-2024")].
Definition due_none : SpreadsheetRow := sample_row 3 [("dueDate", EmptyString)].
Definition due_2025 : SpreadsheetRow := sample_row 4 [("dueDate", "01-01-2025")].
Definition due_rows : list SpreadsheetRow := [due_2026; due_2024; due_none; due_2025].

(** Row 2 is selected; no edit is in progress. *)
Definition selected_state : State :=
  {| data := sample_store; selectedCell := Some (mkCell (Int 2) 0);
     selectedCells := []; editingCell := None; editValue := EmptyString;
     customColumns := []; isMultiSelect := false |}.

(** The first cell of row 2 is being edited, with a draft typed in. *)
Definition editing_state : State :=
  {| data := sample_store; selectedCell := Some (mkCell (Int 2) 0);
     selectedCells := []; editingCell := Some (mkCell (Int 2) 0);
     editValue := "Update press kit v2";
     customColumns := []; isMultiSelect := false |}.

(** Two cells of row 2 are in the multi-selection, row 2 is also the single
    selection. *)
Definition multi_state : State :=
  {| data := sample_store; selectedCell := Some (mkCell (Int 2) 0);
     selectedCells := [cellId (Int 2) 0; cellId (Int 2) 3];
     editingCell := None; editValue := EmptyString;
     customColumns := []; isMultiSelect := true |}.


(** * Further parts of the component

    The cell selection, the column registry with its widths, the keyboard
    navigation, the row heights, and the toolbar handlers of
    [src/components/HeaderBar.tsx] that supply the props. *)

(** ** Sets of cell keys

    A [Set<string>] in insertion order: a list in which a key stands at
    most once. *)

Definition set_add (x : string) (s : list string) : list string :=
  if includes_str s x then s else s ++ [x].

Definition set_delete (x : string) (s : list string) : list string :=
  List.filter (fun y => negb (String.eqb x y)) s.

(** A text of decimal digits, as the key of a cell starts with for a row
    id that is a non-negative integer. *)
Definition all_digits (s : string) : Prop :=
  forall c, In c (list_ascii_of_string s) -> is_digit c = true.

(** [handleCellSelection]: with [Ctrl] or [Meta] the clicked cell is
    toggled in the multi-selection, otherwise it becomes the single
    selection. *)
Definition handleCellSelection (rowId : num) (colIndex : nat) (ctrlOrMeta : bool)
    (st : State) : State :=
  if ctrlOrMeta then
    let c := cellId rowId colIndex in
    let newSelectedCells :=
      if includes_str (selectedCells st) c
      then set_delete c (selectedCells st)
      else set_add c (selectedCells st) in
    {| data := data st; selectedCell := selectedCell st;
       selectedCells := newSelectedCells;
       editingCell := editingCell st; editValue := editValue st;
       customColumns := customColumns st;
       isMultiSelect := (0 <? length newSelectedCells)%nat |}
  else
    {| data := data st; selectedCell := Some (mkCell rowId colIndex);
       selectedCells := [];
       editingCell := editingCell st; editValue := editValue st;
       customColumns := customColumns st;
       isMultiSelect := false |}.

(** The keys that [selectAll] collects: one for each row of the processed
    data and each index of a visible field. *)
Definition all_cell_keys (view : list SpreadsheetRow) (vf : list string) : list string :=
  fold_left
    (fun allCells row =>
       fold_left (fun allCells colIndex => set_add (cellId (id row) colIndex) allCells)
                 (seq 0 (length vf)) allCells)
    view [].

Definition selectAll (view : list SpreadsheetRow) (vf : list string) (st : State) : State :=
  {| data := data st; selectedCell := selectedCell st;
     selectedCells := all_cell_keys view vf;
     editingCell := editingCell st; editValue := editValue st;
     customColumns := customColumns st;
     isMultiSelect := true |}.

(** ** Columns and their widths *)

(** The state of the component together with [columnWidths], a dense
    array of numbers that starts as [Array(15).fill(160)]. *)
Record Sheet : Type := mkSheet {
  sheet_state : State;
  columnWidths : list Z
}.

Definition initial_widths : list Z := repeat 160 15.

(** [list.splice(p, 0, x)]: a start past the end is the end. *)
Definition splice_in {A : Type} (p : nat) (x : A) (l : list A) : list A :=
  firstn p l ++ x :: skipn p l.

(** [list.filter((_, i) => i !== k)] *)
Definition drop_index {A : Type} (k : nat) (l : list A) : list A :=
  firstn k l ++ skipn (S k) l.

(** [delete row[field]] on a copy of the row. *)
Definition without_field (field : string) (row : SpreadsheetRow) : SpreadsheetRow :=
  {| id := id row; cells := delete field (cells row) |}.

(** The column name that a prompt yields: [None] when the prompt is
    cancelled or the answer is blank, the trimmed answer otherwise. *)
Definition prompted_name (answer : option string) : option string :=
  match answer with
  | Some columnName =>
      if nonempty columnName && nonempty (trim columnName)
      then Some (trim columnName) else None
  | None => None
  end.

Definition set_columns (cc : list string) (d : list SpreadsheetRow) (st : State) : State :=
  {| data := d; selectedCell := selectedCell st; selectedCells := selectedCells st;
     editingCell := editingCell st; editValue := editValue st;
     customColumns := cc; isMultiSelect := isMultiSelect st |}.

(** [addColumn]; [answer] is what [prompt] returns. *)
Definition addColumn (answer : option string) (sh : Sheet) : Sheet :=
  match prompted_name answer with
  | Some newColumnName =>
      let st := sheet_state sh in
      let fieldName := field_of_column newColumnName in
      {| sheet_state :=
           set_columns (customColumns st ++ [newColumnName])
                       (map (with_field fieldName EmptyString) (data st)) st;
         columnWidths := columnWidths sh ++ [160] |}
  | None => sh
  end.

(** [addColumnAt]; the position counts among all headers and is spliced
    into the custom columns and into the widths. *)
Definition addColumnAt (answer : option string) (position : option nat) (sh : Sheet)
  : Sheet :=
  match prompted_name answer with
  | Some newColumnName =>
      let st := sheet_state sh in
      let fieldName := field_of_column newColumnName in
      let newCustomColumns :=
        match position with
        | Some p =>
            if (p <? length fields + length (customColumns st))%nat
            then splice_in p newColumnName (customColumns st)
            else customColumns st ++ [newColumnName]
        | None => customColumns st ++ [newColumnName]
        end in
      let newWidths :=
        match position with
        | Some p =>
            if (p <? length (columnWidths sh))%nat
            then splice_in p 160 (columnWidths sh)
            else columnWidths sh ++ [160]
        | None => columnWidths sh ++ [160]
        end in
      {| sheet_state :=
           set_columns newCustomColumns
                       (map (with_field fieldName EmptyString) (data st)) st;
         columnWidths := newWidths |}
  | None => sh
  end.

(** [deleteColumn]; [confirmed] is what [confirm] returns.  The index
    counts among all headers. *)
Definition deleteColumn (colIndex : nat) (confirmed : bool) (sh : Sheet) : Sheet :=
  let st := sheet_state sh in
  if (colIndex <? length fields)%nat then sh
  else
    let customColIndex := (colIndex - length fields)%nat in
    match nth_error (customColumns st) customColIndex with
    | Some columnToDelete =>
        let fieldName := field_of_column columnToDelete in
        if confirmed then
          {| sheet_state :=
               set_columns (drop_index customColIndex (customColumns st))
                           (map (without_field fieldName) (data st)) st;
             columnWidths := drop_index colIndex (columnWidths sh) |}
        else sh
    | None => sh
    end.

(** Every row holds a member for every field of the registry. *)
Definition row_complete (cc : list string) (row : SpreadsheetRow) : Prop :=
  forall f, In f (allFields cc) -> is_Some (cells row !! f).

Definition rows_complete (cc : list string) (d : list SpreadsheetRow) : Prop :=
  forall row, In row d -> row_complete cc row.

(** There is a width for each of the fifteen initial slots and one more
    for each custom column. *)
Definition widths_cover (sh : Sheet) : Prop :=
  length (columnWidths sh) = (15 + length (customColumns (sheet_state sh)))%nat.

(** The operations of the component on rows and columns. *)
Inductive SheetOp : Type :=
  | SAddRow (today : string)
  | SAddRowAt (today : string) (position : option nat)
  | SDuplicateRow (rowId : num)
  | SDeleteRow (rowId : num)
  | SClearRow (rowId : num)
  | SClearCell (hidden : list string) (rowId : num) (colIndex : nat)
  | SClearColumn (hidden : list string) (colIndex : nat)
  | SSetCell (hidden : list string) (rowId : num) (colIndex : nat) (value : string)
  | SBatch (action : BatchAction) (confirmed : bool)
  | SAddColumn (answer : option string)
  | SAddColumnAt (answer : option string) (position : option nat)
  | SDeleteColumn (colIndex : nat) (confirmed : bool).

Definition on_data (f : list SpreadsheetRow -> list SpreadsheetRow) (sh : Sheet) : Sheet :=
  {| sheet_state := set_data (f (data (sheet_state sh))) (sheet_state sh);
     columnWidths := columnWidths sh |}.

Definition on_state (f : State -> State) (sh : Sheet) : Sheet :=
  {| sheet_state := f (sheet_state sh); columnWidths := columnWidths sh |}.

Definition applySheetOp (op : SheetOp) (sh : Sheet) : Sheet :=
  let st := sheet_state sh in
  let cc := customColumns st in
  match op with
  | SAddRow today => on_data (addRow today cc) sh
  | SAddRowAt today position => on_data (addRowAt today cc position) sh
  | SDuplicateRow rowId => on_data (duplicateRow rowId) sh
  | SDeleteRow rowId => on_data (deleteRow rowId) sh
  | SClearRow rowId => on_data (clearRow rowId) sh
  | SClearCell hidden rowId colIndex =>
      on_data (clearCell (visibleFields cc hidden) rowId colIndex) sh
  | SClearColumn hidden colIndex =>
      on_data (clearColumn (visibleFields cc hidden) colIndex) sh
  | SSetCell hidden rowId colIndex value =>
      on_data (setCellValue (visibleFields cc hidden) rowId colIndex value) sh
  | SBatch action confirmed => on_state (handleBatchAction action confirmed) sh
  | SAddColumn answer => addColumn answer sh
  | SAddColumnAt answer position => addColumnAt answer position sh
  | SDeleteColumn colIndex confirmed => deleteColumn colIndex confirmed sh
  end.

Definition runSheet (ops : list SheetOp) (sh : Sheet) : Sheet :=
  fold_left (fun s op => applySheetOp op s) ops sh.

(** Whenever the run deletes a column, the fields of the registry are
    pairwise distinct at that moment. *)
Fixpoint deletes_on_distinct_fields (ops : list SheetOp) (sh : Sheet) : Prop :=
  match ops with
  | [] => True
  | op :: ops' =>
      match op with
      | SDeleteColumn _ _ => List.NoDup (allFields (customColumns (sheet_state sh)))
      | _ => True
      end /\ deletes_on_distinct_fields ops' (applySheetOp op sh)
  end.

(** ** Keyboard navigation *)

Inductive Direction : Type := dir_up | dir_down | dir_left | dir_right.

(** [list.findIndex(p)]: [-1] when no item passes. *)
Fixpoint findIndex {A : Type} (p : A -> bool) (l : list A) : Z :=
  match l with
  | [] => -1
  | x :: l' =>
      if p x then 0
      else let i := findIndex p l' in if i <? 0 then -1 else i + 1
  end.

(** [processedData[i].id] for an index inside the array; the handlers
    read no other. *)
Definition id_at (view : list SpreadsheetRow) (i : Z) (otherwise : num) : num :=
  match nth_error view (Z.to_nat i) with
  | Some row => id row
  | None => otherwise
  end.

Definition set_selectedCell (c : option Cell) (sh : Sheet) : Sheet :=
  let st := sheet_state sh in
  {| sheet_state :=
       {| data := data st; selectedCell := c; selectedCells := selectedCells st;
          editingCell := editingCell st; editValue := editValue st;
          customColumns := customColumns st; isMultiSelect := isMultiSelect st |};
     columnWidths := columnWidths sh |}.

(** [navigateCell]; [view] and [vf] are the processed data and the visible
    fields of the render, [today] the date that [addRow] writes and
    [answer] what the prompt of [addColumn] returns. *)
Definition navigateCell (direction : Direction) (today : string) (answer : option string)
    (view : list SpreadsheetRow) (vf : list string) (sh : Sheet) : Sheet :=
  let st := sheet_state sh in
  match selectedCell st with
  | None => sh
  | Some c =>
      let here := fun row => strict_eq (id row) (cell_row c) in
      match direction with
      | dir_up =>
          let upRowIndex := findIndex here view in
          let newRow :=
            if 0 <? upRowIndex then id_at view (upRowIndex - 1) (cell_row c)
            else cell_row c in
          set_selectedCell (Some (mkCell newRow (cell_col c))) sh
      | dir_down =>
          let downRowIndex := findIndex here view in
          if downRowIndex <? Z.of_nat (length view) - 1
          then set_selectedCell
                 (Some (mkCell (id_at view (downRowIndex + 1) (cell_row c)) (cell_col c))) sh
          else set_selectedCell
                 (Some (mkCell (nextId (data st)) (cell_col c)))
                 (on_data (addRow today (customColumns st)) sh)
      | dir_left =>
          set_selectedCell (Some (mkCell (cell_row c) (Nat.max 0 (cell_col c - 1)))) sh
      | dir_right =>
          if Z.of_nat (cell_col c) <? Z.of_nat (length vf) - 1
          then set_selectedCell (Some (mkCell (cell_row c) (cell_col c + 1))) sh
          else set_selectedCell (Some (mkCell (cell_row c) (cell_col c + 1)))
                                (addColumn answer sh)
      end
  end.

(** A [keydown] event on the document. *)
Record KeyEvent : Type := mkKeyEvent {
  ev_key : string;
  ev_ctrl : bool;
  ev_shift : bool
}.

(** The keyboard shortcut handler of the component. *)
Definition handleKeyDown (e : KeyEvent) (today : string) (answer : option string)
    (P : Props) (view : list SpreadsheetRow) (sh : Sheet) : Sheet :=
  let st := sheet_state sh in
  let vf := visible P st in
  match editingCell st with
  | Some _ => sh
  | None =>
      if ev_ctrl e && ev_shift e then
        if String.eqb (ev_key e) "R" then on_data (addRow today (customColumns st)) sh
        else if String.eqb (ev_key e) "C" then addColumn answer sh
        else sh
      else
        let after_switch :=
          match selectedCell st with
          | Some c =>
              if String.eqb (ev_key e) "ArrowUp"
              then navigateCell dir_up today answer view vf sh
              else if String.eqb (ev_key e) "ArrowDown"
              then navigateCell dir_down today answer view vf sh
              else if String.eqb (ev_key e) "ArrowLeft"
              then navigateCell dir_left today answer view vf sh
              else if String.eqb (ev_key e) "ArrowRight"
              then navigateCell dir_right today answer view vf sh
              else if String.eqb (ev_key e) "Delete"
              then if ev_shift e
                   then on_data (deleteRow (cell_row c)) sh
                   else on_data (clearCell vf (cell_row c) (cell_col c)) sh
              else if String.eqb (ev_key e) "Enter"
              then if ev_shift e
                   then navigateCell dir_up today answer view vf sh
                   else navigateCell dir_down today answer view vf sh
              else if String.eqb (ev_key e) "Tab"
              then if ev_shift e
                   then navigateCell dir_left today answer view vf sh
                   else navigateCell dir_right today answer view vf sh
              else if String.eqb (ev_key e) "Escape"
              then on_state (set_selectedCells [])
                            (set_selectedCell None sh)
              else sh
          | None => sh
          end in
        if ev_ctrl e && String.eqb (ev_key e) "a"
        then on_state (selectAll view vf) after_switch
        else after_switch
  end.

(** ** Row heights *)

Definition baseHeight (mode : CellViewMode) : Z :=
  match mode with
  | compact => 32
  | expanded => 64
  | normal => 40
  end.

Definition lineHeight (mode : CellViewMode) : Z :=
  match mode with
  | compact => 16
  | expanded => 20
  | normal => 18
  end.

(** [Math.ceil((length - 50) / 40)] for a length above fifty. *)
Definition extraLines (length : Z) : Z := (length - 50 + 39) / 40.

(** The height in pixels that a cell with this content asks for. *)
Definition cellHeight (mode : CellViewMode) (content : string) : Z :=
  let n := Z.of_nat (String.length content) in
  if 50 <? n then baseHeight mode + extraLines n * lineHeight mode
  else baseHeight mode.

(** The number inside the class that [getRowHeight] returns. *)
Definition rowHeight (mode : CellViewMode) (vf : list string) (row : SpreadsheetRow) : Z :=
  fold_left
    (fun maxHeight field =>
       let content := field_string row field in
       let n := Z.of_nat (String.length content) in
       if 50 <? n
       then Z.max maxHeight (baseHeight mode + extraLines n * lineHeight mode)
       else maxHeight)
    vf (baseHeight mode).

Definition getRowHeight (mode : CellViewMode) (vf : list string) (row : SpreadsheetRow)
  : string :=
  ("h-[" ++ pretty (rowHeight mode vf row) ++ "px]")%string.

(** ** The toolbar ([src/components/HeaderBar.tsx])

    Its handlers call the setters of [src/App.tsx], which store what they
    are given in the props of the table. *)

Definition SortField_eqb (a b : SortField) : bool :=
  String.eqb (sortField_key a) (sortField_key b).

Definition handleFieldVisibilityToggle (fieldKey : string) (P : Props) : Props :=
  let newHiddenFields :=
    if includes_str (hiddenFields P) fieldKey
    then List.filter (fun f => negb (String.eqb f fieldKey)) (hiddenFields P)
    else hiddenFields P ++ [fieldKey] in
  {| hiddenFields := newHiddenFields;
     sortField := sortField P; sortOrder := sortOrder P;
     filterField := filterField P; filterValue := filterValue P;
     searchTerm := searchTerm P; cellViewMode := cellViewMode P |}.

Definition onSort (field : option SortField) (order : option SortOrder) (P : Props) : Props :=
  {| hiddenFields := hiddenFields P;
     sortField := field; sortOrder := order;
     filterField := filterField P; filterValue := filterValue P;
     searchTerm := searchTerm P; cellViewMode := cellViewMode P |}.

Definition handleSortSelect (field : option SortField) (P : Props) : Props :=
  match field with
  | None => onSort None None P
  | Some f =>
      match sortField P with
      | Some g =>
          if SortField_eqb g f then
            match sortOrder P with
            | Some asc => onSort (Some f) (Some desc) P
            | Some desc => onSort None None P
            | None => onSort (Some f) (Some asc) P
            end
          else onSort (Some f) (Some asc) P
      | None => onSort (Some f) (Some asc) P
      end
  end.

Definition onFilter (field : option FilterField) (value : string) (P : Props) : Props :=
  {| hiddenFields := hiddenFields P;
     sortField := sortField P; sortOrder := sortOrder P;
     filterField := field; filterValue := value;
     searchTerm := searchTerm P; cellViewMode := cellViewMode P |}.

(** [handleApplyFilter]; the pending field and value are the local state
    of the filter dropdown. *)
Definition handleApplyFilter (pendingFilterField : option FilterField)
    (pendingFilterValue : string) (P : Props) : Props :=
  match pendingFilterField with
  | Some f =>
      if nonempty (trim pendingFilterValue)
      then onFilter (Some f) pendingFilterValue P
      else onFilter None EmptyString P
  | None => onFilter None EmptyString P
  end.

(** ** More sample data *)

(** The sample store under the initial registry and widths. *)
Definition plain_sheet : Sheet :=
  {| sheet_state :=
       {| data := sample_store; selectedCell := None;
          selectedCells := []; editingCell := None; editValue := EmptyString;
          customColumns := []; isMultiSelect := false |};
     columnWidths := initial_widths |}.

(** Two rows that hold every built-in member. *)
Definition full_store : list SpreadsheetRow :=
  [ with_field "jobRequest" "Launch campaign" (newRow (Int 1) "01/11/2026" []);
    with_field "status" "complete" (newRow (Int 2) "02/11/2026" []) ].

Definition full_sheet : Sheet :=
  {| sheet_state :=
       {| data := full_store; selectedCell := None;
          selectedCells := []; editingCell := None; editValue := EmptyString;
          customColumns := []; isMultiSelect := false |};
     columnWidths := initial_widths |}.

(** The store was emptied and a row added: its id is [-Infinity].  Both
    cells of the row that were clicked are in the multi-selection. *)
Definition orphan_state : State :=
  {| data := addRow "02/11/2026" [] []; selectedCell := None;
     selectedCells := [cellId NegInf 0; cellId NegInf 1];
     editingCell := None; editValue := EmptyString;
     customColumns := []; isMultiSelect := true |}.
Section RowIds.

Lemma Math_max_Int (xs : list num) :
  Forall is_Int xs -> xs <> [] ->
  exists m, Math_max xs = Int m /\ forall z, In (Int z) xs -> z <= m.
Proof.
  induction xs as [|a xs IH]; intros Hall Hne; [congruence|].
  inversion Hall as [|? ? Ha Hxs]; subst.
  destruct a as [| |z]; try contradiction.
  destruct xs as [|b xs'].
  - exists z. split; [reflexivity|]. intros w [Hw|[]]. injection Hw as ->. lia.
  - destruct (IH Hxs ltac:(discriminate)) as (m & Hm & Hle).
    exists (Z.max z m). split.
    + change (Math_max (Int z :: b :: xs')) with (max2 (Int z) (Math_max (b :: xs'))).
      rewrite Hm. reflexivity.
    + intros w [Hw|Hw]; [injection Hw as ->; lia|].
      specialize (Hle w Hw). lia.
Qed.

Lemma ids_app (d1 d2 : list SpreadsheetRow) : ids (d1 ++ d2) = ids d1 ++ ids d2.
Proof. apply map_app. Qed.

Lemma nextId_fresh (data : list SpreadsheetRow) :
  Forall is_Int (ids data) -> data <> [] ->
  exists m, nextId data = Int (m + 1) /\ forall z, In (Int z) (ids data) -> z <= m.
Proof.
  intros Hall Hne.
  destruct (Math_max_Int (ids data) Hall) as (m & Hm & Hle).
  - destruct data; [congruence | discriminate].
  - exists m. unfold nextId. rewrite Hm. split; [reflexivity | exact Hle].
Qed.

Lemma nextId_not_in (data : list SpreadsheetRow) :
  Forall is_Int (ids data) -> data <> [] ->
  is_Int (nextId data) /\ ~ In (nextId data) (ids data).
Proof.
  intros Hall Hne. destruct (nextId_fresh data Hall Hne) as (m & Hm & Hle).
  rewrite Hm. split; [exact I|]. intros Hin. specialize (Hle _ Hin). lia.
Qed.

Lemma distinct_ids_cons (row : SpreadsheetRow) (data : list SpreadsheetRow) :
  distinct_ids data -> is_Int (id row) -> ~ In (id row) (ids data) ->
  distinct_ids (row :: data).
Proof.
  intros [Hnd Hall] Hi Hnin. split; simpl.
  - constructor; assumption.
  - constructor; assumption.
Qed.

Lemma distinct_ids_perm (d1 d2 : list SpreadsheetRow) :
  Permutation d1 d2 -> distinct_ids d1 -> distinct_ids d2.
Proof.
  intros Hp [Hnd Hall].
  assert (Hp' : Permutation (ids d1) (ids d2)) by (apply Permutation_map; exact Hp).
  split.
  - eapply Permutation_NoDup; eassumption.
  - eapply Permutation_Forall; eassumption.
Qed.

Lemma distinct_ids_filter (f : SpreadsheetRow -> bool) (data : list SpreadsheetRow) :
  distinct_ids data -> distinct_ids (List.filter f data).
Proof.
  intros [Hnd Hall]. unfold distinct_ids, ids in *.
  induction data as [|r data IH]; simpl in *; [split; constructor|].
  inversion Hnd as [|? ? Hnin Hnd']; subst.
  inversion Hall as [|? ? Hr Hall']; subst.
  destruct (IH Hnd' Hall') as [IH1 IH2].
  destruct (f r); simpl; [|split; assumption].
  split; constructor; try assumption.
  intros Hin. apply Hnin.
  apply in_map_iff in Hin as (r' & Hid & Hr').
  apply filter_In in Hr' as [Hr' _].
  apply in_map_iff. exists r'. split; assumption.
Qed.

Lemma insert_at_perm (p : nat) (row : SpreadsheetRow) (data : list SpreadsheetRow) :
  Permutation (row :: data) (firstn p data ++ row :: skipn p data).
Proof.
  rewrite <- (firstn_skipn p data) at 1.
  apply Permutation_middle.
Qed.

Lemma addRow_distinct today cc (data : list SpreadsheetRow) :
  distinct_ids data -> data <> [] -> distinct_ids (addRow today cc data).
Proof.
  intros Hd Hne. unfold addRow.
  destruct (nextId_not_in data (proj2 Hd) Hne) as [Hi Hnin].
  eapply distinct_ids_perm; [apply Permutation_cons_append|].
  apply distinct_ids_cons; assumption.
Qed.

Lemma addRowAt_distinct today cc position (data : list SpreadsheetRow) :
  distinct_ids data -> data <> [] -> distinct_ids (addRowAt today cc position data).
Proof.
  intros Hd Hne. unfold addRowAt.
  destruct (nextId_not_in data (proj2 Hd) Hne) as [Hi Hnin].
  assert (Hc : distinct_ids (newRow (nextId data) today cc :: data))
    by (apply distinct_ids_cons; assumption).
  destruct position as [p|].
  - destruct (p <? length data)%nat.
    + eapply distinct_ids_perm; [apply insert_at_perm | exact Hc].
    + eapply distinct_ids_perm; [apply Permutation_cons_append | exact Hc].
  - eapply distinct_ids_perm; [apply Permutation_cons_append | exact Hc].
Qed.

Lemma find_row_some (rowId : num) (data : list SpreadsheetRow) (row : SpreadsheetRow) :
  find_row rowId data = Some row -> In row data /\ strict_eq (id row) rowId = true.
Proof. intros H. apply find_some in H. exact H. Qed.

Lemma find_row_none (rowId : num) (data : list SpreadsheetRow) :
  find_row rowId data = None <-> ~ present rowId data.
Proof.
  split.
  - intros Hf (row & Hin & Heq).
    pose proof (find_none _ _ Hf row Hin) as Hn. simpl in Hn. congruence.
  - intros Hn. destruct (find_row rowId data) as [row|] eqn:Hf; [|reflexivity].
    exfalso. apply Hn. exists row. apply find_row_some. exact Hf.
Qed.

Lemma find_row_present (rowId : num) (data : list SpreadsheetRow) :
  present rowId data -> exists row, find_row rowId data = Some row.
Proof.
  intros Hp. destruct (find_row rowId data) as [row|] eqn:Hf; [eauto|].
  apply find_row_none in Hf. contradiction.
Qed.

Lemma duplicateRow_distinct rowId (data : list SpreadsheetRow) :
  distinct_ids data -> distinct_ids (duplicateRow rowId data).
Proof.
  intros Hd. unfold duplicateRow.
  destruct (find_row rowId data) as [row|] eqn:Hf; [|exact Hd].
  assert (Hne : data <> []).
  { apply find_row_some in Hf as [Hin _]. destruct data; [destruct Hin | discriminate]. }
  destruct (nextId_not_in data (proj2 Hd) Hne) as [Hi Hnin].
  eapply distinct_ids_perm; [apply Permutation_cons_append|].
  apply distinct_ids_cons; assumption.
Qed.

Lemma ids_imap_with_id (g : nat -> num) (l : list SpreadsheetRow) :
  ids (imap (fun i row => with_id (g i) row) l) = map g (seq 0 (length l)).
Proof.
  revert g. induction l as [|r l IH]; intros g; [reflexivity|].
  simpl. f_equal.
  change (ids (imap (fun i row => with_id ((g ∘ S) i) row) l) = map g (seq 1 (length l))).
  rewrite IH. rewrite <- seq_shift, map_map. reflexivity.
Qed.

Lemma batchDuplicateRows_distinct rowIds (data : list SpreadsheetRow) :
  distinct_ids data -> distinct_ids (batchDuplicateRows rowIds data).
Proof.
  intros Hd. unfold batchDuplicateRows.
  destruct data as [|r0 data0] eqn:Hdata; [exact Hd|]. rewrite <- Hdata in *.
  assert (Hne : data <> []) by (subst; discriminate).
  destruct (Math_max_Int (ids data) (proj2 Hd)) as (m & Hm & Hle).
  { subst; discriminate. }
  set (rows := List.filter _ data).
  unfold distinct_ids. rewrite ids_app, ids_imap_with_id, Hm.
  destruct Hd as [Hnd Hall]. split.
  - apply List.NoDup_app; [exact Hnd | |].
    + apply Finite.Injective_map_NoDup; [intros i j Hij | apply seq_NoDup].
      injection Hij. lia.
    + intros a Ha Hb. apply in_map_iff in Hb as (i & Hi & _).
      subst a. simpl in Ha. specialize (Hle _ Ha). lia.
  - apply Forall_app. split; [exact Hall|].
    apply List.Forall_forall. intros a Ha. apply in_map_iff in Ha as (i & Hi & _).
    subst a. exact I.
Qed.

Lemma applyOp_distinct (op : RowOp) (data : list SpreadsheetRow) :
  distinct_ids data -> op_on_nonempty op data -> distinct_ids (applyOp op data).
Proof.
  intros Hd Hs. destruct op; simpl in *.
  - apply addRow_distinct; assumption.
  - apply addRowAt_distinct; assumption.
  - apply duplicateRow_distinct; assumption.
  - apply batchDuplicateRows_distinct; assumption.
  - apply distinct_ids_filter; assumption.
  - apply distinct_ids_filter; assumption.
Qed.

(** As long as no row is created in an emptied store, every sequence of row
    operations keeps the ids integer and pairwise distinct. *)
Lemma run_distinct (ops : list RowOp) (data : list SpreadsheetRow) :
  distinct_ids data -> ops_on_nonempty ops data -> distinct_ids (run ops data).
Proof.
  revert data. induction ops as [|op ops IH]; intros data Hd Hs; [exact Hd|].
  destruct Hs as [Hop Hrest]. simpl. apply IH; [|exact Hrest].
  apply applyOp_distinct; assumption.
Qed.

End RowIds.

(** ** Row ids (C1) *)

Lemma same_value_zero_refl (a : num) : same_value_zero a a = true.
Proof. destruct a; simpl; [reflexivity | reflexivity | apply Z.eqb_refl]. Qed.

(** A batch delete of every id of the store leaves no row. *)
Lemma batchDeleteRows_all (d : list SpreadsheetRow) : batchDeleteRows (ids d) d = [].
Proof.
  unfold batchDeleteRows.
  assert (H : forall l, (forall row, In row l -> In (id row) (ids d)) ->
                        List.filter (fun row => negb (includes_num (ids d) (id row))) l = []).
  { induction l as [|r l IH]; intros Hl; [reflexivity|]. simpl.
    assert (Hr : includes_num (ids d) (id r) = true).
    { unfold includes_num. apply existsb_exists. exists (id r).
      split; [apply Hl; left; reflexivity | apply same_value_zero_refl]. }
    rewrite Hr. simpl. apply IH. intros row Hrow. apply Hl. right. exact Hrow. }
  apply H. intros row Hrow. apply in_map. exact Hrow.
Qed.

(** The ids that each row operation leaves in the store: a new row takes
    [Math.max(ids) + 1], the copies of a batch take the next numbers in
    turn, and a deletion only removes ids. *)
Lemma row_ops_ids (d : list SpreadsheetRow) :
  (forall today cc, ids (addRow today cc d) = ids d ++ [plus (Math_max (ids d)) 1]) /\
  (forall today cc position,
      exists l1 l2, ids d = l1 ++ l2 /\
                    ids (addRowAt today cc position d)
                    = l1 ++ plus (Math_max (ids d)) 1 :: l2) /\
  (forall rowId, present rowId d ->
                 ids (duplicateRow rowId d) = ids d ++ [plus (Math_max (ids d)) 1]) /\
  (forall rowIds,
      ids (batchDuplicateRows rowIds d)
      = ids d ++ map (fun i => plus (plus (Math_max (ids d)) (Z.of_nat i)) 1)
                     (seq 0 (length (List.filter
                                       (fun row => includes_num rowIds (id row)) d)))) /\
  (forall rowId, ids (deleteRow rowId d)
                 = List.filter (fun i => negb (strict_eq i rowId)) (ids d)) /\
  (forall rowIds, ids (batchDeleteRows rowIds d)
                  = List.filter (fun i => negb (includes_num rowIds i)) (ids d)).
Proof.
  assert (Hfilter : forall (p : num -> bool) (l : list SpreadsheetRow),
             ids (List.filter (fun row => p (id row)) l) = List.filter p (ids l)).
  { intros p l. induction l as [|r l IH]; simpl; [reflexivity|].
    destruct (p (id r)); simpl; rewrite IH; reflexivity. }
  repeat apply conj.
  - intros today cc. unfold addRow. rewrite ids_app. reflexivity.
  - intros today cc position. unfold addRowAt.
    destruct position as [p|]; [destruct (p <? length d)%nat|].
    + exists (ids (firstn p d)), (ids (skipn p d)). split.
      * rewrite <- ids_app, firstn_skipn. reflexivity.
      * rewrite ids_app. reflexivity.
    + exists (ids d), []. rewrite app_nil_r, ids_app. split; reflexivity.
    + exists (ids d), []. rewrite app_nil_r, ids_app. split; reflexivity.
  - intros rowId Hp. destruct (find_row_present _ _ Hp) as [row Hf].
    unfold duplicateRow. rewrite Hf, ids_app. reflexivity.
  - intros rowIds. unfold batchDuplicateRows. rewrite ids_app, ids_imap_with_id. reflexivity.
  - intros rowId. unfold deleteRow.
    apply (Hfilter (fun i => negb (strict_eq i rowId))).
  - intros rowIds. unfold batchDeleteRows.
    apply (Hfilter (fun i => negb (includes_num rowIds i))).
Qed.

(** C1.  Whatever the store holds, once every row is deleted the next two
    rows added both receive the id [-Infinity]: with no row left
    [Math.max()] is [-Infinity], and [-Infinity + 1] is [-Infinity].  The
    ids of the store are then no longer pairwise distinct.  The same
    happens from the store [[{id: 1}]] after [deleteRow(1)]. *)
Theorem C1_ids_collide_after_emptying :
  (forall (d : list SpreadsheetRow) (today : string),
      let ops := [OpBatchDelete (ids d); OpAddRow today []; OpAddRow today []] in
      ids (run ops d) = [NegInf; NegInf] /\ ~ List.NoDup (ids (run ops d))) /\
  (let ops := [OpDeleteRow (Int 1);
               OpAddRow "02/01/2025" []; OpAddRow "02/01/2025" []] in
   distinct_ids single_store /\
   ids (run ops single_store) = [NegInf; NegInf] /\
   ~ List.NoDup (ids (run ops single_store))).
Proof.
  assert (Hdup : ~ List.NoDup [NegInf; NegInf]).
  { intros Hnd. inversion Hnd as [|? ? Hnin _]; subst. apply Hnin. left. reflexivity. }
  split.
  - intros d today ops.
    assert (He : ids (run ops d) = [NegInf; NegInf]).
    { unfold ops, run. simpl. rewrite batchDeleteRows_all. reflexivity. }
    rewrite He. split; [reflexivity | exact Hdup].
  - cbv zeta.
    assert (He : ids (run [OpDeleteRow (Int 1); OpAddRow "02/01/2025" [];
                           OpAddRow "02/01/2025" []] single_store) = [NegInf; NegInf])
      by reflexivity.
    rewrite He. split; [|split; [reflexivity | exact Hdup]].
    split; repeat constructor; simpl; tauto.
Qed.

(** ** duplicateRow (C8, C10) *)

(** C8, as stated, fails: for the absent id 7 the specification's operation
    fails with [RowNotFound], while the component's [duplicateRow]
    completes and leaves the store as it was. *)
Lemma C8_absent_row_is_silent :
  find_row (Int 7) sample_store = None /\
  duplicateRow_spec (Int 7) sample_store = inl RowNotFound /\
  duplicateRow (Int 7) sample_store = sample_store /\
  duplicateRow_spec (Int 7) sample_store <> inr (duplicateRow (Int 7) sample_store).
Proof.
  assert (Hspec : duplicateRow_spec (Int 7) sample_store = inl RowNotFound)
    by reflexivity.
  split; [reflexivity|]. split; [exact Hspec|]. split; [reflexivity|].
  rewrite Hspec. discriminate.
Qed.

(** C8, amended.  For an absent row id [duplicateRow] changes nothing and
    reports nothing; for a present one the store gains one row that carries
    every field value of the first row with that id, under the id
    [Math.max(ids) + 1]. *)
Theorem C8_duplicateRow_result (rowId : num) (data : list SpreadsheetRow) :
  (~ present rowId data -> duplicateRow rowId data = data) /\
  (present rowId data ->
   exists original copy,
     find_row rowId data = Some original /\
     duplicateRow rowId data = data ++ [copy] /\
     cells copy = cells original /\
     id copy = plus (Math_max (ids data)) 1).
Proof.
  split.
  - intros Hn. apply find_row_none in Hn. unfold duplicateRow. rewrite Hn. reflexivity.
  - intros Hp. destruct (find_row_present _ _ Hp) as [row Hf].
    exists row, (with_id (nextId data) row).
    unfold duplicateRow. rewrite Hf. repeat split.
Qed.

Lemma C8_duplicateRow_result_witness :
  duplicateRow (Int 7) sample_store = sample_store /\
  exists original copy,
    find_row (Int 2) sample_store = Some original /\
    duplicateRow (Int 2) sample_store = sample_store ++ [copy] /\
    cells copy = cells original /\
    id copy = plus (Math_max (ids sample_store)) 1.
Proof.
  split.
  - apply (proj1 (C8_duplicateRow_result (Int 7) sample_store)).
    apply find_row_none. reflexivity.
  - apply (proj2 (C8_duplicateRow_result (Int 2) sample_store)).
    eexists. split; [right; left; reflexivity | reflexivity].
Defined.

(** C10.  For a present row id [duplicateRow] appends exactly one row at the
    end of the store, a copy of the row found, and every row keeps its
    position, id and fields; for an absent id the store is unchanged. *)
Theorem C10_duplicateRow_frame (rowId : num) (data : list SpreadsheetRow) :
  (present rowId data ->
   exists original,
     find_row rowId data = Some original /\
     duplicateRow rowId data = data ++ [with_id (nextId data) original] /\
     length (duplicateRow rowId data) = S (length data) /\
     firstn (length data) (duplicateRow rowId data) = data /\
     forall i row, nth_error data i = Some row ->
                   nth_error (duplicateRow rowId data) i = Some row) /\
  (~ present rowId data -> duplicateRow rowId data = data).
Proof.
  split.
  - intros Hp. destruct (find_row_present _ _ Hp) as [row Hf].
    exists row. unfold duplicateRow. rewrite Hf.
    split; [reflexivity|]. split; [reflexivity|]. split; [|split].
    + rewrite length_app. simpl. lia.
    + rewrite firstn_app, Nat.sub_diag, firstn_all. simpl. apply app_nil_r.
    + intros i r Hi. rewrite nth_error_app1; [exact Hi|].
      apply nth_error_Some. congruence.
  - intros Hn. apply find_row_none in Hn. unfold duplicateRow. rewrite Hn. reflexivity.
Qed.

Lemma C10_duplicateRow_frame_witness :
  (exists original,
     find_row (Int 1) sample_store = Some original /\
     duplicateRow (Int 1) sample_store
       = sample_store ++ [with_id (nextId sample_store) original] /\
     length (duplicateRow (Int 1) sample_store) = S (length sample_store) /\
     firstn (length sample_store) (duplicateRow (Int 1) sample_store) = sample_store /\
     forall i row, nth_error sample_store i = Some row ->
                   nth_error (duplicateRow (Int 1) sample_store) i = Some row) /\
  duplicateRow (Int 7) sample_store = sample_store.
Proof.
  split.
  - apply (proj1 (C10_duplicateRow_frame (Int 1) sample_store)).
    eexists. split; [left; reflexivity | reflexivity].
  - apply (proj2 (C10_duplicateRow_frame (Int 7) sample_store)).
    apply find_row_none. reflexivity.
Defined.

(** ** Deleting the selected or edited row (C3) *)

Lemma present_2_sample : present (Int 2) sample_store.
Proof. eexists. split; [right; left; reflexivity | reflexivity]. Qed.

Lemma absent_2_after_delete : ~ present (Int 2) (deleteRow (Int 2) sample_store).
Proof. apply find_row_none. reflexivity. Qed.


(** Splits on the parts of the state that a delete handler inspects. *)
Ltac handler_cases st :=
  let He := fresh "He" in
  let Hs := fresh "Hs" in
  destruct (editingCell st) eqn:He; destruct (selectedCell st) eqn:Hs;
  simpl; try congruence; try reflexivity.



(** ** Column indices address the visible fields (C9) *)

Section VisibleIndex.

Context {A : Type} (p : A -> bool).

Lemma filter_position_le (l : list A) (k i : nat) (f : A) :
  List.NoDup l ->
  nth_error (List.filter p l) k = Some f -> nth_error l i = Some f -> (k <= i)%nat.
Proof.
  revert k i. induction l as [|a l IH]; intros k i Hnd Hk Hi.
  - destruct i; discriminate Hi.
  - inversion Hnd as [|? ? Hnin Hnd']; subst.
    destruct i as [|i]; simpl in Hi.
    + injection Hi as ->. simpl in Hk. destruct (p f).
      * destruct k as [|k]; [lia|]. simpl in Hk. exfalso. apply Hnin.
        apply nth_error_In in Hk. apply filter_In in Hk. tauto.
      * exfalso. apply Hnin. apply nth_error_In in Hk. apply filter_In in Hk. tauto.
    + simpl in Hk. destruct (p a).
      * destruct k as [|k]; [lia|]. simpl in Hk.
        specialize (IH k i Hnd' Hk Hi). lia.
      * specialize (IH k i Hnd' Hk Hi). lia.
Qed.

(** When the [i]-th entry of the filtered list is also the [i]-th entry of
    the list, nothing up to position [i] was filtered out. *)
Lemma same_index_nothing_hidden (l : list A) (i : nat) (f : A) :
  List.NoDup l ->
  nth_error (List.filter p l) i = Some f -> nth_error l i = Some f ->
  forall j h, (j <= i)%nat -> nth_error l j = Some h -> p h = true.
Proof.
  revert i. induction l as [|a l IH]; intros i Hnd Hv Hi j h Hj Hh.
  - destruct j; discriminate Hh.
  - inversion Hnd as [|? ? Hnin Hnd']; subst.
    simpl in Hv. destruct (p a) eqn:Hpa.
    + destruct i as [|i]; simpl in *.
      * assert (j = 0%nat) by lia. subst j. simpl in Hh. congruence.
      * destruct j as [|j]; simpl in Hh; [congruence|].
        apply (IH i Hnd' Hv Hi j h); [lia | exact Hh].
    + exfalso. destruct i as [|i]; simpl in Hi.
      * injection Hi as ->. apply Hnin.
        apply nth_error_In in Hv. apply filter_In in Hv. tauto.
      * pose proof (filter_position_le l (S i) i f Hnd' Hv Hi). lia.
Qed.

End VisibleIndex.

Lemma key_at_some (vf : list string) (i : nat) (f : string) :
  nth_error vf i = Some f -> key_at vf i = f.
Proof. intros H. unfold key_at. rewrite H. reflexivity. Qed.

(** An index past the last visible field yields [undefined], and the
    member written is the one named ["undefined"]. *)
Lemma key_at_out_of_range (vf : list string) (i : nat) :
  (length vf <= i)%nat -> key_at vf i = "undefined".
Proof.
  intros H. unfold key_at. apply nth_error_None in H. rewrite H. reflexivity.
Qed.

Lemma includes_str_In (xs : list string) (x : string) :
  includes_str xs x = true <-> In x xs.
Proof.
  unfold includes_str. rewrite existsb_exists. split.
  - intros (y & Hy & He). apply String.eqb_eq in He. subst. exact Hy.
  - intros Hin. exists x. split; [exact Hin | apply String.eqb_refl].
Qed.

Lemma visibleFields_nothing_hidden (cc : list string) :
  visibleFields cc [] = allFields cc.
Proof.
  unfold visibleFields. induction (allFields cc) as [|f l IH]; simpl; [reflexivity|].
  f_equal. exact IH.
Qed.


Lemma fields_NoDup : List.NoDup (allFields []).
Proof.
  repeat constructor; simpl; intuition discriminate.
Qed.


(** ** Facts about strings *)

Section StringFacts.

Local Open Scope string_scope.

Lemma startsWith_spec (s p : string) :
  startsWith s p = true <-> exists c, s = p ++ c.
Proof.
  revert s. induction p as [|a p IH]; intros s.
  - split; [intros _; exists s; reflexivity | intros _; destruct s; reflexivity].
  - destruct s as [|b s]; simpl.
    + split; [discriminate | intros (c & Hc); discriminate Hc].
    + rewrite andb_true_iff, IH, Ascii.eqb_eq. split.
      * intros (-> & c & ->). exists c. reflexivity.
      * intros (c & Hc). injection Hc as -> ->. split; [reflexivity | eauto].
Qed.

Lemma includes_spec (s t : string) :
  includes s t = true <-> exists a c, s = a ++ t ++ c.
Proof.
  induction s as [|b s IH].
  - change (includes EmptyString t) with (startsWith EmptyString t || false)%bool.
    rewrite orb_false_r, startsWith_spec. split.
    + intros (c & Hc). exists EmptyString, c. exact Hc.
    + intros (a & c & Hc). destruct a; [exists c; exact Hc | discriminate Hc].
  - change (includes (String b s) t)
      with (startsWith (String b s) t || includes s t)%bool.
    rewrite orb_true_iff, startsWith_spec, IH. split.
    + intros [(c & Hc) | (a & c & Hc)].
      * exists EmptyString, c. exact Hc.
      * exists (String b a), c. simpl. rewrite Hc. reflexivity.
    + intros (a & c & Hc). destruct a as [|x a].
      * left. exists c. exact Hc.
      * right. simpl in Hc. injection Hc as -> ->. eauto.
Qed.

Lemma toLowerCase_app (a b : string) :
  toLowerCase (a ++ b) = toLowerCase a ++ toLowerCase b.
Proof. induction a as [|x a IH]; simpl; [reflexivity | rewrite IH; reflexivity]. Qed.

Lemma toLowerCase_app_inv (v x y : string) :
  toLowerCase v = x ++ y ->
  exists v1 v2, v = v1 ++ v2 /\ toLowerCase v1 = x /\ toLowerCase v2 = y.
Proof.
  revert v. induction x as [|c x IH]; intros v H.
  - exists EmptyString, v. repeat split. exact H.
  - destruct v as [|d v]; [discriminate H|]. simpl in H. injection H as Hc Hv.
    destruct (IH v Hv) as (v1 & v2 & -> & H1 & H2).
    exists (String d v1), v2. simpl. rewrite H1, Hc. repeat split. exact H2.
Qed.

(** Containment after lowering both texts is containment up to case. *)
Lemma includes_lower_spec (v t : string) :
  includes (toLowerCase v) (toLowerCase t) = true <-> contains_ci v t.
Proof.
  rewrite includes_spec. unfold contains_ci. split.
  - intros (a' & c' & H).
    destruct (toLowerCase_app_inv _ _ _ H) as (a & r & -> & Ha & Hr).
    destruct (toLowerCase_app_inv _ _ _ Hr) as (b & c & -> & Hb & Hc).
    exists a, b, c. split; [reflexivity | exact Hb].
  - intros (a & b & c & -> & Hb).
    exists (toLowerCase a), (toLowerCase c).
    rewrite !toLowerCase_app, Hb. reflexivity.
Qed.

Lemma nonempty_false (s : string) : nonempty s = false <-> s = EmptyString.
Proof. destruct s; simpl; split; congruence. Qed.

Lemma trimStart_head (s : string) :
  match trimStart s with
  | EmptyString => True
  | String c _ => is_space c = false
  end.
Proof.
  induction s as [|c s IH]; simpl; [exact I|].
  destruct (is_space c) eqn:Hc; [exact IH | exact Hc].
Qed.

Lemma trimStart_empty (s : string) :
  trimStart s = EmptyString <-> only_spaces s = true.
Proof.
  induction s as [|c s IH]; simpl; [tauto|].
  destruct (is_space c); simpl; [exact IH | split; discriminate].
Qed.

Lemma trimEnd_empty (s : string) :
  trimEnd s = EmptyString <-> only_spaces s = true.
Proof.
  induction s as [|c s IH]; simpl; [tauto|].
  destruct (trimEnd s) eqn:Ht.
  - destruct (is_space c); simpl.
    + rewrite <- IH. tauto.
    + split; discriminate.
  - rewrite andb_true_iff, <- IH. split; [discriminate | intros [_ H]; discriminate H].
Qed.

(** [!searchTerm.trim()] holds exactly for the empty and the blank texts. *)
Lemma trim_empty (s : string) :
  nonempty (trim s) = false <-> only_spaces s = true.
Proof.
  rewrite nonempty_false. unfold trim. rewrite trimEnd_empty. split.
  - intros H. apply trimStart_empty.
    pose proof (trimStart_head s) as Hh.
    destruct (trimStart s) as [|c r]; [reflexivity|].
    simpl in H. rewrite Hh in H. discriminate H.
  - intros H. apply trimStart_empty in H. rewrite H. reflexivity.
Qed.

End StringFacts.

(** ** Search (C7) *)

Lemma count_fields (m : string -> bool) (vf : list string) (c0 : nat) :
  fold_left (fun count field => if m field then S count else count) vf c0
  = (c0 + length (List.filter m vf))%nat.
Proof.
  revert c0. induction vf as [|f vf IH]; intros c0; simpl; [lia|].
  rewrite IH. destruct (m f); simpl; lia.
Qed.

Lemma count_cells (m : SpreadsheetRow -> string -> bool)
    (view : list SpreadsheetRow) (vf : list string) (c0 : nat) :
  fold_left
    (fun count row =>
       fold_left (fun count field => if m row field then S count else count) vf count)
    view c0
  = (c0 + length (List.filter (fun rf => m (fst rf) (snd rf)) (cells_of_view view vf)))%nat.
Proof.
  revert c0. induction view as [|r view IH]; intros c0; simpl; [lia|].
  rewrite IH, count_fields. unfold cells_of_view. simpl.
  rewrite List.filter_app, length_app.
  assert (H : length (List.filter (fun rf => m (fst rf) (snd rf))
                                  (map (fun y => (r, y)) vf))
              = length (List.filter (m r) vf)).
  { clear. induction vf as [|f vf IH]; simpl; [reflexivity|].
    destruct (m r f); simpl; rewrite IH; reflexivity. }
  lia.
Qed.



(** ** The insertion sort keeps the promise of the language *)

Section InsertionSort.

Context {A : Type} (cmp : A -> A -> option Z).

Let step (acc : option (list A)) (x : A) : option (list A) :=
  match acc with
  | Some sorted => insert_sorted cmp x sorted
  | None => None
  end.

Lemma fold_step_None (l : list A) : fold_left step l None = None.
Proof. induction l as [|a l IH]; simpl; [reflexivity | exact IH]. Qed.

(** Where [insert_sorted] puts the item: behind a prefix of items that are
    not greater, before an item that is greater. *)
Lemma insert_sorted_decomp (x : A) (l r : list A) :
  insert_sorted cmp x l = Some r ->
  exists l1 l2,
    l = l1 ++ l2 /\ r = l1 ++ x :: l2 /\
    (forall z, In z l1 -> exists v, cmp x z = Some v /\ 0 <= v) /\
    match l2 with
    | [] => True
    | z :: _ => exists v, cmp x z = Some v /\ v < 0
    end.
Proof.
  revert r. induction l as [|y l IH]; intros r H; simpl in H.
  - injection H as <-. exists [], []. repeat split. intros z [].
  - destruct (cmp x y) as [c|] eqn:Hc; [|discriminate H].
    destruct (c <? 0) eqn:Hlt.
    + injection H as <-. exists [], (y :: l). repeat split.
      * intros z [].
      * exists c. split; [exact Hc | lia].
    + destruct (insert_sorted cmp x l) as [r'|] eqn:Hr; [|discriminate H].
      simpl in H. injection H as <-.
      destruct (IH r' eq_refl) as (l1 & l2 & -> & -> & H1 & H2).
      exists (y :: l1), l2. repeat split; [|exact H2].
      intros z [<-|Hz]; [exists c; split; [exact Hc | lia] | exact (H1 z Hz)].
Qed.

Lemma insert_sorted_defined (x : A) (l : list A) :
  (forall z, In z l -> exists v, cmp x z = Some v) ->
  exists r, insert_sorted cmp x l = Some r.
Proof.
  induction l as [|y l IH]; intros Hd; simpl; [eauto|].
  destruct (Hd y (or_introl eq_refl)) as [c ->].
  destruct (c <? 0); [eauto|].
  destruct IH as [r ->]; [intros z Hz; apply Hd; right; exact Hz|].
  simpl. eauto.
Qed.

Lemma insert_sorted_perm (x : A) (l r : list A) :
  insert_sorted cmp x l = Some r -> Permutation (x :: l) r.
Proof.
  intros H. destruct (insert_sorted_decomp _ _ _ H) as (l1 & l2 & -> & -> & _).
  apply Permutation_middle.
Qed.

Lemma fold_step_perm (l s r : list A) :
  fold_left step l (Some s) = Some r -> Permutation (s ++ l) r.
Proof.
  revert s. induction l as [|a l IH]; intros s H; simpl in H.
  - injection H as <-. rewrite app_nil_r. reflexivity.
  - destruct (insert_sorted cmp a s) as [s'|] eqn:Hs.
    + apply IH in H. rewrite <- H.
      apply insert_sorted_perm in Hs. rewrite <- Hs.
      rewrite <- Permutation_middle. reflexivity.
    + rewrite fold_step_None in H. discriminate H.
Qed.

Lemma fold_step_defined (l s : list A) :
  (forall a b, In a (s ++ l) -> In b (s ++ l) -> exists v, cmp a b = Some v) ->
  exists r, fold_left step l (Some s) = Some r.
Proof.
  revert s. induction l as [|a l IH]; intros s Hd; simpl; [eauto|].
  destruct (insert_sorted_defined a s) as [s' Hs].
  { intros z Hz. apply Hd; apply in_or_app; [right; left; reflexivity | left; exact Hz]. }
  rewrite Hs. apply IH. intros x y Hx Hy.
  pose proof (insert_sorted_perm _ _ _ Hs) as Hp.
  assert (Hin : forall w, In w (s' ++ l) -> In w (s ++ a :: l)).
  { intros w Hw. apply in_app_or in Hw as [Hw|Hw].
    - apply (Permutation_in _ (Permutation_sym Hp)) in Hw as [<-|Hw];
        apply in_or_app; [right; left; reflexivity | left; exact Hw].
    - apply in_or_app. right. right. exact Hw. }
  apply Hd; apply Hin; assumption.
Qed.

Section Consistent.

Variable l0 : list A.
Hypothesis Hcons : consistent_on cmp l0.

Lemma cmp_le_of_nonneg (x z : A) (v : Z) :
  In x l0 -> In z l0 -> cmp x z = Some v -> 0 <= v -> cmp_le cmp z x.
Proof.
  intros Hx Hz Hv Hpos. destruct Hcons as (Hdef & _ & Hanti & _).
  destruct (Hdef z x Hz Hx) as [w Hw].
  exists w. split; [exact Hw|].
  pose proof (Hanti x z v w Hx Hz Hv Hw). lia.
Qed.

Lemma cmp_le_refl (x : A) : In x l0 -> cmp_le cmp x x.
Proof.
  intros Hx. destruct Hcons as (_ & Hrefl & _). exists 0. split; [apply Hrefl; exact Hx | lia].
Qed.

Lemma cmp_gt_not_le (x z : A) (v : Z) :
  In x l0 -> In z l0 -> cmp x z = Some v -> v < 0 -> ~ cmp_le cmp z x.
Proof.
  intros Hx Hz Hv Hneg (w & Hw & Hle). destruct Hcons as (_ & _ & Hanti & _).
  pose proof (Hanti x z v w Hx Hz Hv Hw). lia.
Qed.

Lemma StronglySorted_insert (R : A -> A -> Prop) (x : A) (l1 l2 : list A) :
  StronglySorted R (l1 ++ l2) ->
  (forall z, In z l1 -> R z x) -> (forall z, In z l2 -> R x z) ->
  StronglySorted R (l1 ++ x :: l2).
Proof.
  induction l1 as [|a l1 IH]; intros Hs H1 H2; simpl in *.
  - constructor; [exact Hs | apply List.Forall_forall; exact H2].
  - inversion Hs as [|? ? Hs' Hall]; subst. constructor.
    + apply IH; [exact Hs' | intros z Hz; apply H1; right; exact Hz | exact H2].
    + apply List.Forall_forall. intros z Hz.
      apply in_app_or in Hz as [Hz|[<-|Hz]].
      * rewrite List.Forall_forall in Hall. apply Hall, in_or_app. left. exact Hz.
      * apply H1. left. reflexivity.
      * rewrite List.Forall_forall in Hall. apply Hall, in_or_app. right. exact Hz.
Qed.

Lemma StronglySorted_tail_ge (R : A -> A -> Prop) (l1 l2 : list A) (z0 z : A) :
  StronglySorted R (l1 ++ z0 :: l2) -> In z l2 -> R z0 z.
Proof.
  induction l1 as [|a l1 IH]; intros Hs Hz; simpl in Hs;
    inversion Hs as [|? ? Hs' Hall]; subst.
  - rewrite List.Forall_forall in Hall. apply Hall. exact Hz.
  - apply IH; assumption.
Qed.

Lemma insert_sorted_sorted (x : A) (s r : list A) :
  In x l0 -> (forall z, In z s -> In z l0) ->
  StronglySorted (cmp_le cmp) s ->
  insert_sorted cmp x s = Some r ->
  StronglySorted (cmp_le cmp) r.
Proof.
  intros Hx Hs Hsorted H.
  destruct (insert_sorted_decomp _ _ _ H) as (l1 & l2 & -> & -> & H1 & H2).
  apply StronglySorted_insert; [exact Hsorted | |].
  - intros z Hz. destruct (H1 z Hz) as (v & Hv & Hpos).
    apply (cmp_le_of_nonneg x z v); try assumption.
    apply Hs, in_or_app. left. exact Hz.
  - intros z Hz. destruct l2 as [|z0 l2]; [destruct Hz|].
    destruct H2 as (v & Hv & Hneg).
    assert (Hxz0 : cmp_le cmp x z0) by (exists v; split; [exact Hv | lia]).
    destruct Hz as [<-|Hz]; [exact Hxz0|].
    destruct Hcons as (_ & _ & _ & Htrans).
    apply (Htrans x z0 z); try assumption.
    + apply Hs, in_or_app. right. left. reflexivity.
    + apply Hs, in_or_app. right. right. exact Hz.
    + eapply StronglySorted_tail_ge; eassumption.
Qed.

(** An item of the sorted prefix that ties with the inserted item stays
    before it. *)
Lemma insert_sorted_behind_ties (x y : A) (s r : list A) :
  In y l0 -> (forall z, In z s -> In z l0) ->
  StronglySorted (cmp_le cmp) s ->
  insert_sorted cmp y s = Some r ->
  In x s -> cmp x y = Some 0 ->
  occurs_before x y r.
Proof.
  intros Hy Hs Hsorted H Hx Hxy.
  destruct (insert_sorted_decomp _ _ _ H) as (l1 & l2 & -> & -> & H1 & H2).
  assert (Hx1 : In x l1).
  { apply in_app_or in Hx as [Hx|Hx]; [exact Hx|]. exfalso.
    destruct l2 as [|z0 l2]; [destruct Hx|].
    destruct H2 as (v & Hv & Hneg).
    assert (Hz0 : In z0 l0) by (apply Hs, in_or_app; right; left; reflexivity).
    assert (Hxl : In x l0) by (apply Hs, in_or_app; right; exact Hx).
    apply (cmp_gt_not_le y z0 v Hy Hz0 Hv Hneg).
    destruct Hcons as (_ & _ & _ & Htrans).
    apply (Htrans z0 x y); try assumption.
    - destruct Hx as [<-|Hx]; [apply cmp_le_refl; exact Hz0|].
      eapply StronglySorted_tail_ge; eassumption.
    - exists 0. split; [exact Hxy | lia]. }
  unfold occurs_before.
  change [x; y] with ([x] ++ [y]). apply sublist_app.
  - apply singleton_sublist_l, list_elem_of_In. exact Hx1.
  - apply sublist_skip, sublist_nil_l.
Qed.

Lemma insert_sorted_sublist (x : A) (s r : list A) :
  insert_sorted cmp x s = Some r -> sublist s r.
Proof.
  intros H. destruct (insert_sorted_decomp _ _ _ H) as (l1 & l2 & -> & -> & _).
  apply sublist_app; [reflexivity | apply sublist_cons; reflexivity].
Qed.

Lemma fold_step_invariant (l s r : list A) :
  (forall z, In z s -> In z l0) -> (forall z, In z l -> In z l0) ->
  StronglySorted (cmp_le cmp) s ->
  fold_left step l (Some s) = Some r ->
  StronglySorted (cmp_le cmp) r /\
  sublist s r /\
  (forall x y, In x s -> In y l -> cmp x y = Some 0 -> occurs_before x y r) /\
  (forall x y, cmp x y = Some 0 -> occurs_before x y l -> occurs_before x y r).
Proof.
  revert s. induction l as [|a l IH]; intros s Hs Hl Hsorted H; simpl in H.
  - injection H as <-. repeat split; [exact Hsorted | reflexivity | intros x y _ [] |].
    intros x y _ Hb. unfold occurs_before in Hb. apply sublist_nil_r in Hb. discriminate Hb.
  - destruct (insert_sorted cmp a s) as [s'|] eqn:Hins;
      [|rewrite fold_step_None in H; discriminate H].
    assert (Ha : In a l0) by (apply Hl; left; reflexivity).
    assert (Hs' : forall z, In z s' -> In z l0).
    { intros z Hz. apply (Permutation_in _ (Permutation_sym (insert_sorted_perm _ _ _ Hins)))
        in Hz as [<-|Hz]; [exact Ha | apply Hs; exact Hz]. }
    assert (Hsub : sublist s s') by (eapply insert_sorted_sublist; exact Hins).
    destruct (IH s' Hs' (fun z Hz => Hl z (or_intror Hz))
                 (insert_sorted_sorted a s s' Ha Hs Hsorted Hins) H)
      as (Hr1 & Hr2 & Hr3 & Hr4).
    assert (Hin_s' : forall x, In x s -> In x s').
    { intros x Hx. apply list_elem_of_In. eapply elem_of_sublist; [|exact Hsub].
      apply list_elem_of_In. exact Hx. }
    assert (Ha' : In a s').
    { apply (Permutation_in _ (insert_sorted_perm _ _ _ Hins)). left. reflexivity. }
    repeat split.
    + exact Hr1.
    + etransitivity; eassumption.
    + intros x y Hx [<-|Hy] Hxy.
      * unfold occurs_before. etransitivity; [|exact Hr2].
        exact (insert_sorted_behind_ties x a s s' Ha Hs Hsorted Hins Hx Hxy).
      * apply Hr3; [apply Hin_s'; exact Hx | exact Hy | exact Hxy].
    + intros x y Hxy Hb. unfold occurs_before in Hb.
      apply sublist_cons_r in Hb as [Hb|(l' & Heq & Hb)].
      * apply Hr4; assumption.
      * injection Heq as <- <-.
        apply Hr3; [exact Ha' | | exact Hxy].
        apply list_elem_of_In, singleton_sublist_l. exact Hb.
Qed.

End Consistent.

End InsertionSort.

(** [insertion_sort] is a sort as the language describes it. *)
Lemma insertion_sort_conforming (A : Type) : conforming_sort (@insertion_sort A).
Proof.
  constructor.
  - intros cmp l Hd. unfold insertion_sort. apply fold_step_defined. exact Hd.
  - intros cmp l l' H. unfold insertion_sort in H.
    apply fold_step_perm in H. exact H.
  - intros cmp l l' Hc H. unfold insertion_sort in H.
    apply (fold_step_invariant cmp l Hc l [] l'); try assumption.
    + intros z [].
    + auto.
    + constructor.
  - intros cmp l l' Hc H. unfold insertion_sort in H.
    apply (fold_step_invariant cmp l Hc l [] l'); try assumption.
    + intros z [].
    + auto.
    + constructor.
Qed.

(** ** The comparators of the sort stage *)

Section Orders.

Lemma ascii_compare_N (a b : ascii) :
  Ascii.compare a b = N.compare (N_of_ascii a) (N_of_ascii b).
Proof. reflexivity. Qed.

Lemma string_compare_refl (s : string) : String.compare s s = Eq.
Proof.
  induction s as [|c s IH]; simpl; [reflexivity|].
  rewrite ascii_compare_N, N.compare_refl. exact IH.
Qed.

Lemma string_compare_le_trans (a b c : string) :
  String.compare a b <> Gt -> String.compare b c <> Gt -> String.compare a c <> Gt.
Proof.
  revert b c. induction a as [|x a IH]; intros [|y b] [|z c]; simpl;
    try congruence.
  rewrite !ascii_compare_N.
  destruct (N.compare_spec (N_of_ascii x) (N_of_ascii y)) as [Hxy|Hxy|Hxy];
    destruct (N.compare_spec (N_of_ascii y) (N_of_ascii z)) as [Hyz|Hyz|Hyz];
    destruct (N.compare_spec (N_of_ascii x) (N_of_ascii z)) as [Hxz|Hxz|Hxz];
    try congruence; try lia.
  apply IH.
Qed.

Lemma string_ltb_false (a b : string) :
  String.ltb a b = false <-> String.compare b a <> Gt.
Proof.
  unfold String.ltb. rewrite (String.compare_antisym a b).
  destruct (String.compare b a); simpl; split; congruence.
Qed.

Lemma string_ltb_strict_weak : strict_weak String.ltb (fun _ => True).
Proof.
  constructor.
  - intros a _. unfold String.ltb. rewrite string_compare_refl. reflexivity.
  - intros a b _ _ H. unfold String.ltb in *. rewrite (String.compare_antisym b a).
    destruct (String.compare a b); try discriminate. reflexivity.
  - intros a b c _ _ _ Hab Hbc. rewrite string_ltb_false in *.
    eapply string_compare_le_trans; eassumption.
Qed.

Lemma Z_ltb_strict_weak : strict_weak Z.ltb (fun _ => True).
Proof.
  constructor; intros; rewrite ?Z.ltb_lt, ?Z.ltb_ge in *; lia.
Qed.

Lemma num_lt_strict_weak : strict_weak num_lt (fun a => a <> NaN).
Proof.
  constructor.
  - intros [| |x] H; simpl; [congruence | reflexivity | apply Z.ltb_irrefl].
  - intros [| |x] [| |y] Ha Hb; simpl; try congruence.
    rewrite Z.ltb_lt, Z.ltb_ge. lia.
  - intros [| |x] [| |y] [| |z] Ha Hb Hc; simpl; try congruence.
    rewrite !Z.ltb_ge. lia.
Qed.

Lemma Qlt_bool_true (x y : Q) :
  match Qcompare x y with Lt => true | _ => false end = true <-> (x < y)%Q.
Proof.
  rewrite Qlt_alt. destruct (Qcompare x y); split; congruence.
Qed.

Lemma Qlt_bool_false (x y : Q) :
  match Qcompare x y with Lt => true | _ => false end = false <-> (y <= x)%Q.
Proof.
  rewrite Qge_alt. destruct (Qcompare x y); split; congruence.
Qed.

Lemma flt_strict_weak : strict_weak flt (fun a => a <> FNaN).
Proof.
  constructor.
  - intros [| | |x] H; simpl; try congruence; try reflexivity.
    apply Qlt_bool_false, Qle_refl.
  - intros [| | |x] [| | |y] Ha Hb; simpl; try congruence.
    rewrite Qlt_bool_true, Qlt_bool_false. apply Qlt_le_weak.
  - intros [| | |x] [| | |y] [| | |z] Ha Hb Hc; simpl; try congruence.
    rewrite !Qlt_bool_false. intros H1 H2. eapply Qle_trans; eassumption.
Qed.

Lemma or_zero_not_NaN (x : float) : or_zero x <> FNaN.
Proof.
  destruct x as [| | |q]; simpl; try discriminate.
  destruct (Qeq_bool q 0); discriminate.
Qed.

End Orders.

Section Keyed.

Context {A K : Type} (key : A -> K) (lt : K -> K -> bool) (S : K -> Prop).
Hypothesis Hswo : strict_weak lt S.

(** A comparator that gives its verdict from an order on keys is
    consistent. *)
Lemma keyed_consistent (so : SortOrder) (cmp : A -> A -> option Z) (l : list A) :
  (forall a, In a l -> S (key a)) ->
  (forall a b, In a l -> In b l ->
               cmp a b = Some (verdict so (lt (key a) (key b)) (lt (key b) (key a)))) ->
  consistent_on cmp l.
Proof.
  intros HS Hcmp. destruct Hswo as [Hirr Hasym Hneg].
  assert (Hle : forall a b, In a l -> In b l ->
            (cmp_le cmp a b <->
             match so with
             | asc => lt (key b) (key a) = false
             | desc => lt (key a) (key b) = false
             end)).
  { intros a b Ha Hb. unfold cmp_le. rewrite (Hcmp a b Ha Hb).
    pose proof (Hasym (key a) (key b) (HS a Ha) (HS b Hb)) as H1.
    pose proof (Hasym (key b) (key a) (HS b Hb) (HS a Ha)) as H2.
    unfold verdict.
    destruct (lt (key a) (key b)), (lt (key b) (key a)), so;
      try (specialize (H1 eq_refl)); try (specialize (H2 eq_refl));
      split; try congruence;
      try (intros _; eexists; split; [reflexivity | lia]);
      intros (v & Hv & Hle); injection Hv as <-; lia. }
  repeat split.
  - intros a b Ha Hb. rewrite (Hcmp a b Ha Hb). eauto.
  - intros a Ha. rewrite (Hcmp a a Ha Ha), (Hirr _ (HS a Ha)). reflexivity.
  - intros a b v w Ha Hb Hv Hw.
    rewrite (Hcmp a b Ha Hb) in Hv. rewrite (Hcmp b a Hb Ha) in Hw.
    injection Hv as <-. injection Hw as <-.
    pose proof (Hasym (key a) (key b) (HS a Ha) (HS b Hb)) as H1.
    unfold verdict.
    destruct (lt (key a) (key b)), (lt (key b) (key a)), so;
      try (specialize (H1 eq_refl)); try discriminate; reflexivity.
  - intros a b c Ha Hb Hc Hab Hbc.
    apply Hle in Hab; [|assumption..]. apply Hle in Hbc; [|assumption..].
    apply Hle; [assumption..|].
    destruct so.
    + apply (Hneg (key c) (key b) (key a)); auto.
    + apply (Hneg (key a) (key b) (key c)); auto.
Qed.

End Keyed.

Section PipelineFacts.

Variable Date_parse : string -> num.

(** On rows that can be compared the comparator of the sort stage is
    consistent. *)
Lemma compareFn_consistent (sf : SortField) (so : SortOrder) (rows : list SpreadsheetRow) :
  sortable Date_parse sf rows ->
  consistent_on (compareFn Date_parse sf so) rows.
Proof.
  intros Hs.
  assert (Hdate : forall k, sortField_key sf = k ->
            (forall row, In row rows ->
               exists v, cells row !! k = Some v /\ date_key Date_parse v <> NaN) ->
            (forall a b, In a rows -> In b rows ->
               match cells a !! k, cells b !! k with
               | Some av, Some bv =>
                   Some (verdict so (num_lt (date_key Date_parse av) (date_key Date_parse bv))
                                    (num_lt (date_key Date_parse bv) (date_key Date_parse av)))
               | _, _ => None
               end = compareFn Date_parse sf so a b) ->
            consistent_on (compareFn Date_parse sf so) rows).
  { intros k Hk Hv Heq.
    apply (keyed_consistent
             (fun row => match cells row !! k with
                         | Some v => date_key Date_parse v
                         | None => NaN
                         end)
             num_lt (fun a => a <> NaN) num_lt_strict_weak so).
    - intros a Ha. destruct (Hv a Ha) as (v & -> & Hn). exact Hn.
    - intros a b Ha Hb. rewrite <- (Heq a b Ha Hb).
      destruct (Hv a Ha) as (va & -> & _). destruct (Hv b Hb) as (vb & -> & _).
      reflexivity. }
  destruct sf.
  - apply (Hdate "submitted" eq_refl Hs). reflexivity.
  - apply (keyed_consistent (fun row => text_key (cells row !! "status"))
             String.ltb (fun _ => True) string_ltb_strict_weak so); auto.
  - apply (keyed_consistent (fun row => text_key (cells row !! "submitter"))
             String.ltb (fun _ => True) string_ltb_strict_weak so); auto.
  - apply (keyed_consistent (fun row => priority_key (cells row !! "priority"))
             Z.ltb (fun _ => True) Z_ltb_strict_weak so); auto.
  - apply (Hdate "dueDate" eq_refl Hs). reflexivity.
  - apply (keyed_consistent (fun row => est_key (cells row !! "estValue"))
             flt (fun a => a <> FNaN) flt_strict_weak so); auto.
    intros a _. apply or_zero_not_NaN.
Qed.

Lemma filter_stage_In (P : Props) (d : list SpreadsheetRow) (row : SpreadsheetRow) :
  In row (filter_stage P d) -> In row d.
Proof.
  unfold filter_stage. destruct (filterField P); [|auto].
  destruct (nonempty (filterValue P)); [|auto].
  intros H. apply filter_In in H. tauto.
Qed.

Variable Array_sort :
  (SpreadsheetRow -> SpreadsheetRow -> option Z) ->
  list SpreadsheetRow -> option (list SpreadsheetRow).
Hypothesis Hsort : conforming_sort Array_sort.

(** The processed data is a rearrangement of the rows that pass the
    filter. *)
Lemma processedData_perm (P : Props) (d view : list SpreadsheetRow) :
  processedData Date_parse Array_sort P d = Some view ->
  Permutation (filter_stage P d) view.
Proof.
  unfold processedData. destruct (sortField P) as [sf|], (sortOrder P) as [so|];
    try (intros H; injection H as <-; reflexivity).
  apply (sort_permutes _ Hsort).
Qed.

Lemma processedData_In (P : Props) (d view : list SpreadsheetRow) (row : SpreadsheetRow) :
  processedData Date_parse Array_sort P d = Some view -> In row view -> In row d.
Proof.
  intros H Hin. apply (filter_stage_In P).
  apply (Permutation_in _ (Permutation_sym (processedData_perm _ _ _ H))). exact Hin.
Qed.

(** With a sort field and an order, rows that can be compared come out in
    comparator order, ties in the order of the filter stage; without one
    of the two the filter stage is the result. *)
Lemma sort_stage_stable (P : Props) (d : list SpreadsheetRow) :
  (forall sf so,
      sortField P = Some sf -> sortOrder P = Some so ->
      sortable Date_parse sf (filter_stage P d) ->
      exists view,
        processedData Date_parse Array_sort P d = Some view /\
        Permutation (filter_stage P d) view /\
        StronglySorted (cmp_le (compareFn Date_parse sf so)) view /\
        forall x y, compareFn Date_parse sf so x y = Some 0 ->
                    occurs_before x y (filter_stage P d) -> occurs_before x y view) /\
  (sortField P = None \/ sortOrder P = None ->
   processedData Date_parse Array_sort P d = Some (filter_stage P d)).
Proof.
  split.
  - intros sf so Hsf Hso Hs.
    pose proof (compareFn_consistent sf so _ Hs) as Hc.
    destruct (sort_returns _ Hsort (compareFn Date_parse sf so) (filter_stage P d))
      as [view Hv]; [apply Hc|].
    exists view. unfold processedData. rewrite Hsf, Hso. repeat split.
    + exact Hv.
    + apply (sort_permutes _ Hsort _ _ _ Hv).
    + apply (sort_orders _ Hsort _ _ _ Hc Hv).
    + apply (sort_keeps_ties _ Hsort _ _ _ Hc Hv).
  - unfold processedData. intros [-> | ->]; [reflexivity|].
    destruct (sortField P); reflexivity.
Qed.

End PipelineFacts.

(** ** The filter stage (C2) *)

Lemma filter_row_spec (ff : FilterField) (fv : string) (row : SpreadsheetRow) :
  filter_row ff fv row = true <-> satisfies_filter ff fv row.
Proof.
  unfold filter_row, satisfies_filter, equal_ci.
  destruct ff; try apply includes_lower_spec; apply String.eqb_eq.
Qed.

Lemma nonempty_true (s : string) : s <> EmptyString -> nonempty s = true.
Proof. destruct s; [congruence | reflexivity]. Qed.



(** ** Sorting by estimated value (C5) *)

Lemma remove_chars_filter (p : ascii -> bool) (s : string) :
  list_ascii_of_string (remove_chars p s)
  = List.filter (fun c => negb (p c)) (list_ascii_of_string s).
Proof.
  induction s as [|c s IH]; simpl; [reflexivity|].
  destruct (p c); simpl; rewrite IH; reflexivity.
Qed.

Lemma StronglySorted_weaken {A : Type} (R R' : A -> A -> Prop) (l : list A) :
  (forall a b, In a l -> In b l -> R a b -> R' a b) ->
  StronglySorted R l -> StronglySorted R' l.
Proof.
  induction l as [|x l IH]; intros Himp Hs; [constructor|].
  inversion Hs as [|? ? Hs' Hall]; subst. constructor.
  - apply IH; [|exact Hs']. intros a b Ha Hb. apply Himp; right; assumption.
  - rewrite List.Forall_forall in *. intros b Hb.
    apply Himp; [left; reflexivity | right; exact Hb | apply Hall; exact Hb].
Qed.

Lemma est_cmp_le (Date_parse : string -> num) (so : SortOrder) (a b : SpreadsheetRow) :
  cmp_le (compareFn Date_parse SortEstValue so) a b ->
  match so with
  | asc => flt (est_key (cells b !! "estValue")) (est_key (cells a !! "estValue")) = false
  | desc => flt (est_key (cells a !! "estValue")) (est_key (cells b !! "estValue")) = false
  end.
Proof.
  intros (v & Hv & Hle). simpl in Hv. injection Hv as <-.
  pose proof (swo_asym _ _ flt_strict_weak
                (est_key (cells a !! "estValue")) (est_key (cells b !! "estValue"))
                (or_zero_not_NaN _) (or_zero_not_NaN _)) as Hasym.
  unfold verdict in Hle.
  destruct (flt (est_key (cells a !! "estValue")) (est_key (cells b !! "estValue"))),
           (flt (est_key (cells b !! "estValue")) (est_key (cells a !! "estValue"))), so;
    try reflexivity; try lia; try (specialize (Hasym eq_refl); congruence).
Qed.



(** ** Ties of the sort stage (C4) *)

Section OccursBefore.

Context {A : Type}.

Lemma occurs_before_split (x y : A) (l : list A) :
  occurs_before x y l <-> exists l1 l2 l3, l = l1 ++ x :: l2 ++ y :: l3.
Proof.
  unfold occurs_before. rewrite sublist_cons_l. split.
  - intros (k1 & k2 & -> & Hy). apply sublist_cons_l in Hy as (k3 & k4 & -> & _).
    exists k1, k3, k4. reflexivity.
  - intros (l1 & l2 & l3 & ->). exists l1, (l2 ++ y :: l3). split; [reflexivity|].
    apply sublist_inserts_l, sublist_skip, sublist_nil_l.
Qed.

(** In a list without repetition an item has one place. *)
Lemma NoDup_split_unique (y : A) (a1 a2 b1 b2 : list A) :
  List.NoDup (a1 ++ y :: a2) -> a1 ++ y :: a2 = b1 ++ y :: b2 -> a1 = b1 /\ a2 = b2.
Proof.
  revert b1. induction a1 as [|w a1 IH]; intros b1 Hnd Heq.
  - destruct b1 as [|z b1]; simpl in *.
    + injection Heq as <-. split; reflexivity.
    + injection Heq as <- ->. exfalso.
      inversion Hnd as [|? ? Hnin _]; subst. apply Hnin, in_or_app. right. left. reflexivity.
  - destruct b1 as [|z b1]; simpl in *.
    + injection Heq as -> <-. exfalso.
      inversion Hnd as [|? ? Hnin _]; subst. apply Hnin, in_or_app. right. left. reflexivity.
    + injection Heq as <- Heq. inversion Hnd as [|? ? _ Hnd']; subst.
      destruct (IH b1 Hnd' Heq) as [-> ->]. split; reflexivity.
Qed.

Lemma occurs_before_trans (x y z : A) (l : list A) :
  List.NoDup l -> occurs_before x y l -> occurs_before y z l -> occurs_before x z l.
Proof.
  intros Hnd Hxy Hyz.
  apply occurs_before_split in Hxy as (l1 & l2 & l3 & ->).
  apply occurs_before_split in Hyz as (m1 & m2 & m3 & Heq).
  apply occurs_before_split.
  replace (l1 ++ x :: l2 ++ y :: l3) with ((l1 ++ x :: l2) ++ y :: l3) in Heq, Hnd
    by (rewrite <- app_assoc; reflexivity).
  destruct (NoDup_split_unique y _ _ _ _ Hnd Heq) as [_ ->].
  exists l1, (l2 ++ y :: m2), m3. rewrite <- app_assoc. reflexivity.
Qed.

Lemma occurs_before_irrefl (x : A) (l : list A) :
  List.NoDup l -> ~ occurs_before x x l.
Proof.
  intros Hnd Hb. apply occurs_before_split in Hb as (l1 & l2 & l3 & ->).
  apply NoDup_remove_2 in Hnd. apply Hnd, in_or_app. right.
  apply in_or_app. right. left. reflexivity.
Qed.

Lemma StronglySorted_before (R : A -> A -> Prop) (l : list A) (x y : A) :
  StronglySorted R l -> occurs_before x y l -> R x y.
Proof.
  unfold occurs_before. intros Hs Hb. induction Hs as [|a l Hs IH Hall].
  - apply sublist_nil_r in Hb. discriminate Hb.
  - apply sublist_cons_r in Hb as [Hb|(l' & Heq & Hb)]; [exact (IH Hb)|].
    injection Heq as <- <-. apply singleton_sublist_l, list_elem_of_In in Hb.
    rewrite List.Forall_forall in Hall. exact (Hall y Hb).
Qed.

End OccursBefore.

Lemma due_rows_NoDup : List.NoDup due_rows.
Proof.
  repeat constructor; simpl; intros H; repeat destruct H as [H|H];
    try contradiction; apply (f_equal id) in H; discriminate H.
Qed.

(** C4.  Four rows with the due dates 2026, 2024, none and 2025 are sorted
    by due date, ascending.  The comparator returns [0] whenever one of
    the two dates is invalid, so the row without a date ties with every
    other row although these do not tie with each other.  The insertion
    sort returns the order 2024, 2025, 2026, none: the row without a date
    stood before the row of 2025 and ties with it, and now stands behind
    it.  Whatever the engine returns, no rearrangement of these rows is
    both in comparator order and faithful to the order of the ties. *)
Theorem C4_invalid_date_breaks_tie_order :
  let cmp := compareFn Date_iso SortDueDate asc in
  (cmp due_2026 due_none = Some 0 /\ cmp due_none due_2025 = Some 0 /\
   cmp due_2026 due_2025 = Some 1) /\
  occurs_before due_none due_2025 due_rows /\
  processedData Date_iso insertion_sort (sort_props SortDueDate asc) due_rows
  = Some [due_2024; due_2025; due_2026; due_none] /\
  ~ occurs_before due_none due_2025 [due_2024; due_2025; due_2026; due_none] /\
  (forall out,
      Permutation due_rows out ->
      StronglySorted (cmp_le cmp) out ->
      ~ (forall x y, cmp x y = Some 0 ->
                     occurs_before x y due_rows -> occurs_before x y out)).
Proof.
  cbv zeta.
  assert (H1 : compareFn Date_iso SortDueDate asc due_2026 due_none = Some 0)
    by reflexivity.
  assert (H2 : compareFn Date_iso SortDueDate asc due_none due_2025 = Some 0)
    by reflexivity.
  assert (H3 : compareFn Date_iso SortDueDate asc due_2026 due_2025 = Some 1)
    by reflexivity.
  assert (Hb1 : occurs_before due_2026 due_none due_rows).
  { apply occurs_before_split. exists [], [due_2024], [due_2025]. reflexivity. }
  assert (Hb2 : occurs_before due_none due_2025 due_rows).
  { apply occurs_before_split. exists [due_2026; due_2024], [], []. reflexivity. }
  assert (Hsorted : processedData Date_iso insertion_sort
                      (sort_props SortDueDate asc) due_rows
                    = Some [due_2024; due_2025; due_2026; due_none]) by reflexivity.
  assert (Hperm : Permutation due_rows [due_2024; due_2025; due_2026; due_none]).
  { apply (processedData_perm Date_iso insertion_sort
             (insertion_sort_conforming SpreadsheetRow)
             (sort_props SortDueDate asc) due_rows _ Hsorted). }
  repeat apply conj; try assumption.
  - intros Hb.
    apply (occurs_before_irrefl due_2025 [due_2024; due_2025; due_2026; due_none]).
    + apply (Permutation_NoDup Hperm due_rows_NoDup).
    + eapply occurs_before_trans; [| |exact Hb].
      * apply (Permutation_NoDup Hperm due_rows_NoDup).
      * apply occurs_before_split. exists [due_2024], [due_2026], []. reflexivity.
  - intros out Hp Hs Hties.
    pose proof (Permutation_NoDup Hp due_rows_NoDup) as Hnd.
    pose proof (occurs_before_trans _ _ _ _ Hnd (Hties _ _ H1 Hb1) (Hties _ _ H2 Hb2))
      as Hcx.
    pose proof (StronglySorted_before _ _ _ _ Hs Hcx) as (v & Hv & Hle).
    rewrite H3 in Hv. injection Hv as <-. lia.
Qed.

(** ** Editing a cell (C6) *)

Lemma with_field_same (field : string) (r : SpreadsheetRow) :
  (forall k, field_string (with_field field (field_string r field) r) k = field_string r k) /\
  (is_Some (cells r !! field) -> with_field field (field_string r field) r = r).
Proof.
  split.
  - intros k. unfold field_string, with_field. simpl.
    destruct (decide (field = k)) as [->|Hne].
    + rewrite lookup_insert_eq. reflexivity.
    + rewrite lookup_insert_ne by exact Hne. reflexivity.
  - intros [v Hv]. unfold field_string, with_field. rewrite Hv.
    destruct r as [i c]. simpl in *. f_equal. apply insert_id. exact Hv.
Qed.



(** * Further properties of the component *)

(** ** Rows of the store *)

Lemma filter_sublist {A : Type} (p : A -> bool) (l : list A) :
  sublist (List.filter p l) l.
Proof.
  induction l as [|x l IH]; simpl; [constructor|].
  destruct (p x); [apply sublist_skip | apply sublist_cons]; exact IH.
Qed.

Lemma filter_all_true {A : Type} (p : A -> bool) (l : list A) :
  (forall x, In x l -> p x = true) -> List.filter p l = l.
Proof.
  induction l as [|x l IH]; simpl; intros H; [reflexivity|].
  rewrite (H x (or_introl eq_refl)). f_equal. apply IH. intros y Hy. apply H. right. exact Hy.
Qed.

Lemma filter_twice {A : Type} (p : A -> bool) (l : list A) :
  List.filter p (List.filter p l) = List.filter p l.
Proof.
  apply filter_all_true. intros x Hx. apply filter_In in Hx. tauto.
Qed.

(** X1.  [deleteRow] removes every row whose id is strictly equal to the
    given one and nothing else: the other rows stay, in their order; a
    second deletion changes nothing, and so does the deletion of an id
    that no row has (such as [NaN], which equals no id). *)
Theorem deleteRow_effect (rowId : num) (d : list SpreadsheetRow) :
  (forall row, In row (deleteRow rowId d)
               <-> In row d /\ strict_eq (id row) rowId = false) /\
  sublist (deleteRow rowId d) d /\
  deleteRow rowId (deleteRow rowId d) = deleteRow rowId d /\
  (find_row rowId d = None <-> deleteRow rowId d = d) /\
  find_row rowId (deleteRow rowId d) = None /\
  deleteRow NaN d = d.
Proof.
  repeat apply conj.
  - intros row. unfold deleteRow. rewrite filter_In.
    destruct (strict_eq (id row) rowId); simpl; intuition congruence.
  - apply filter_sublist.
  - apply filter_twice.
  - intros Hnone. apply filter_all_true. intros row Hin.
    destruct (strict_eq (id row) rowId) eqn:E; [|reflexivity].
    exfalso. rewrite find_row_none in Hnone. apply Hnone. exists row. tauto.
  - intros Heq. apply find_row_none. intros (row & Hin & E).
    rewrite <- Heq in Hin. unfold deleteRow in Hin. apply filter_In in Hin.
    rewrite E in Hin. destruct Hin; discriminate.
  - apply find_row_none. intros (row & Hin & E).
    unfold deleteRow in Hin. apply filter_In in Hin.
    rewrite E in Hin. destruct Hin; discriminate.
  - apply filter_all_true. intros row _. unfold strict_eq.
    destruct (id row); reflexivity.
Qed.

Section Splice.

Context {A : Type}.

(** Where the items stand after [l.splice(p, 0, x)]. *)
Lemma splice_in_lookup (p : nat) (x : A) (l : list A) :
  (p <= length l)%nat ->
  nth_error (splice_in p x l) p = Some x /\
  (forall i, (i < p)%nat -> nth_error (splice_in p x l) i = nth_error l i) /\
  (forall i, (p <= i)%nat -> nth_error (splice_in p x l) (S i) = nth_error l i).
Proof.
  intros Hp. unfold splice_in.
  assert (Hlen : length (firstn p l) = p) by (rewrite length_firstn; lia).
  repeat apply conj.
  - rewrite nth_error_app2 by lia. rewrite Hlen, Nat.sub_diag. reflexivity.
  - intros i Hi. rewrite nth_error_app1 by lia. rewrite nth_error_firstn.
    destruct (Nat.ltb_spec i p); [reflexivity|lia].
  - intros i Hi. rewrite nth_error_app2 by lia. rewrite Hlen.
    replace (S i - p)%nat with (S (i - p)) by lia. simpl.
    rewrite nth_error_skipn. f_equal. lia.
Qed.

Lemma splice_in_end (p : nat) (x : A) (l : list A) :
  (length l <= p)%nat -> splice_in p x l = l ++ [x].
Proof.
  intros Hp. unfold splice_in.
  rewrite firstn_all2 by exact Hp. rewrite skipn_all2 by exact Hp. reflexivity.
Qed.

Lemma splice_in_min (p : nat) (x : A) (l : list A) :
  splice_in p x l = splice_in (Nat.min p (length l)) x l.
Proof.
  destruct (Nat.le_gt_cases p (length l)) as [H|H].
  - rewrite Nat.min_l by exact H. reflexivity.
  - rewrite Nat.min_r by lia. rewrite !splice_in_end by lia. reflexivity.
Qed.

Lemma splice_in_length (p : nat) (x : A) (l : list A) :
  length (splice_in p x l) = S (length l).
Proof.
  unfold splice_in. rewrite length_app. simpl.
  rewrite <- (firstn_skipn p l) at 3. rewrite length_app. lia.
Qed.

End Splice.

(** X2.  [addRowAt] puts the new row at the given index of the store when
    the index is inside it, and at the end otherwise (an index equal to the
    length or beyond it, or none): the rows before the index keep their
    place, those from the index on move down by one.  The new row is the
    one [addRow] would append. *)
Theorem addRowAt_position (today : string) (cc : list string)
    (position : option nat) (d : list SpreadsheetRow) :
  let row := newRow (nextId d) today cc in
  let p := match position with
           | Some p => Nat.min p (length d)
           | None => length d
           end in
  nth_error (addRowAt today cc position d) p = Some row /\
  (forall i, (i < p)%nat -> nth_error (addRowAt today cc position d) i = nth_error d i) /\
  (forall i, (p <= i)%nat ->
             nth_error (addRowAt today cc position d) (S i) = nth_error d i) /\
  length (addRowAt today cc position d) = S (length d) /\
  (p = length d -> addRowAt today cc position d = addRow today cc d).
Proof.
  intros row p.
  assert (Heq : addRowAt today cc position d = splice_in p row d).
  { unfold addRowAt, p. fold row. destruct position as [q|].
    - destruct (Nat.ltb_spec q (length d)).
      + rewrite Nat.min_l by lia. reflexivity.
      + rewrite Nat.min_r by lia. symmetry. apply splice_in_end. lia.
    - symmetry. apply splice_in_end. lia. }
  assert (Hp : (p <= length d)%nat) by (unfold p; destruct position; lia).
  rewrite Heq. destruct (splice_in_lookup p row d Hp) as (H1 & H2 & H3).
  repeat apply conj; try assumption.
  - apply splice_in_length.
  - intros ->. apply splice_in_end. lia.
Qed.

Lemma fold_insert_lookup (g : string -> string) (v : string) (cc : list string)
    (base : gmap string string) (f : string) :
  fold_left (fun m col => <[g col := v]> m) cc base !! f
  = if includes_str (map g cc) f then Some v else base !! f.
Proof.
  revert base. induction cc as [|c cc IH]; intros base; simpl; [reflexivity|].
  rewrite IH. unfold includes_str at 1 2. simpl.
  destruct (existsb (String.eqb f) (map g cc)); [rewrite orb_true_r; reflexivity|].
  rewrite orb_false_r.
  destruct (String.eqb_spec f (g c)) as [->|Hne].
  - apply lookup_insert_eq.
  - apply lookup_insert_ne. congruence.
Qed.


Lemma ids_map_same (g : SpreadsheetRow -> SpreadsheetRow) (d : list SpreadsheetRow) :
  (forall row, id (g row) = id row) -> ids (map g d) = ids d.
Proof.
  intros H. unfold ids. rewrite map_map. apply map_ext. exact H.
Qed.


Lemma cleared_lookup (row : SpreadsheetRow) (f : string) :
  cells (cleared row) !! f
  = match cells row !! f with Some _ => Some EmptyString | None => None end.
Proof. unfold cleared. simpl. rewrite lookup_fmap. destruct (cells row !! f); reflexivity. Qed.

Lemma cleared_twice (row : SpreadsheetRow) : cleared (cleared row) = cleared row.
Proof.
  unfold cleared. simpl. f_equal. apply map_eq. intros f.
  rewrite !lookup_fmap. destruct (cells row !! f); reflexivity.
Qed.

(** X5.  [clearRow] empties the rows with the given id and leaves the
    others as they are.  In an emptied row every member that was there is
    the empty string, whether its column is visible or not; no member is
    added and none is removed, and the id stays.  Clearing twice is
    clearing once. *)
Theorem clearRow_effect (rowId : num) (d : list SpreadsheetRow) :
  (forall i row, nth_error d i = Some row ->
     exists row', nth_error (clearRow rowId d) i = Some row' /\
       id row' = id row /\
       (strict_eq (id row) rowId = false -> row' = row) /\
       (strict_eq (id row) rowId = true ->
        forall f, cells row' !! f
                  = match cells row !! f with
                    | Some _ => Some EmptyString
                    | None => None
                    end)) /\
  length (clearRow rowId d) = length d /\
  clearRow rowId (clearRow rowId d) = clearRow rowId d.
Proof.
  repeat apply conj.
  - intros i row Hi. unfold clearRow. rewrite nth_error_map, Hi. simpl.
    destruct (strict_eq (id row) rowId) eqn:E.
    + exists (cleared row). repeat split; [discriminate|]. intros _ f. apply cleared_lookup.
    + exists row. repeat split. discriminate.
  - unfold clearRow. apply length_map.
  - unfold clearRow. rewrite map_map. apply map_ext. intros row.
    destruct (strict_eq (id row) rowId) eqn:E.
    + change (id (cleared row)) with (id row). rewrite E. apply cleared_twice.
    + rewrite E. reflexivity.
Qed.

(** ** Custom columns *)

Lemma prompted_name_spec (answer : option string) :
  prompted_name answer
  = match answer with
    | Some raw => if only_spaces raw then None else Some (trim raw)
    | None => None
    end.
Proof.
  destruct answer as [raw|]; [|reflexivity]. unfold prompted_name.
  destruct (only_spaces raw) eqn:Hs.
  - apply trim_empty in Hs. rewrite Hs, andb_false_r. reflexivity.
  - destruct (nonempty (trim raw)) eqn:Ht.
    + destruct raw; [discriminate Hs | reflexivity].
    + apply trim_empty in Ht. congruence.
Qed.

Lemma allFields_app (cc : list string) (name : string) :
  allFields (cc ++ [name]) = allFields cc ++ [field_of_column name].
Proof. unfold allFields. rewrite map_app, app_assoc. reflexivity. Qed.

Lemma with_field_lookup (f v k : string) (row : SpreadsheetRow) :
  cells (with_field f v row) !! k = if String.eqb k f then Some v else cells row !! k.
Proof.
  unfold with_field. simpl. destruct (String.eqb_spec k f) as [->|Hne].
  - apply lookup_insert_eq.
  - apply lookup_insert_ne. congruence.
Qed.

Lemma without_field_lookup (f k : string) (row : SpreadsheetRow) :
  cells (without_field f row) !! k = if String.eqb k f then None else cells row !! k.
Proof.
  unfold without_field. simpl. destruct (String.eqb_spec k f) as [->|Hne].
  - apply lookup_delete_eq.
  - apply lookup_delete_ne. congruence.
Qed.

(** The custom columns, the widths and the store that [addColumn] builds. *)
Lemma addColumn_columns (raw : string) (sh : Sheet) :
  only_spaces raw = false ->
  let sh' := addColumn (Some raw) sh in
  customColumns (sheet_state sh') = customColumns (sheet_state sh) ++ [trim raw] /\
  columnWidths sh' = columnWidths sh ++ [160] /\
  data (sheet_state sh')
  = map (with_field (field_of_column (trim raw)) EmptyString) (data (sheet_state sh)).
Proof.
  intros Hs sh'. unfold sh', addColumn. rewrite prompted_name_spec, Hs.
  repeat split.
Qed.


Section DropIndex.

Context {A : Type}.

Lemma drop_index_outside (k : nat) (l : list A) :
  (length l <= k)%nat -> drop_index k l = l.
Proof.
  intros H. unfold drop_index. rewrite firstn_all2 by exact H.
  rewrite skipn_all2 by lia. apply app_nil_r.
Qed.

Lemma drop_index_length (k : nat) (l : list A) :
  (k < length l)%nat -> S (length (drop_index k l)) = length l.
Proof.
  intros H. unfold drop_index. rewrite length_app, length_firstn, length_skipn. lia.
Qed.

Lemma drop_index_app_r (a l : list A) (k : nat) :
  drop_index (length a + k) (a ++ l) = a ++ drop_index k l.
Proof.
  unfold drop_index. rewrite firstn_app_2.
  replace (S (length a + k)) with (length a + S k)%nat by lia.
  rewrite skipn_app, skipn_all2 by lia.
  replace (length a + S k - length a)%nat with (S k) by lia.
  rewrite <- app_assoc. reflexivity.
Qed.

Lemma drop_index_In (k : nat) (l : list A) (x : A) :
  In x (drop_index k l) -> In x l.
Proof.
  unfold drop_index. rewrite in_app_iff. intros [H|H].
  - rewrite <- (firstn_skipn k l). apply in_or_app. left. exact H.
  - rewrite <- (firstn_skipn (S k) l). apply in_or_app. right. exact H.
Qed.

Lemma drop_index_NoDup_In (k : nat) (l : list A) (x : A) :
  List.NoDup l -> nth_error l k = Some x -> ~ In x (drop_index k l).
Proof.
  intros Hnd Hk Hin.
  destruct (nth_error_split l k Hk) as (l1 & l2 & -> & Hlen). subst k.
  unfold drop_index in Hin.
  rewrite firstn_app, Nat.sub_diag, firstn_all in Hin. simpl in Hin.
  rewrite app_nil_r in Hin.
  replace (S (length l1)) with (length (l1 ++ [x])) in Hin
    by (rewrite length_app; simpl; lia).
  change (l1 ++ x :: l2) with (l1 ++ [x] ++ l2) in Hin.
  rewrite app_assoc, skipn_app, skipn_all, Nat.sub_diag in Hin. simpl in Hin.
  apply List.NoDup_remove_2 in Hnd. apply Hnd. exact Hin.
Qed.

End DropIndex.

Lemma map_drop_index {A B : Type} (g : A -> B) (k : nat) (l : list A) :
  map g (drop_index k l) = drop_index k (map g l).
Proof. unfold drop_index. rewrite map_app, firstn_map, skipn_map. reflexivity. Qed.

Lemma map_splice_in {A B : Type} (g : A -> B) (p : nat) (x : A) (l : list A) :
  map g (splice_in p x l) = splice_in p (g x) (map g l).
Proof. unfold splice_in. rewrite map_app. simpl. rewrite firstn_map, skipn_map. reflexivity. Qed.

Lemma splice_in_In {A : Type} (p : nat) (x y : A) (l : list A) :
  In y (splice_in p x l) <-> y = x \/ In y l.
Proof.
  unfold splice_in. rewrite in_app_iff. simpl.
  rewrite <- (firstn_skipn p l) at 3. rewrite in_app_iff. intuition congruence.
Qed.

(** The custom columns and the widths that [addColumnAt] builds. *)
Lemma addColumnAt_columns (raw : string) (position : option nat) (sh : Sheet) :
  only_spaces raw = false ->
  let cc := customColumns (sheet_state sh) in
  let sh' := addColumnAt (Some raw) position sh in
  customColumns (sheet_state sh')
  = splice_in (match position with
               | Some p => Nat.min p (length cc)
               | None => length cc
               end) (trim raw) cc /\
  columnWidths sh'
  = splice_in (match position with
               | Some p => Nat.min p (length (columnWidths sh))
               | None => length (columnWidths sh)
               end) 160 (columnWidths sh) /\
  data (sheet_state sh')
  = map (with_field (field_of_column (trim raw)) EmptyString) (data (sheet_state sh)).
Proof.
  intros Hs cc sh'. unfold sh', addColumnAt. rewrite prompted_name_spec, Hs. simpl.
  fold cc. repeat apply conj; [| |reflexivity].
  - destruct position as [p|]; [|symmetry; apply splice_in_end; lia].
    match goal with |- context [(p <? ?n)%nat] => destruct (Nat.ltb_spec p n) end.
    + apply splice_in_min.
    + rewrite Nat.min_r by lia. symmetry. apply splice_in_end. lia.
  - destruct position as [p|]; [|symmetry; apply splice_in_end; lia].
    match goal with |- context [(p <? ?n)%nat] => destruct (Nat.ltb_spec p n) end.
    + apply splice_in_min.
    + rewrite Nat.min_r by lia. symmetry. apply splice_in_end. lia.
Qed.

(** X7.  [addColumnAt] takes a position among all headers but splices the
    name into the custom columns only, which follow the nine built-in
    ones: the new column lands at header [9 + min(position, n)] for [n]
    custom columns, never among the built-in columns, which stay the first
    nine fields.  The width of 160 is spliced into the widths at the
    position itself.  The store is changed as by [addColumn], and a
    cancelled or blank prompt changes nothing. *)
Theorem addColumnAt_placement (answer : option string) (position : option nat)
    (sh : Sheet) :
  let cc := customColumns (sheet_state sh) in
  let sh' := addColumnAt answer position sh in
  let cc' := customColumns (sheet_state sh') in
  match prompted_name answer with
  | None => sh' = sh
  | Some name =>
      let q := match position with
               | Some p => Nat.min p (length cc)
               | None => length cc
               end in
      let w := match position with
               | Some p => Nat.min p (length (columnWidths sh))
               | None => length (columnWidths sh)
               end in
      nth_error (allFields cc') (9 + q) = Some (field_of_column name) /\
      (forall i, (i < 9 + q)%nat -> nth_error (allFields cc') i = nth_error (allFields cc) i) /\
      (forall i, (9 + q <= i)%nat ->
                 nth_error (allFields cc') (S i) = nth_error (allFields cc) i) /\
      firstn 9 (allFields cc') = fields /\
      nth_error (columnWidths sh') w = Some 160 /\
      length (columnWidths sh') = S (length (columnWidths sh)) /\
      data (sheet_state sh') = data (sheet_state (addColumn answer sh))
  end.
Proof.
  intros cc sh' cc'. destruct (prompted_name answer) as [name|] eqn:Hn.
  2:{ unfold sh', addColumnAt. rewrite Hn. reflexivity. }
  rewrite prompted_name_spec in Hn. destruct answer as [raw|]; [|discriminate].
  destruct (only_spaces raw) eqn:Hs; [discriminate|]. injection Hn as <-.
  destruct (addColumnAt_columns raw position sh Hs) as (Hcc & Hw & Hd).
  fold cc in Hcc. fold sh' in Hcc, Hw, Hd. fold cc' in Hcc.
  intros q w. fold q in Hcc. fold w in Hw.
  assert (Hq : (q <= length cc)%nat) by (unfold q; destruct position; lia).
  assert (Hwl : (w <= length (columnWidths sh))%nat) by (unfold w; destruct position; lia).
  assert (Hall : allFields cc'
                 = splice_in (9 + q) (field_of_column (trim raw)) (allFields cc)).
  { unfold allFields. rewrite Hcc, map_splice_in. unfold splice_in.
    change (9 + q)%nat with (length fields + q)%nat.
    rewrite firstn_app_2, skipn_app.
    rewrite (skipn_all2 (n := length fields + q) fields) by lia.
    replace (length fields + q - length fields)%nat with q by lia.
    rewrite <- app_assoc. reflexivity. }
  assert (Hlen : (9 + q <= length (allFields cc))%nat).
  { unfold allFields. rewrite length_app, length_map. simpl. lia. }
  destruct (splice_in_lookup _ (field_of_column (trim raw)) _ Hlen) as (H1 & H2 & H3).
  repeat apply conj; try (rewrite Hall; assumption).
  - unfold allFields. change 9%nat with (length fields + 0)%nat.
    rewrite firstn_app_2. simpl. reflexivity.
  - rewrite Hw. apply (splice_in_lookup w 160 _ Hwl).
  - rewrite Hw. apply splice_in_length.
  - rewrite Hd. unfold addColumn. rewrite prompted_name_spec, Hs. reflexivity.
Qed.

Lemma allFields_drop_index (colIndex : nat) (cc : list string) :
  (9 <= colIndex)%nat ->
  allFields (drop_index (colIndex - 9) cc) = drop_index colIndex (allFields cc).
Proof.
  intros Hge. unfold allFields. rewrite map_drop_index.
  replace colIndex with (length fields + (colIndex - 9))%nat at 2 by (simpl; lia).
  symmetry. apply drop_index_app_r.
Qed.

(** The cases in which [deleteColumn] returns without a change. *)
Lemma deleteColumn_same (colIndex : nat) (confirmed : bool) (sh : Sheet) :
  (colIndex < 9)%nat \/
  (9 + length (customColumns (sheet_state sh)) <= colIndex)%nat \/
  confirmed = false ->
  deleteColumn colIndex confirmed sh = sh.
Proof.
  unfold deleteColumn. change (length fields) with 9%nat. intros [H | [H | H]].
  - destruct (Nat.ltb_spec colIndex 9); [reflexivity|lia].
  - destruct (Nat.ltb_spec colIndex 9); [reflexivity|].
    assert (Hn : nth_error (customColumns (sheet_state sh)) (colIndex - 9) = None)
      by (apply nth_error_None; lia).
    rewrite Hn. reflexivity.
  - subst confirmed. destruct (colIndex <? 9)%nat; [reflexivity|].
    destruct (nth_error (customColumns (sheet_state sh)) (colIndex - 9)); reflexivity.
Qed.

(** The custom columns, the widths and the store after a confirmed
    deletion of a custom column. *)
Lemma deleteColumn_columns (colIndex : nat) (name : string) (sh : Sheet) :
  (9 <= colIndex)%nat ->
  nth_error (customColumns (sheet_state sh)) (colIndex - 9) = Some name ->
  let sh' := deleteColumn colIndex true sh in
  customColumns (sheet_state sh')
  = drop_index (colIndex - 9) (customColumns (sheet_state sh)) /\
  columnWidths sh' = drop_index colIndex (columnWidths sh) /\
  data (sheet_state sh')
  = map (without_field (field_of_column name)) (data (sheet_state sh)).
Proof.
  intros Hge Hname sh'. unfold sh', deleteColumn. change (length fields) with 9%nat.
  destruct (Nat.ltb_spec colIndex 9); [lia|]. rewrite Hname. repeat split.
Qed.


(** X9.  Two custom columns can have the same field (["Notes"] and
    ["notes"], or any name entered twice).  Deleting one of them deletes
    the member that both read: the other column stays in the registry, and
    no row has a member under its field any more. *)
Theorem deleteColumn_shared_field (i : nat) (name other : string) (sh : Sheet) :
  let cc := customColumns (sheet_state sh) in
  let sh' := deleteColumn (9 + i) true sh in
  nth_error cc i = Some name ->
  In other (drop_index i cc) ->
  field_of_column other = field_of_column name ->
  In other (customColumns (sheet_state sh')) /\
  In (field_of_column other) (allFields (customColumns (sheet_state sh'))) /\
  forall row, In row (data (sheet_state sh')) ->
              cells row !! field_of_column other = None.
Proof.
  intros cc sh' Hname Hother Hf.
  destruct (deleteColumn_columns (9 + i) name sh ltac:(lia)) as (Hcc & _ & Hd).
  { replace (9 + i - 9)%nat with i by lia. exact Hname. }
  replace (9 + i - 9)%nat with i in Hcc by lia.
  fold sh' in Hcc, Hd. fold cc in Hcc. repeat apply conj.
  - rewrite Hcc. exact Hother.
  - unfold allFields. apply in_or_app. right. apply in_map. rewrite Hcc. exact Hother.
  - intros row Hin. rewrite Hd in Hin. apply in_map_iff in Hin as (row0 & <- & _).
    rewrite without_field_lookup, Hf, String.eqb_refl. reflexivity.
Qed.

Lemma deleteColumn_shared_field_witness :
  let sh := addColumn (Some "notes") (addColumn (Some "Notes") plain_sheet) in
  In "notes" (customColumns (sheet_state (deleteColumn 9 true sh))) /\
  In "notes" (allFields (customColumns (sheet_state (deleteColumn 9 true sh)))) /\
  forall row, In row (data (sheet_state (deleteColumn 9 true sh))) ->
              cells row !! "notes" = None.
Proof.
  intros sh.
  exact (deleteColumn_shared_field 0 "Notes" "notes" sh eq_refl
           (or_introl eq_refl) eq_refl).
Defined.

Lemma applySheetOp_columns (op : SheetOp) (sh : Sheet) :
  match op with
  | SAddColumn _ | SAddColumnAt _ _ | SDeleteColumn _ _ => True
  | _ =>
      customColumns (sheet_state (applySheetOp op sh)) = customColumns (sheet_state sh) /\
      columnWidths (applySheetOp op sh) = columnWidths sh
  end.
Proof.
  destruct op; try exact I; try (split; reflexivity).
  destruct action; simpl; [destruct confirmed| |]; split; reflexivity.
Qed.

Lemma applySheetOp_widths (op : SheetOp) (sh : Sheet) :
  widths_cover sh -> widths_cover (applySheetOp op sh).
Proof.
  unfold widths_cover. intros H.
  pose proof (applySheetOp_columns op sh) as Hc.
  destruct op; try (rewrite (proj1 Hc), (proj2 Hc); exact H); clear Hc; simpl.
  - unfold addColumn. destruct (prompted_name answer); [|exact H].
    simpl. rewrite !length_app. simpl. lia.
  - pose proof (prompted_name_spec answer) as Hn.
    destruct answer as [raw|]; [|exact H].
    destruct (only_spaces raw) eqn:Hs.
    + unfold addColumnAt. rewrite Hn. exact H.
    + destruct (addColumnAt_columns raw position sh Hs) as (-> & -> & _).
      rewrite !splice_in_length. lia.
  - pose proof (deleteColumn_same colIndex confirmed sh) as Hsame.
    destruct (Nat.ltb_spec colIndex 9) as [Hlt|Hge]; [rewrite Hsame by tauto; exact H|].
    destruct confirmed; [|rewrite Hsame by tauto; exact H].
    destruct (nth_error (customColumns (sheet_state sh)) (colIndex - 9)) as [name|] eqn:Hn.
    + assert (Hi : (colIndex - 9 < length (customColumns (sheet_state sh)))%nat)
        by (apply nth_error_Some; congruence).
      destruct (deleteColumn_columns colIndex name sh Hge Hn) as (-> & -> & _).
      pose proof (drop_index_length (colIndex - 9) (customColumns (sheet_state sh)) Hi).
      pose proof (drop_index_length colIndex (columnWidths sh) ltac:(lia)).
      lia.
    + apply nth_error_None in Hn. rewrite Hsame by lia. exact H.
Qed.

(** X10.  The widths keep pace with the columns.  The component starts
    with fifteen widths and no custom column; adding a column adds one
    width, deleting a column removes one, and no other operation changes
    the number of either.  So after any run of operations there are
    fifteen widths more than custom columns, and every header has a
    width. *)
Theorem widths_cover_invariant (ops : list SheetOp) (sh : Sheet) :
  widths_cover sh ->
  widths_cover (runSheet ops sh) /\
  forall i, (i < length (allFields (customColumns (sheet_state (runSheet ops sh)))))%nat ->
            is_Some (nth_error (columnWidths (runSheet ops sh)) i).
Proof.
  intros H.
  assert (Hrun : widths_cover (runSheet ops sh)).
  { revert sh H. induction ops as [|op ops IH]; intros sh H; [exact H|].
    simpl. apply IH. apply applySheetOp_widths. exact H. }
  split; [exact Hrun|].
  intros i Hi. unfold widths_cover in Hrun.
  unfold allFields in Hi. rewrite length_app, length_map in Hi. simpl in Hi.
  destruct (nth_error (columnWidths (runSheet ops sh)) i) eqn:E; [eauto|].
  apply nth_error_None in E. lia.
Qed.

Lemma widths_cover_invariant_witness :
  let ops := [SAddColumn (Some "Notes"); SAddRow "02/11/2026";
              SAddColumnAt (Some "Owner") (Some 2%nat); SDeleteColumn 9 true] in
  widths_cover plain_sheet /\
  widths_cover (runSheet ops plain_sheet) /\
  customColumns (sheet_state (runSheet ops plain_sheet)) = ["Owner"].
Proof.
  intros ops. split; [reflexivity|]. split.
  - exact (proj1 (widths_cover_invariant ops plain_sheet eq_refl)).
  - reflexivity.
Defined.

Section Complete.

Variable cc : list string.

Lemma rows_complete_incl (d d' : list SpreadsheetRow) :
  (forall row, In row d' -> In row d) -> rows_complete cc d -> rows_complete cc d'.
Proof. intros Hi H row Hin. apply H, Hi, Hin. Qed.

Lemma rows_complete_app (d d' : list SpreadsheetRow) :
  rows_complete cc d -> rows_complete cc d' -> rows_complete cc (d ++ d').
Proof. intros H H' row Hin. apply in_app_or in Hin as [Hin|Hin]; auto. Qed.

Lemma rows_complete_single (r : SpreadsheetRow) :
  row_complete cc r -> rows_complete cc [r].
Proof. intros H row Hin. simpl in Hin. destruct Hin as [<-|[]]. exact H. Qed.

Lemma rows_complete_map (g : SpreadsheetRow -> SpreadsheetRow) (d : list SpreadsheetRow) :
  (forall row, row_complete cc row -> row_complete cc (g row)) ->
  rows_complete cc d -> rows_complete cc (map g d).
Proof.
  intros Hg H row Hin. apply in_map_iff in Hin as (r & <- & Hr). apply Hg, H, Hr.
Qed.

Lemma newRow_complete (newId : num) (today : string) : row_complete cc (newRow newId today cc).
Proof.
  intros f Hf. unfold newRow. simpl cells. rewrite fold_insert_lookup.
  unfold allFields in Hf. apply in_app_or in Hf as [Hf|Hf].
  - destruct (includes_str (map field_of_column cc) f); [eauto|].
    simpl in Hf. repeat (destruct Hf as [<-|Hf]; [vm_compute; eauto|]). destruct Hf.
  - apply includes_str_In in Hf. rewrite Hf. eauto.
Qed.

Lemma with_field_complete (f v : string) (row : SpreadsheetRow) :
  row_complete cc row -> row_complete cc (with_field f v row).
Proof.
  intros H k Hk. rewrite with_field_lookup. destruct (String.eqb k f); [eauto|apply H, Hk].
Qed.

Lemma cleared_complete (row : SpreadsheetRow) :
  row_complete cc row -> row_complete cc (cleared row).
Proof.
  intros H k Hk. rewrite cleared_lookup. destruct (H k Hk) as [v ->]. eauto.
Qed.

Lemma imap_with_id_complete (g : nat -> num) (l : list SpreadsheetRow) :
  rows_complete cc l -> rows_complete cc (imap (fun i row => with_id (g i) row) l).
Proof.
  revert g. induction l as [|r l IH]; intros g H row Hin; [destruct Hin|].
  simpl in Hin. destruct Hin as [<-|Hin].
  - exact (H r (or_introl eq_refl)).
  - apply (IH (fun i => g (S i))); [|exact Hin].
    intros r' Hr'. apply H. right. exact Hr'.
Qed.

Lemma row_ops_complete (op : SheetOp) (sh : Sheet) :
  customColumns (sheet_state sh) = cc ->
  rows_complete cc (data (sheet_state sh)) ->
  match op with
  | SAddColumn _ | SAddColumnAt _ _ | SDeleteColumn _ _ => True
  | _ => rows_complete cc (data (sheet_state (applySheetOp op sh)))
  end.
Proof.
  intros Hcc H. destruct op; try exact I;
    unfold applySheetOp, on_data, on_state; cbn [sheet_state data set_data]; rewrite ?Hcc.
  - apply rows_complete_app; [exact H|].
    apply rows_complete_single, newRow_complete.
  - eapply rows_complete_incl; [|apply rows_complete_app;
      [exact H | apply rows_complete_single;
                 apply (newRow_complete (nextId (data (sheet_state sh))) today)]].
    intros row. unfold addRowAt.
    assert (Hs : forall p, In row (firstn p (data (sheet_state sh))
                               ++ newRow (nextId (data (sheet_state sh))) today cc
                                  :: skipn p (data (sheet_state sh))) ->
                           In row (data (sheet_state sh)
                                   ++ [newRow (nextId (data (sheet_state sh))) today cc])).
    { intros p Hin. apply (splice_in_In p) in Hin. apply in_or_app. simpl.
      destruct Hin as [->|Hin]; tauto. }
    cbv zeta. destruct position as [p|]; [destruct (p <? _)%nat; [apply Hs|]|];
      intros Hin; exact Hin.
  - unfold duplicateRow. destruct (find_row rowId (data (sheet_state sh))) as [r|] eqn:Hf;
      [|exact H].
    apply rows_complete_app; [exact H|]. apply rows_complete_single.
    apply find_row_some in Hf. exact (H r (proj1 Hf)).
  - eapply rows_complete_incl; [|exact H]. intros row Hin.
    unfold deleteRow in Hin. apply filter_In in Hin. tauto.
  - apply rows_complete_map; [|exact H]. intros row Hr.
    destruct (strict_eq (id row) rowId); [apply cleared_complete|]; exact Hr.
  - apply rows_complete_map; [|exact H]. intros row Hr.
    destruct (strict_eq (id row) rowId); [apply with_field_complete|]; exact Hr.
  - apply rows_complete_map; [|exact H]. intros row Hr. apply with_field_complete, Hr.
  - apply rows_complete_map; [|exact H]. intros row Hr.
    destruct (strict_eq (id row) rowId); [apply with_field_complete|]; exact Hr.
  - destruct action; simpl.
    + destruct confirmed; simpl; [|exact H].
      eapply rows_complete_incl; [|exact H]. intros row Hin.
      unfold batchDeleteRows in Hin. apply filter_In in Hin. tauto.
    + unfold batchDuplicateRows. apply rows_complete_app; [exact H|].
      apply (imap_with_id_complete
               (fun i => plus (plus (Math_max (ids (data (sheet_state sh)))) (Z.of_nat i)) 1)).
      eapply rows_complete_incl; [|exact H]. intros row Hin.
      apply filter_In in Hin. tauto.
    + apply rows_complete_map; [|exact H]. intros row Hr.
      destruct (includes_num _ (id row)); [apply cleared_complete|]; exact Hr.
Qed.

End Complete.

Lemma applySheetOp_complete (op : SheetOp) (sh : Sheet) :
  rows_complete (customColumns (sheet_state sh)) (data (sheet_state sh)) ->
  match op with
  | SDeleteColumn _ _ => List.NoDup (allFields (customColumns (sheet_state sh)))
  | _ => True
  end ->
  rows_complete (customColumns (sheet_state (applySheetOp op sh)))
                (data (sheet_state (applySheetOp op sh))).
Proof.
  intros H Hnd.
  pose proof (row_ops_complete (customColumns (sheet_state sh)) op sh eq_refl H) as Hrow.
  pose proof (applySheetOp_columns op sh) as Hcol.
  destruct op; try (rewrite (proj1 Hcol); exact Hrow); clear Hrow Hcol; simpl.
  - pose proof (prompted_name_spec answer) as Hp.
    destruct answer as [raw|]; [|exact H].
    destruct (only_spaces raw) eqn:Hs; [unfold addColumn; rewrite Hp; exact H|].
    destruct (addColumn_columns raw sh Hs) as (Hcc & _ & Hd).
    rewrite Hcc, Hd. intros row Hin f Hf.
    apply in_map_iff in Hin as (row0 & <- & Hin0). rewrite with_field_lookup.
    destruct (String.eqb_spec f (field_of_column (trim raw))) as [|Hne]; [eauto|].
    apply (H row0 Hin0). rewrite allFields_app in Hf.
    apply in_app_or in Hf as [Hf|[Hf|[]]]; [exact Hf|congruence].
  - pose proof (prompted_name_spec answer) as Hp.
    destruct answer as [raw|]; [|exact H].
    destruct (only_spaces raw) eqn:Hs; [unfold addColumnAt; rewrite Hp; exact H|].
    destruct (addColumnAt_columns raw position sh Hs) as (Hcc & _ & Hd).
    rewrite Hcc, Hd. intros row Hin f Hf.
    apply in_map_iff in Hin as (row0 & <- & Hin0). rewrite with_field_lookup.
    destruct (String.eqb_spec f (field_of_column (trim raw))) as [|Hne]; [eauto|].
    apply (H row0 Hin0). unfold allFields in *.
    apply in_app_or in Hf as [Hf|Hf]; apply in_or_app; [left; exact Hf|right].
    rewrite map_splice_in in Hf. apply splice_in_In in Hf as [Hf|Hf]; [congruence|exact Hf].
  - pose proof (deleteColumn_same colIndex confirmed sh) as Hsame.
    destruct (Nat.ltb_spec colIndex 9) as [Hlt|Hge]; [rewrite Hsame by tauto; exact H|].
    destruct confirmed; [|rewrite Hsame by tauto; exact H].
    destruct (nth_error (customColumns (sheet_state sh)) (colIndex - 9)) as [name|] eqn:Hn.
    2:{ apply nth_error_None in Hn. rewrite Hsame by lia. exact H. }
    destruct (deleteColumn_columns colIndex name sh Hge Hn) as (Hcc & _ & Hd).
    assert (Hat : nth_error (allFields (customColumns (sheet_state sh))) colIndex
                  = Some (field_of_column name)).
    { unfold allFields. rewrite nth_error_app2 by (simpl; lia).
      change (length fields) with 9%nat. rewrite nth_error_map, Hn. reflexivity. }
    rewrite Hcc, Hd. intros row Hin f Hf.
    rewrite allFields_drop_index in Hf by exact Hge.
    apply in_map_iff in Hin as (row0 & <- & Hin0). rewrite without_field_lookup.
    destruct (String.eqb_spec f (field_of_column name)) as [->|Hne].
    + exfalso. exact (drop_index_NoDup_In _ _ _ Hnd Hat Hf).
    + apply (H row0 Hin0). eapply drop_index_In. exact Hf.
Qed.

(** X11.  Rows and registry stay in step.  When every row holds a member
    for every field of the registry, it still does after any run of the
    operations on rows, cells and columns: a new row comes with all
    fields, a new column is written into all rows, copies and cleared rows
    keep their members.  The deletion of a column keeps this only while
    the fields of the registry are pairwise distinct, which the run is
    asked to ensure at each deletion. *)
Theorem rows_stay_complete (ops : list SheetOp) (sh : Sheet) :
  rows_complete (customColumns (sheet_state sh)) (data (sheet_state sh)) ->
  deletes_on_distinct_fields ops sh ->
  rows_complete (customColumns (sheet_state (runSheet ops sh)))
                (data (sheet_state (runSheet ops sh))).
Proof.
  revert sh. induction ops as [|op ops IH]; intros sh H Hd; [exact H|].
  simpl. destruct Hd as [Hop Hd]. apply IH; [|exact Hd].
  apply applySheetOp_complete; [exact H|]. destruct op; try exact I. exact Hop.
Qed.

Lemma full_store_complete : rows_complete [] full_store.
Proof.
  intros row Hin f Hf. simpl in Hin, Hf.
  repeat match goal with
  | H : _ \/ _ |- _ => destruct H
  | H : False |- _ => destruct H
  end; subst; vm_compute; eauto.
Qed.

Lemma rows_stay_complete_witness :
  let ops := [SAddColumn (Some "Notes"); SAddRow "02/11/2026";
              SSetCell [] (Int 2) 9 "call back"; SDeleteColumn 9 true;
              SDuplicateRow (Int 1)] in
  rows_complete (customColumns (sheet_state (runSheet ops full_sheet)))
                (data (sheet_state (runSheet ops full_sheet))) /\
  length (data (sheet_state (runSheet ops full_sheet))) = 4%nat.
Proof.
  intros ops. split; [|reflexivity].
  apply (rows_stay_complete ops full_sheet full_store_complete).
  vm_compute. repeat split.
  repeat constructor; simpl; intuition discriminate.
Defined.

(** ** Keys of cells and the batch actions *)

Section Digits.

Lemma pretty_N_char_digit (x : N) :
  (x < 10)%N ->
  is_digit (pretty_N_char x) = true /\ digit_val (pretty_N_char x) = Z.of_N x.
Proof.
  intros H.
  assert (Hx : (x = 0 \/ x = 1 \/ x = 2 \/ x = 3 \/ x = 4 \/ x = 5 \/ x = 6 \/ x = 7
               \/ x = 8 \/ x = 9)%N) by lia.
  repeat (destruct Hx as [->|Hx]; [split; reflexivity|]). subst. split; reflexivity.
Qed.

(** Reading the digits that [pretty] wrote gives the number back. *)
Lemma read_digits_pretty_go (x : N) :
  forall acc n t,
    exists k, 0 <= k /\ ((0 < x)%N -> 0 < k) /\
      read_digits acc n (pretty_N_go x t)
      = read_digits (acc * 10 ^ k + Z.of_N x) (n + k) t.
Proof.
  induction (N.lt_wf_0 x) as [x _ IH]. intros acc n t.
  destruct (N.eq_dec x 0%N) as [->|Hx].
  - exists 0. rewrite pretty_N_go_0. repeat split; [lia|lia|].
    f_equal; [|lia]. simpl. lia.
  - assert (Hpos : (0 < x)%N) by lia.
    rewrite pretty_N_go_step by exact Hpos.
    destruct (IH (x `div` 10)%N ltac:(apply N.div_lt; lia) acc n
                (String (pretty_N_char (x `mod` 10)) t)) as (k & Hk0 & _ & Hk).
    exists (k + 1). repeat split; [lia|lia|].
    rewrite Hk. simpl.
    destruct (pretty_N_char_digit (x `mod` 10)%N) as [Hd Hv];
      [apply N.mod_lt; lia|].
    rewrite Hd, Hv. f_equal; [|lia].
    rewrite Z.pow_add_r by lia. rewrite N2Z.inj_div, N2Z.inj_mod.
    pose proof (Z.div_mod (Z.of_N x) 10 ltac:(lia)) as Hdm.
    change (Z.of_N 10) with 10. lia.
Qed.

Lemma pretty_N_go_digits (x : N) :
  forall t, all_digits t -> all_digits (pretty_N_go x t).
Proof.
  induction (N.lt_wf_0 x) as [x _ IH]. intros t Ht.
  destruct (N.eq_dec x 0%N) as [->|Hx]; [rewrite pretty_N_go_0; exact Ht|].
  rewrite pretty_N_go_step by lia. apply IH; [apply N.div_lt; lia|].
  intros c [<-|Hc]; [|apply Ht, Hc].
  apply pretty_N_char_digit. apply N.mod_lt. lia.
Qed.

Lemma pretty_N_digits (x : N) : all_digits (pretty x).
Proof.
  unfold pretty, pretty_N. destruct (decide (x = 0%N)).
  - intros c [<-|[]]. reflexivity.
  - apply pretty_N_go_digits. intros c [].
Qed.

Lemma read_digits_pretty_N (x : N) :
  exists k, 0 < k /\ read_digits 0 0 (pretty x) = (Z.of_N x, k, EmptyString).
Proof.
  unfold pretty, pretty_N. destruct (decide (x = 0%N)) as [->|Hx].
  - exists 1. split; [lia|reflexivity].
  - destruct (read_digits_pretty_go x 0 0 EmptyString) as (k & _ & Hk & H).
    exists k. split; [apply Hk; lia|]. rewrite H.
    replace (0 * 10 ^ k + Z.of_N x) with (Z.of_N x) by lia.
    replace (0 + k) with k by lia. reflexivity.
Qed.

(** [parseInt] of a text of decimal digits only. *)
Lemma parseInt_digits (s : string) (v k : Z) :
  all_digits s -> 0 < k -> read_digits 0 0 s = (v, k, EmptyString) ->
  parseInt s = Int v.
Proof.
  intros Hd Hk Hr. destruct s as [|a s]; [simpl in Hr; injection Hr; lia|].
  assert (Ha : is_digit a = true) by (apply Hd; left; reflexivity).
  assert (Hsp : is_space a = false).
  { unfold is_digit, is_space in *. destruct (9 <=? nat_of_ascii a)%nat eqn:E1;
      destruct (nat_of_ascii a <=? 13)%nat eqn:E2;
      destruct (nat_of_ascii a =? 32)%nat eqn:E3; simpl; try reflexivity;
      apply andb_true_iff in Ha as [Ha1 Ha2];
      apply Nat.leb_le in Ha1; try apply Nat.leb_le in E2; try apply Nat.eqb_eq in E3; lia. }
  assert (Hne : forall c, is_digit c = false -> Ascii.eqb a c = false).
  { intros c Hc. destruct (Ascii.eqb_spec a c) as [->|]; congruence. }
  unfold parseInt. simpl trimStart. rewrite Hsp. unfold read_sign.
  rewrite (Hne "-"%char eq_refl), (Hne "+"%char eq_refl).
  assert (Hx : startsWith (String a s) "0x" = false /\ startsWith (String a s) "0X" = false).
  { split.
    - destruct (startsWith (String a s) "0x") eqn:E; [|reflexivity].
      apply startsWith_spec in E as [c E]. rewrite E in Hd.
      discriminate (Hd "x"%char (or_intror (or_introl eq_refl))).
    - destruct (startsWith (String a s) "0X") eqn:E; [|reflexivity].
      apply startsWith_spec in E as [c E]. rewrite E in Hd.
      discriminate (Hd "X"%char (or_intror (or_introl eq_refl))). }
  destruct Hx as [-> ->]. simpl orb. cbv iota. rewrite Hr.
  destruct (Z.eqb_spec k 0); [lia|reflexivity].
Qed.

Lemma parseInt_pretty_N (x : N) : parseInt (pretty x) = Int (Z.of_N x).
Proof.
  destruct (read_digits_pretty_N x) as (k & Hk & Hr).
  exact (parseInt_digits _ _ k (pretty_N_digits x) Hk Hr).
Qed.

(** The first part of [s + "-" + rest] is [s] when [s] has no dash. *)
Lemma split_dash_head (s rest : string) :
  ~ In dash (list_ascii_of_string s) ->
  exists parts, split dash (s ++ String dash rest)%string = s :: parts.
Proof.
  induction s as [|a s IH]; intros Hno.
  - simpl. eexists. reflexivity.
  - simpl in Hno. simpl.
    destruct (Ascii.eqb_spec a dash) as [->|Hne]; [tauto|].
    destruct IH as [parts ->]; [tauto|]. eexists. reflexivity.
Qed.

Lemma all_digits_no_dash (s : string) :
  all_digits s -> ~ In dash (list_ascii_of_string s).
Proof. intros H Hin. apply H in Hin. discriminate Hin. Qed.

End Digits.

Lemma pretty_Z_nonneg (z : Z) : 0 <= z -> pretty z = pretty (Z.to_N z).
Proof. intros H. destruct z as [|p|p]; [reflexivity|reflexivity|lia]. Qed.

Lemma row_of_cellId_nonneg (z : Z) (colIndex : nat) :
  0 <= z -> row_of_cellId (cellId (Int z) colIndex) = Int z.
Proof.
  intros Hz. unfold row_of_cellId, cellId. simpl num_to_string.
  rewrite (pretty_Z_nonneg z Hz).
  destruct (split_dash_head (pretty (Z.to_N z)) (pretty colIndex)) as [parts Hp].
  { apply all_digits_no_dash, pretty_N_digits. }
  change ("-" ++ pretty colIndex)%string with (String dash (pretty colIndex)).
  rewrite Hp. simpl hd. rewrite parseInt_pretty_N. f_equal. lia.
Qed.

(** X12.  The key of a cell and the row id read back from it.  The batch
    actions read the row of a selected cell as [parseInt] of the text
    before the first dash of its key.  For an id that is a non-negative
    integer this is the id again.  For a negative id and for [-Infinity]
    the key starts with a dash, the text before it is empty and the
    result is [NaN]; the key of [NaN] reads as [NaN] too. *)
Theorem cellId_round_trip (rowId : num) (colIndex : nat) :
  row_of_cellId (cellId rowId colIndex)
  = match rowId with
    | Int z => if 0 <=? z then Int z else NaN
    | _ => NaN
    end.
Proof.
  destruct rowId as [| |z]; try reflexivity.
  destruct (Z.leb_spec 0 z) as [Hz|Hz].
  - apply row_of_cellId_nonneg. exact Hz.
  - destruct z as [|p|p]; try lia. reflexivity.
Qed.

Lemma split_head_no_dash (c : string) :
  ~ In dash (list_ascii_of_string (hd EmptyString (split dash c))).
Proof.
  induction c as [|a c IH]; simpl; [tauto|].
  destruct (Ascii.eqb_spec a dash) as [->|Hne]; simpl; [tauto|].
  destruct (split dash c) as [|w ws]; simpl in *; intuition congruence.
Qed.

Lemma trimStart_In (s : string) (c : ascii) :
  In c (list_ascii_of_string (trimStart s)) -> In c (list_ascii_of_string s).
Proof.
  induction s as [|a s IH]; simpl; [tauto|].
  destruct (is_space a); simpl; tauto.
Qed.

Lemma read_digits_nonneg (s : string) (acc n : Z) :
  0 <= acc -> 0 <= fst (fst (read_digits acc n s)).
Proof.
  revert acc n. induction s as [|c s IH]; intros acc n H; simpl; [exact H|].
  destruct (is_digit c); [|exact H]. apply IH. unfold digit_val. lia.
Qed.

Lemma read_hex_nonneg (s : string) (acc n : Z) :
  0 <= acc -> 0 <= fst (read_hex acc n s).
Proof.
  revert acc n. induction s as [|c s IH]; intros acc n H; simpl; [exact H|].
  destruct (hex_val c) as [v|] eqn:Hv; [|exact H]. apply IH.
  assert (0 <= v); [|lia]. unfold hex_val in Hv.
  repeat match type of Hv with
  | (if ?b then _ else _) = _ => destruct b
  end; inversion Hv; lia.
Qed.

(** [parseInt] of a text without a dash is never negative. *)
Lemma parseInt_no_dash (s : string) :
  ~ In dash (list_ascii_of_string s) ->
  parseInt s = NaN \/ exists v, 0 <= v /\ parseInt s = Int v.
Proof.
  intros Hno. unfold parseInt.
  assert (Ht : ~ In dash (list_ascii_of_string (trimStart s)))
    by (intros H; apply Hno, trimStart_In, H).
  destruct (read_sign (trimStart s)) as [neg t1] eqn:Hsign.
  assert (Hneg : neg = false).
  { unfold read_sign in Hsign. destruct (trimStart s) as [|c r]; [congruence|].
    destruct (Ascii.eqb_spec c "-"%char) as [->|_].
    - exfalso. apply Ht. left. reflexivity.
    - destruct (Ascii.eqb c "+"%char); congruence. }
  subst neg.
  destruct (startsWith t1 "0x" || startsWith t1 "0X").
  - pose proof (read_hex_nonneg (String.substring 2 (String.length t1 - 2) t1) 0 0
                  ltac:(lia)) as Hv.
    destruct (read_hex 0 0 _) as [v n]. simpl in Hv.
    destruct (n =? 0); [left; reflexivity | right; eauto].
  - pose proof (read_digits_nonneg t1 0 0 ltac:(lia)) as Hv.
    destruct (read_digits 0 0 t1) as [[v n] r]. simpl in Hv.
    destruct (n =? 0); [left; reflexivity | right; eauto].
Qed.

Lemma unique_In (xs : list num) (y : num) : In y (unique xs) -> In y xs.
Proof.
  unfold unique.
  assert (H : forall acc, In y (fold_left
                (fun acc x => if includes_num acc x then acc else acc ++ [x]) xs acc) ->
              In y acc \/ In y xs).
  { induction xs as [|x xs IH]; intros acc Hin; simpl in *; [tauto|].
    apply IH in Hin as [Hin|Hin]; [|tauto].
    destruct (includes_num acc x); [tauto|].
    apply in_app_or in Hin as [Hin|[<-|[]]]; tauto. }
  intros Hin. apply H in Hin as [[]|Hin]. exact Hin.
Qed.

Lemma unique_includes (xs : list num) (y : num) :
  In y xs -> includes_num (unique xs) y = true.
Proof.
  unfold unique.
  assert (Hstep : forall acc x z, includes_num acc z = true ->
            includes_num (if includes_num acc x then acc else acc ++ [x]) z = true).
  { intros acc x z Hz. destruct (includes_num acc x); [exact Hz|].
    unfold includes_num in *. rewrite existsb_app, Hz. reflexivity. }
  assert (H : forall acc, includes_num acc y = true \/ In y xs ->
              includes_num (fold_left
                (fun acc x => if includes_num acc x then acc else acc ++ [x]) xs acc) y
              = true).
  { induction xs as [|x xs IH]; intros acc Hin; simpl in *; [tauto|].
    apply IH. destruct Hin as [Hin|[->|Hin]]; [left; apply Hstep, Hin| |tauto].
    left. destruct (includes_num acc y) eqn:E; [exact E|].
    unfold includes_num. rewrite existsb_app. simpl.
    rewrite same_value_zero_refl, orb_true_r. reflexivity. }
  intros Hin. apply H. right. exact Hin.
Qed.

(** X13.  A row whose id is negative or [-Infinity] is out of reach of the
    batch actions.  The ids read from the keys of the multi-selection are
    never negative, so whatever is selected, the id of such a row is not
    among them: the batch delete keeps the row, the batch clear and the
    batch duplicate leave it where and as it is.  A row added to an
    emptied store has such an id ([-Infinity]). *)
Theorem batch_actions_skip_negative_ids (confirmed : bool)
    (st : State) (i : nat) (row : SpreadsheetRow) :
  nth_error (data st) i = Some row ->
  id row = NegInf \/ (exists z, id row = Int z /\ z < 0) ->
  includes_num (uniqueRowIds st) (id row) = false /\
  In row (data (handleBatchAction deleteRows confirmed st)) /\
  nth_error (data (handleBatchAction duplicateRows confirmed st)) i = Some row /\
  nth_error (data (handleBatchAction clearRows confirmed st)) i = Some row.
Proof.
  intros Hi Hid.
  assert (Hno : includes_num (uniqueRowIds st) (id row) = false).
  { destruct (includes_num (uniqueRowIds st) (id row)) eqn:E; [|reflexivity].
    exfalso. unfold includes_num in E. apply existsb_exists in E as (y & Hy & Hsv).
    unfold uniqueRowIds in Hy. apply unique_In in Hy.
    apply in_map_iff in Hy as (c & <- & _).
    destruct (parseInt_no_dash _ (split_head_no_dash c)) as [Hp|(v & Hv & Hp)];
      unfold row_of_cellId in Hsv; rewrite Hp in Hsv;
      destruct Hid as [Hr|(z & Hr & Hz)]; rewrite Hr in Hsv; simpl in Hsv;
      try discriminate Hsv.
    apply Z.eqb_eq in Hsv. lia. }
  repeat apply conj.
  - exact Hno.
  - simpl. destruct confirmed; simpl; [|eapply nth_error_In; exact Hi].
    unfold batchDeleteRows. apply filter_In. split; [eapply nth_error_In; exact Hi|].
    rewrite Hno. reflexivity.
  - simpl. unfold batchDuplicateRows. rewrite nth_error_app1; [exact Hi|].
    apply nth_error_Some. congruence.
  - simpl. unfold batchClearRows. rewrite nth_error_map, Hi. simpl. rewrite Hno. reflexivity.
Qed.

Lemma batch_actions_skip_negative_ids_witness :
  data orphan_state = [newRow NegInf "02/11/2026" []] /\
  includes_num (uniqueRowIds orphan_state) NegInf = false /\
  In (newRow NegInf "02/11/2026" []) (data (handleBatchAction deleteRows true orphan_state)) /\
  nth_error (data (handleBatchAction duplicateRows true orphan_state)) 0
  = Some (newRow NegInf "02/11/2026" []) /\
  nth_error (data (handleBatchAction clearRows true orphan_state)) 0
  = Some (newRow NegInf "02/11/2026" []).
Proof.
  split; [reflexivity|].
  exact (batch_actions_skip_negative_ids true orphan_state 0
           (newRow NegInf "02/11/2026" []) eq_refl (or_introl eq_refl)).
Defined.

(** ** The multi-selection *)

Lemma set_add_In (x : string) (s : list string) (k : string) :
  In k (set_add x s) <-> In k s \/ k = x.
Proof.
  unfold set_add. destruct (includes_str s x) eqn:E.
  - apply includes_str_In in E. split; [tauto|]. intros [H| ->]; assumption.
  - rewrite in_app_iff. simpl. intuition congruence.
Qed.

Lemma set_add_NoDup (x : string) (s : list string) :
  List.NoDup s -> List.NoDup (set_add x s).
Proof.
  intros H. unfold set_add. destruct (includes_str s x) eqn:E; [exact H|].
  apply List.NoDup_app.
  - exact H.
  - repeat constructor. intros [].
  - intros k Hk [<-|[]]. apply includes_str_In in Hk. congruence.
Qed.

Lemma set_delete_In (x : string) (s : list string) (k : string) :
  In k (set_delete x s) <-> In k s /\ k <> x.
Proof.
  unfold set_delete. rewrite filter_In.
  destruct (String.eqb_spec x k); simpl; intuition congruence.
Qed.

Lemma includes_str_iff (s s' : list string) (k k' : string) :
  (In k s <-> In k' s') -> includes_str s k = includes_str s' k'.
Proof.
  intros H. destruct (includes_str s k) eqn:E, (includes_str s' k') eqn:E';
    try reflexivity.
  - apply includes_str_In, H, includes_str_In in E. congruence.
  - apply includes_str_In, H, includes_str_In in E'. congruence.
Qed.

(** X14.  A click with [Ctrl] or [Meta] toggles the clicked cell in the
    multi-selection: its membership flips and that of every other cell
    stays, so a second such click on the cell restores the selection; the
    multi-select mode is on exactly when the selection is not empty, and
    the selected cell is not moved.  A plain click selects the cell,
    empties the multi-selection and ends the mode. *)
Theorem handleCellSelection_toggle (rowId : num) (colIndex : nat) (st : State) :
  let c := cellId rowId colIndex in
  let st1 := handleCellSelection rowId colIndex true st in
  let st2 := handleCellSelection rowId colIndex true st1 in
  let st0 := handleCellSelection rowId colIndex false st in
  (forall k, includes_str (selectedCells st1) k
             = if String.eqb k c then negb (includes_str (selectedCells st) c)
               else includes_str (selectedCells st) k) /\
  (forall k, includes_str (selectedCells st2) k = includes_str (selectedCells st) k) /\
  isMultiSelect st1 = match selectedCells st1 with [] => false | _ => true end /\
  selectedCell st1 = selectedCell st /\
  data st1 = data st /\
  selectedCell st0 = Some (mkCell rowId colIndex) /\
  selectedCells st0 = [] /\
  isMultiSelect st0 = false.
Proof.
  intros c st1 st2 st0.
  assert (Hflip : forall s k,
            includes_str (if includes_str s c then set_delete c s else set_add c s) k
            = if String.eqb k c then negb (includes_str s c) else includes_str s k).
  { intros s k. destruct (includes_str s c) eqn:E.
    - destruct (String.eqb_spec k c) as [->|Hne]; simpl.
      + destruct (includes_str (set_delete c s) c) eqn:E'; [|reflexivity].
        apply includes_str_In, set_delete_In in E'. tauto.
      + apply includes_str_iff. rewrite set_delete_In. tauto.
    - destruct (String.eqb_spec k c) as [->|Hne]; simpl.
      + apply includes_str_In, set_add_In. tauto.
      + apply includes_str_iff. rewrite set_add_In. tauto. }
  repeat apply conj; try reflexivity.
  - intros k. apply Hflip.
  - intros k. unfold st2. simpl. fold c. rewrite Hflip. unfold st1. simpl. fold c.
    rewrite !Hflip. destruct (String.eqb_spec k c) as [->|Hne]; [|reflexivity].
    rewrite String.eqb_refl. apply negb_involutive.
  - unfold st1. simpl. fold c.
    destruct (if includes_str (selectedCells st) c
              then set_delete c (selectedCells st) else set_add c (selectedCells st));
      reflexivity.
Qed.

Lemma fold_set_add_In {A : Type} (g : A -> string) (xs : list A) (acc : list string)
    (k : string) :
  In k (fold_left (fun acc x => set_add (g x) acc) xs acc)
  <-> In k acc \/ exists x, In x xs /\ k = g x.
Proof.
  revert acc. induction xs as [|x xs IH]; intros acc; simpl.
  - split; [tauto|]. intros [H|(x & [] & _)]. exact H.
  - rewrite IH, set_add_In. split.
    + intros [[H|H]|(y & Hy & Hk)].
      * left. exact H.
      * right. exists x. split; [left; reflexivity | exact H].
      * right. exists y. split; [right; exact Hy | exact Hk].
    + intros [H|(y & [<-|Hy] & Hk)].
      * left. left. exact H.
      * left. right. exact Hk.
      * right. exists y. split; [exact Hy | exact Hk].
Qed.

Lemma fold_set_add_NoDup {A : Type} (g : A -> string) (xs : list A) (acc : list string) :
  List.NoDup acc -> List.NoDup (fold_left (fun acc x => set_add (g x) acc) xs acc).
Proof.
  revert acc. induction xs as [|x xs IH]; intros acc H; simpl; [exact H|].
  apply IH, set_add_NoDup, H.
Qed.

Lemma all_cell_keys_spec (view : list SpreadsheetRow) (vf : list string) (k : string) :
  In k (all_cell_keys view vf)
  <-> exists row i, In row view /\ (i < length vf)%nat /\ k = cellId (id row) i.
Proof.
  unfold all_cell_keys.
  assert (H : forall acc,
            In k (fold_left
                    (fun allCells row =>
                       fold_left (fun allCells colIndex =>
                                    set_add (cellId (id row) colIndex) allCells)
                                 (seq 0 (length vf)) allCells) view acc)
            <-> In k acc \/
                exists row i, In row view /\ (i < length vf)%nat /\ k = cellId (id row) i).
  { induction view as [|r view IH]; intros acc; simpl.
    - split; [tauto|]. intros [H|(row & i & [] & _)]. exact H.
    - rewrite IH, (fold_set_add_In (cellId (id r))). split.
      + intros [[H|(i & Hi & Hk)]|(row & i & Hrow & Hi & Hk)].
        * left. exact H.
        * apply in_seq in Hi. right. exists r, i.
          repeat split; [left; reflexivity | lia | exact Hk].
        * right. exists row, i. repeat split; [right; exact Hrow | exact Hi | exact Hk].
      + intros [H|(row & i & [<-|Hrow] & Hi & Hk)].
        * left. left. exact H.
        * left. right. exists i. split; [apply in_seq; lia | exact Hk].
        * right. exists row, i. tauto. }
  rewrite H. simpl. split; [intros [[]|Hx]; exact Hx | tauto].
Qed.

(** X15.  [selectAll] puts into the multi-selection the key of every cell
    on display, one for each row of the processed data and each index of
    a visible field, each key once, and nothing else: rows that the
    filter leaves out and hidden columns contribute no key.  It turns the
    multi-select mode on even when there is no cell to select, and leaves
    the store and the selected cell alone. *)
Theorem selectAll_keys (view : list SpreadsheetRow) (vf : list string) (st : State) :
  let st' := selectAll view vf st in
  (forall k, In k (selectedCells st')
             <-> exists row i, In row view /\ (i < length vf)%nat /\
                               k = cellId (id row) i) /\
  List.NoDup (selectedCells st') /\
  isMultiSelect st' = true /\
  data st' = data st /\
  selectedCell st' = selectedCell st.
Proof.
  intros st'. repeat apply conj; try reflexivity.
  - intros k. apply all_cell_keys_spec.
  - unfold st', selectAll, all_cell_keys. simpl.
    assert (H : forall acc, List.NoDup acc ->
              List.NoDup (fold_left
                    (fun allCells row =>
                       fold_left (fun allCells colIndex =>
                                    set_add (cellId (id row) colIndex) allCells)
                                 (seq 0 (length vf)) allCells) view acc)).
    { induction view as [|r view IH]; intros acc Hacc; simpl; [exact Hacc|].
      apply IH. apply (fold_set_add_NoDup (cellId (id r))). exact Hacc. }
    apply H. constructor.
Qed.

Lemma includes_num_In (xs : list num) (z : Z) :
  includes_num xs (Int z) = true <-> In (Int z) xs.
Proof.
  unfold includes_num. rewrite existsb_exists. split.
  - intros (y & Hy & Hsv). destruct y as [| |w]; simpl in Hsv; try discriminate.
    apply Z.eqb_eq in Hsv. subst. exact Hy.
  - intros H. exists (Int z). split; [exact H | apply same_value_zero_refl].
Qed.

(** X16.  Select all, then delete.  When the rows on display have
    non-negative integer ids and at least one field is visible, the batch
    delete that follows [selectAll] removes from the store exactly the
    rows whose id is on display and keeps the rows that the filter left
    out.  The multi-selection is empty afterwards, but the multi-select
    mode stays on. *)
Theorem selectAll_then_delete (view : list SpreadsheetRow) (vf : list string) (st : State) :
  vf <> [] ->
  (forall row, In row view -> exists z, id row = Int z /\ 0 <= z) ->
  let st' := handleBatchAction deleteRows true (selectAll view vf st) in
  (forall row, In row (data st')
               <-> In row (data st) /\ includes_num (ids view) (id row) = false) /\
  sublist (data st') (data st) /\
  selectedCells st' = [] /\
  isMultiSelect st' = true.
Proof.
  intros Hvf Hids st'.
  assert (Hsame : forall x, includes_num (uniqueRowIds (selectAll view vf st)) x
                            = includes_num (ids view) x).
  { intros x.
    destruct (includes_num (ids view) x) eqn:E.
    - unfold includes_num in E. apply existsb_exists in E as (y & Hy & Hsv).
      unfold ids in Hy. apply in_map_iff in Hy as (r & <- & Hr).
      destruct (Hids r Hr) as (z & Hz & Hz0).
      assert (Hx : x = Int z).
      { rewrite Hz in Hsv. destruct x as [| |w]; simpl in Hsv; try discriminate.
        apply Z.eqb_eq in Hsv. congruence. }
      subst x. apply unique_includes. apply in_map_iff.
      exists (cellId (id r) 0). split.
      + rewrite Hz. apply row_of_cellId_nonneg. exact Hz0.
      + apply all_cell_keys_spec. exists r, 0%nat. repeat split; [exact Hr|].
        destruct vf; [congruence|simpl; lia].
    - destruct (includes_num (uniqueRowIds (selectAll view vf st)) x) eqn:E';
        [|reflexivity].
      exfalso. unfold includes_num in E'. apply existsb_exists in E' as (y & Hy & Hsv).
      unfold uniqueRowIds in Hy. apply unique_In in Hy.
      apply in_map_iff in Hy as (c & <- & Hc).
      apply all_cell_keys_spec in Hc as (r & i & Hr & _ & ->).
      destruct (Hids r Hr) as (z & Hz & Hz0).
      assert (Hin : includes_num (ids view) x = true); [|congruence].
      unfold includes_num. apply existsb_exists. exists (id r).
      split; [apply in_map; exact Hr|].
      rewrite Hz in Hsv |- *. rewrite row_of_cellId_nonneg in Hsv by exact Hz0.
      exact Hsv. }
  repeat apply conj; try reflexivity.
  - intros row. unfold st'. simpl. unfold batchDeleteRows. rewrite filter_In, Hsame.
    destruct (includes_num (ids view) (id row)); simpl; intuition congruence.
  - unfold st'. simpl. apply filter_sublist.
Qed.

Lemma selectAll_then_delete_witness :
  let view := filter_stage (filter_props FilterPriority "High") sample_store in
  let st' := handleBatchAction deleteRows true (selectAll view fields selected_state) in
  ids view = [Int 2] /\
  ids (data st') = [Int 1; Int 5] /\
  (forall row, In row (data st')
               <-> In row sample_store /\ includes_num (ids view) (id row) = false) /\
  sublist (data st') sample_store /\
  selectedCells st' = [] /\
  isMultiSelect st' = true.
Proof.
  intros view st'. split; [reflexivity|]. split; [vm_compute; reflexivity|].
  apply (selectAll_then_delete view fields selected_state); [discriminate|].
  intros row [<-|[]]. exists 2. split; [reflexivity|lia].
Defined.

(** ** Keyboard navigation *)

Section FindIndex.

Context {A : Type} (p : A -> bool).

Lemma findIndex_range (l : list A) : -1 <= findIndex p l < Z.of_nat (length l).
Proof.
  induction l as [|x l IH]; simpl; [lia|].
  destruct (p x); [lia|]. destruct (Z.ltb_spec (findIndex p l) 0); lia.
Qed.

Lemma findIndex_none (l : list A) :
  (forall y, In y l -> p y = false) -> findIndex p l = -1.
Proof.
  induction l as [|x l IH]; intros H; simpl; [reflexivity|].
  rewrite (H x (or_introl eq_refl)), IH; [reflexivity|].
  intros y Hy. apply H. right. exact Hy.
Qed.

Lemma findIndex_first (l1 l2 : list A) (x : A) :
  (forall y, In y l1 -> p y = false) -> p x = true ->
  findIndex p (l1 ++ x :: l2) = Z.of_nat (length l1).
Proof.
  induction l1 as [|a l1 IH]; intros H Hx; simpl.
  - rewrite Hx. reflexivity.
  - rewrite (H a (or_introl eq_refl)), IH; [|intros y Hy; apply H; right; exact Hy|exact Hx].
    destruct (Z.ltb_spec (Z.of_nat (length l1)) 0); lia.
Qed.

End FindIndex.

Lemma strict_eq_Int_refl (a : num) : is_Int a -> strict_eq a a = true.
Proof. destruct a; simpl; try contradiction. intros _. apply Z.eqb_refl. Qed.

Lemma strict_eq_eq (a b : num) : strict_eq a b = true -> a = b.
Proof.
  destruct a, b; simpl; try discriminate; try reflexivity.
  intros H. apply Z.eqb_eq in H. congruence.
Qed.

(** In a view with distinct integer ids the row is found where it is. *)
Lemma findIndex_row (l1 l2 : list SpreadsheetRow) (r : SpreadsheetRow) :
  List.NoDup (ids (l1 ++ r :: l2)) -> is_Int (id r) ->
  findIndex (fun row => strict_eq (id row) (id r)) (l1 ++ r :: l2)
  = Z.of_nat (length l1).
Proof.
  intros Hnd Hint. apply findIndex_first; [|apply strict_eq_Int_refl, Hint].
  intros y Hy. destruct (strict_eq (id y) (id r)) eqn:E; [|reflexivity].
  exfalso. apply strict_eq_eq in E.
  rewrite ids_app in Hnd. simpl in Hnd. apply List.NoDup_remove_2 in Hnd.
  apply Hnd. apply in_or_app. left. rewrite <- E. apply in_map. exact Hy.
Qed.

(** X17.  Moving between neighbours.  In a view with distinct integer ids,
    [ArrowDown] on a row that is followed by another selects that next
    row in the same column, and [ArrowUp] from there selects the first
    row again: the two moves cancel.  Neither touches the store, the
    registry or the widths. *)
Theorem navigate_down_then_up (today : string) (answer : option string)
    (l1 l2 : list SpreadsheetRow) (r1 r2 : SpreadsheetRow)
    (vf : list string) (col : nat) (sh : Sheet) :
  let view := l1 ++ r1 :: r2 :: l2 in
  List.NoDup (ids view) -> Forall is_Int (ids view) ->
  selectedCell (sheet_state sh) = Some (mkCell (id r1) col) ->
  let sh1 := navigateCell dir_down today answer view vf sh in
  let sh2 := navigateCell dir_up today answer view vf sh1 in
  sh1 = set_selectedCell (Some (mkCell (id r2) col)) sh /\
  sh2 = set_selectedCell (Some (mkCell (id r1) col)) sh.
Proof.
  intros view Hnd Hint Hsel sh1 sh2.
  assert (Hi1 : is_Int (id r1)).
  { rewrite Forall_forall in Hint. apply Hint. unfold view. rewrite ids_app.
    apply list_elem_of_In, in_or_app. right. left. reflexivity. }
  assert (Hi2 : is_Int (id r2)).
  { rewrite Forall_forall in Hint. apply Hint. unfold view. rewrite ids_app.
    apply list_elem_of_In, in_or_app. right. right. left. reflexivity. }
  assert (Hf1 : findIndex (fun row => strict_eq (id row) (id r1)) view
                = Z.of_nat (length l1)).
  { apply findIndex_row; assumption. }
  assert (Hf2 : findIndex (fun row => strict_eq (id row) (id r2)) view
                = Z.of_nat (length l1) + 1).
  { unfold view. change (l1 ++ r1 :: r2 :: l2) with (l1 ++ [r1] ++ r2 :: l2).
    rewrite app_assoc. rewrite findIndex_row.
    - rewrite length_app. simpl. lia.
    - rewrite <- app_assoc. exact Hnd.
    - exact Hi2. }
  assert (Hlen : length view = (length l1 + S (S (length l2)))%nat).
  { unfold view. rewrite length_app. reflexivity. }
  assert (H1 : sh1 = set_selectedCell (Some (mkCell (id r2) col)) sh).
  { unfold sh1, navigateCell. rewrite Hsel. cbn [cell_row cell_col]. rewrite Hf1.
    destruct (Z.ltb_spec (Z.of_nat (length l1)) (Z.of_nat (length view) - 1)); [|lia].
    unfold id_at. replace (Z.to_nat (Z.of_nat (length l1) + 1)) with (length l1 + 1)%nat by lia.
    unfold view. rewrite nth_error_app2 by lia.
    replace (length l1 + 1 - length l1)%nat with 1%nat by lia. reflexivity. }
  split; [exact H1|].
  unfold sh2, navigateCell. rewrite H1. cbn [set_selectedCell sheet_state selectedCell cell_row cell_col].
  rewrite Hf2. destruct (Z.ltb_spec 0 (Z.of_nat (length l1) + 1)); [|lia].
  unfold id_at. replace (Z.to_nat (Z.of_nat (length l1) + 1 - 1)) with (length l1) by lia.
  unfold view. rewrite nth_error_app2 by lia. rewrite Nat.sub_diag. reflexivity.
Qed.

Lemma navigate_down_then_up_witness :
  let sh := set_selectedCell (Some (mkCell (Int 1) 3)) plain_sheet in
  navigateCell dir_down "02/11/2026" None sample_store fields sh
  = set_selectedCell (Some (mkCell (Int 2) 3)) sh /\
  navigateCell dir_up "02/11/2026" None sample_store fields
    (navigateCell dir_down "02/11/2026" None sample_store fields sh)
  = set_selectedCell (Some (mkCell (Int 1) 3)) sh.
Proof.
  intros sh.
  refine (navigate_down_then_up "02/11/2026" None [] (skipn 2 sample_store)
            (nth 0 sample_store due_none) (nth 1 sample_store due_none)
            fields 3 sh _ _ eq_refl).
  - repeat constructor; simpl; intuition discriminate.
  - repeat constructor.
Defined.

Lemma nextId_strict_eq (d : list SpreadsheetRow) :
  Forall is_Int (ids d) -> strict_eq (nextId d) (nextId d) = true.
Proof.
  intros H. destruct d as [|r d].
  - reflexivity.
  - destruct (nextId_fresh (r :: d) H ltac:(discriminate)) as (m & -> & _).
    simpl. apply Z.eqb_refl.
Qed.



(** X19.  Moves that do not find a neighbour.  [ArrowLeft] in the first
    column and [ArrowUp] on the first row on display, or on a row that is
    not on display, leave the selection where it is.  [ArrowDown] from a
    row that is not on display selects the first row on display.
    [ArrowRight] from the last visible column asks for a new column and
    then moves one column to the right in any case: after a cancelled
    prompt the selected column is one that has no field. *)
Theorem navigate_without_neighbour (today : string) (answer : option string)
    (view : list SpreadsheetRow) (vf : list string) (c : Cell) (sh : Sheet) :
  selectedCell (sheet_state sh) = Some c ->
  let absent := forall r, In r view -> strict_eq (id r) (cell_row c) = false in
  navigateCell dir_left today answer view vf sh
  = set_selectedCell (Some (mkCell (cell_row c) (Nat.pred (cell_col c)))) sh /\
  ((forall r, In r (tl view) -> strict_eq (id r) (cell_row c) = false) ->
   navigateCell dir_up today answer view vf sh = set_selectedCell (Some c) sh) /\
  (absent -> forall r0 rest, view = r0 :: rest ->
   navigateCell dir_down today answer view vf sh
   = set_selectedCell (Some (mkCell (id r0) (cell_col c))) sh) /\
  ((length vf <= S (cell_col c))%nat ->
   navigateCell dir_right today None view vf sh
   = set_selectedCell (Some (mkCell (cell_row c) (cell_col c + 1))) sh /\
   nth_error vf (cell_col c + 1) = None).
Proof.
  intros Hsel absent. unfold navigateCell. rewrite Hsel. repeat apply conj.
  - f_equal. f_equal. f_equal. lia.
  - intros Htl.
    assert (Hle : findIndex (fun row => strict_eq (id row) (cell_row c)) view <= 0).
    { destruct view as [|r0 rest]; simpl; [lia|].
      destruct (strict_eq (id r0) (cell_row c)); [lia|].
      rewrite (findIndex_none _ rest Htl). simpl. lia. }
    destruct (Z.ltb_spec 0 (findIndex (fun row => strict_eq (id row) (cell_row c)) view));
      [lia|]. destruct c. reflexivity.
  - intros Habs r0 rest ->. rewrite (findIndex_none _ _ Habs).
    destruct (Z.ltb_spec (-1) (Z.of_nat (length (r0 :: rest)) - 1));
      [reflexivity | simpl length in *; lia].
  - intros Hlen. split; [|apply nth_error_None; lia].
    destruct (Z.ltb_spec (Z.of_nat (cell_col c)) (Z.of_nat (length vf) - 1)); [lia|].
    reflexivity.
Qed.

Lemma navigate_without_neighbour_witness :
  let sh := set_selectedCell (Some (mkCell (Int 9) 8)) plain_sheet in
  navigateCell dir_down "02/11/2026" None sample_store fields sh
  = set_selectedCell (Some (mkCell (Int 1) 8)) sh /\
  navigateCell dir_right "02/11/2026" None sample_store fields sh
  = set_selectedCell (Some (mkCell (Int 9) 9)) sh /\
  nth_error fields 9 = None.
Proof.
  intros sh.
  destruct (navigate_without_neighbour "02/11/2026" None sample_store fields
              (mkCell (Int 9) 8) sh eq_refl) as (_ & _ & Hdown & Hright).
  split; [|apply Hright; simpl; lia].
  apply (Hdown ltac:(intros r Hr; simpl in Hr;
                     repeat (destruct Hr as [<-|Hr]; [reflexivity|]); destruct Hr)
               _ _ eq_refl).
Defined.

(** ** The keyboard shortcut handler *)

Lemma addColumn_frame (answer : option string) (sh : Sheet) :
  editingCell (sheet_state (addColumn answer sh)) = editingCell (sheet_state sh) /\
  editValue (sheet_state (addColumn answer sh)) = editValue (sheet_state sh) /\
  exists extra, customColumns (sheet_state (addColumn answer sh))
                = customColumns (sheet_state sh) ++ extra /\ (length extra <= 1)%nat.
Proof.
  unfold addColumn. destruct (prompted_name answer) as [name|]; simpl.
  - repeat split. exists [name]. split; [reflexivity|simpl; lia].
  - repeat split. exists []. split; [symmetry; apply app_nil_r|simpl; lia].
Qed.

Lemma navigateCell_frame (direction : Direction) (today : string) (answer : option string)
    (view : list SpreadsheetRow) (vf : list string) (sh : Sheet) :
  let sh' := navigateCell direction today answer view vf sh in
  editingCell (sheet_state sh') = editingCell (sheet_state sh) /\
  editValue (sheet_state sh') = editValue (sheet_state sh) /\
  exists extra, customColumns (sheet_state sh')
                = customColumns (sheet_state sh) ++ extra /\ (length extra <= 1)%nat.
Proof.
  assert (Hsame : forall c, editingCell (sheet_state (set_selectedCell c sh))
                            = editingCell (sheet_state sh) /\
                            editValue (sheet_state (set_selectedCell c sh))
                            = editValue (sheet_state sh) /\
                            exists extra, customColumns (sheet_state (set_selectedCell c sh))
                                          = customColumns (sheet_state sh) ++ extra /\
                                          (length extra <= 1)%nat).
  { intros c. repeat split. exists []. split; [symmetry; apply app_nil_r|simpl; lia]. }
  unfold navigateCell. destruct (selectedCell (sheet_state sh)) as [c|].
  2:{ repeat split. exists []. split; [symmetry; apply app_nil_r|simpl; lia]. }
  destruct direction; cbv zeta.
  - apply Hsame.
  - destruct (_ <? _); [apply Hsame|].
    repeat split. exists []. split; [symmetry; apply app_nil_r|simpl; lia].
  - apply Hsame.
  - destruct (_ <? _); [apply Hsame|]. exact (addColumn_frame answer sh).
Qed.

(** X20.  What no key does.  The shortcut handler never starts, ends or
    alters an edit, and never removes a custom column (it adds at most
    one).  While a cell is being edited it ignores every key.  With no
    cell selected and [Ctrl] up, no key has any effect: the arrows,
    [Delete], [Enter], [Tab] and [Escape] all act on the selected cell
    only, so [Escape] does not empty a multi-selection on its own. *)
Theorem handleKeyDown_frame (e : KeyEvent) (today : string) (answer : option string)
    (P : Props) (view : list SpreadsheetRow) (sh : Sheet) :
  let st := sheet_state sh in
  let sh' := handleKeyDown e today answer P view sh in
  editingCell (sheet_state sh') = editingCell st /\
  editValue (sheet_state sh') = editValue st /\
  (exists extra, customColumns (sheet_state sh') = customColumns st ++ extra /\
                 (length extra <= 1)%nat) /\
  (editingCell st <> None -> sh' = sh) /\
  (selectedCell st = None -> ev_ctrl e = false -> sh' = sh).
Proof.
  intros st sh'.
  assert (Hid : forall s : Sheet,
            editingCell (sheet_state s) = editingCell (sheet_state s) /\
            editValue (sheet_state s) = editValue (sheet_state s) /\
            exists extra, customColumns (sheet_state s)
                          = customColumns (sheet_state s) ++ extra /\
                          (length extra <= 1)%nat).
  { intros s. repeat split. exists []. split; [symmetry; apply app_nil_r|simpl; lia]. }
  assert (Hframe : editingCell (sheet_state sh') = editingCell st /\
                   editValue (sheet_state sh') = editValue st /\
                   exists extra, customColumns (sheet_state sh') = customColumns st ++ extra /\
                                 (length extra <= 1)%nat).
  { unfold sh', handleKeyDown. fold st.
    destruct (editingCell st) eqn:Hedit; [rewrite <- Hedit; apply Hid|].
    rewrite <- Hedit.
    destruct (ev_ctrl e && ev_shift e).
    - destruct (String.eqb _ "R"); [apply Hid|].
      destruct (String.eqb _ "C"); [apply addColumn_frame | apply Hid].
    - assert (Hk : forall s : Sheet,
                editingCell (sheet_state s) = editingCell st /\
                editValue (sheet_state s) = editValue st /\
                (exists extra, customColumns (sheet_state s) = customColumns st ++ extra /\
                               (length extra <= 1)%nat) ->
                editingCell (sheet_state
                   (if ev_ctrl e && String.eqb (ev_key e) "a"
                    then on_state (selectAll view (visible P st)) s else s))
                = editingCell st /\
                editValue (sheet_state
                   (if ev_ctrl e && String.eqb (ev_key e) "a"
                    then on_state (selectAll view (visible P st)) s else s))
                = editValue st /\
                (exists extra,
                   customColumns (sheet_state
                     (if ev_ctrl e && String.eqb (ev_key e) "a"
                      then on_state (selectAll view (visible P st)) s else s))
                   = customColumns st ++ extra /\ (length extra <= 1)%nat)).
      { intros s Hs. destruct (ev_ctrl e && String.eqb (ev_key e) "a"); exact Hs. }
      apply Hk. destruct (selectedCell st) as [c|]; [|apply Hid].
      repeat match goal with
      | |- context [if ?b then _ else _] => destruct b
      end;
      first [ apply navigateCell_frame | apply Hid ]. }
  destruct Hframe as (H1 & H2 & H3). repeat apply conj; try assumption.
  - intros Hedit. unfold sh', handleKeyDown. fold st.
    destruct (editingCell st); [reflexivity|congruence].
  - intros Hsel Hctrl. unfold sh', handleKeyDown. fold st.
    rewrite Hsel, Hctrl. simpl. destruct (editingCell st); reflexivity.
Qed.

(** ** The filter and sort pipeline *)

Lemma filter_app_stage (P : Props) (d1 d2 : list SpreadsheetRow) :
  filter_stage P (d1 ++ d2) = filter_stage P d1 ++ filter_stage P d2.
Proof.
  unfold filter_stage. destruct (filterField P); [|reflexivity].
  destruct (nonempty (filterValue P)); [apply List.filter_app | reflexivity].
Qed.

(** X21.  The filter stage decides row by row.  Its result is the store
    with some rows left out, the others in their order; filtering the
    result again changes nothing; the rows kept of two stores put end to
    end are the rows kept of each; and without a filter field, or with
    the empty filter value, every row is kept. *)
Theorem filter_stage_rowwise (P : Props) (d d2 : list SpreadsheetRow) :
  sublist (filter_stage P d) d /\
  filter_stage P (filter_stage P d) = filter_stage P d /\
  filter_stage P (d ++ d2) = filter_stage P d ++ filter_stage P d2 /\
  (filterField P = None \/ filterValue P = EmptyString -> filter_stage P d = d).
Proof.
  repeat apply conj.
  - unfold filter_stage. destruct (filterField P); [|reflexivity].
    destruct (nonempty (filterValue P)); [apply filter_sublist | reflexivity].
  - unfold filter_stage. destruct (filterField P); [|reflexivity].
    destruct (nonempty (filterValue P)); [apply filter_twice | reflexivity].
  - apply filter_app_stage.
  - unfold filter_stage. intros [-> | ->]; [reflexivity|].
    destruct (filterField P); reflexivity.
Qed.

(** X22.  When the view is computed.  With a sort that meets the promise
    of the language, [processedData] yields a view whenever the
    comparator can compare the rows that pass the filter, and the view
    holds exactly those rows.  Only the two date sorts can fail to
    compare: they need the member to be there, since they call [split]
    on it.  An unreadable date does not stop them, and the sorts by
    status, submitter, priority and estimated value always compare. *)
Theorem processedData_returns
    (Date_parse : string -> num)
    (Array_sort : (SpreadsheetRow -> SpreadsheetRow -> option Z) ->
                  list SpreadsheetRow -> option (list SpreadsheetRow))
    (P : Props) (d : list SpreadsheetRow) :
  conforming_sort Array_sort ->
  (forall sf so, sortField P = Some sf -> sortOrder P = Some so ->
     sf = SortSubmitted \/ sf = SortDueDate ->
     forall row, In row (filter_stage P d) -> is_Some (cells row !! sortField_key sf)) ->
  exists view,
    processedData Date_parse Array_sort P d = Some view /\
    Permutation (filter_stage P d) view /\
    (forall row, In row view -> In row d).
Proof.
  intros Hsort Hmem.
  assert (Hex : exists view, processedData Date_parse Array_sort P d = Some view).
  { unfold processedData. destruct (sortField P) as [sf|] eqn:Hsf; [|eauto].
    destruct (sortOrder P) as [so|] eqn:Hso; [|eauto].
    apply (sort_returns _ Hsort). intros a b Ha Hb.
    destruct sf; simpl; eauto.
    - destruct (Hmem SortSubmitted so eq_refl eq_refl (or_introl eq_refl) a Ha) as [va Hva].
      destruct (Hmem SortSubmitted so eq_refl eq_refl (or_introl eq_refl) b Hb) as [vb Hvb].
      simpl in Hva, Hvb. rewrite Hva, Hvb. eauto.
    - destruct (Hmem SortDueDate so eq_refl eq_refl (or_intror eq_refl) a Ha) as [va Hva].
      destruct (Hmem SortDueDate so eq_refl eq_refl (or_intror eq_refl) b Hb) as [vb Hvb].
      simpl in Hva, Hvb. rewrite Hva, Hvb. eauto. }
  destruct Hex as [view Hv]. exists view. repeat split.
  - exact Hv.
  - exact (processedData_perm Date_parse Array_sort Hsort P d view Hv).
  - intros row. exact (processedData_In Date_parse Array_sort Hsort P d view row Hv).
Qed.

Lemma processedData_returns_witness :
  exists view,
    processedData Date_iso insertion_sort (sort_props SortDueDate desc) due_rows = Some view /\
    Permutation (filter_stage (sort_props SortDueDate desc) due_rows) view /\
    (forall row, In row view -> In row due_rows).
Proof.
  apply (processedData_returns Date_iso insertion_sort (sort_props SortDueDate desc) due_rows
           (insertion_sort_conforming SpreadsheetRow)).
  intros sf so Hsf _ _ row Hin. injection Hsf as <-. simpl in Hin.
  repeat (destruct Hin as [<-|Hin]; [vm_compute; eauto|]). destruct Hin.
Defined.

Lemma verdict_le (so : SortOrder) (lt gt : bool) :
  (lt = true -> gt = false) -> verdict so lt gt <= 0 ->
  match so with asc => gt = false | desc => lt = false end.
Proof.
  unfold verdict. intros Hasym. destruct lt, gt, so; simpl; intros H;
    try reflexivity; try lia; try discriminate (Hasym eq_refl).
Qed.

Lemma priority_cmp_le (Date_parse : string -> num) (so : SortOrder) (a b : SpreadsheetRow) :
  cmp_le (compareFn Date_parse SortPriority so) a b ->
  match so with
  | asc => priority_key (cells a !! "priority") <= priority_key (cells b !! "priority")
  | desc => priority_key (cells b !! "priority") <= priority_key (cells a !! "priority")
  end.
Proof.
  intros (v & Hv & Hle). simpl in Hv. injection Hv as <-.
  apply verdict_le in Hle.
  - destruct so; apply Z.ltb_ge in Hle; exact Hle.
  - intros H. apply Z.ltb_lt in H. apply Z.ltb_ge. lia.
Qed.

Lemma text_cmp_le (Date_parse : string -> num) (sf : SortField) (so : SortOrder)
    (a b : SpreadsheetRow) :
  sf = SortStatus \/ sf = SortSubmitter ->
  cmp_le (compareFn Date_parse sf so) a b ->
  match so with
  | asc => String.ltb (text_key (cells b !! sortField_key sf))
                      (text_key (cells a !! sortField_key sf)) = false
  | desc => String.ltb (text_key (cells a !! sortField_key sf))
                       (text_key (cells b !! sortField_key sf)) = false
  end.
Proof.
  intros Hsf (v & Hv & Hle).
  assert (Hc : v = verdict so
                 (String.ltb (text_key (cells a !! sortField_key sf))
                             (text_key (cells b !! sortField_key sf)))
                 (String.ltb (text_key (cells b !! sortField_key sf))
                             (text_key (cells a !! sortField_key sf)))).
  { destruct Hsf as [-> | ->]; simpl in Hv; injection Hv as <-; reflexivity. }
  subst v. apply verdict_le in Hle; [exact Hle|].
  apply (swo_asym _ _ string_ltb_strict_weak); exact I.
Qed.





(** ** Row heights *)

Lemma extraLines_pos (n : Z) : 50 < n -> 1 <= extraLines n.
Proof.
  intros H. unfold extraLines.
  apply Z.div_le_lower_bound; lia.
Qed.

Lemma heights_pos (mode : CellViewMode) : 0 < baseHeight mode /\ 0 < lineHeight mode.
Proof. destruct mode; simpl; lia. Qed.

Lemma cellHeight_base (mode : CellViewMode) (content : string) :
  baseHeight mode <= cellHeight mode content /\
  (cellHeight mode content = baseHeight mode <-> (String.length content <= 50)%nat).
Proof.
  unfold cellHeight. destruct (heights_pos mode) as [Hb Hl].
  destruct (Z.ltb_spec 50 (Z.of_nat (String.length content))) as [H|H].
  - pose proof (extraLines_pos _ H). split; [nia|]. split; [nia|lia].
  - split; [lia|]. split; [lia|reflexivity].
Qed.

Lemma rowHeight_fold (mode : CellViewMode) (row : SpreadsheetRow) (vf : list string) (h0 : Z) :
  baseHeight mode <= h0 ->
  fold_left
    (fun maxHeight field =>
       let content := field_string row field in
       let n := Z.of_nat (String.length content) in
       if 50 <? n
       then Z.max maxHeight (baseHeight mode + extraLines n * lineHeight mode)
       else maxHeight)
    vf h0
  = fold_left (fun h field => Z.max h (cellHeight mode (field_string row field))) vf h0.
Proof.
  revert h0. induction vf as [|f vf IH]; intros h0 Hh; simpl; [reflexivity|].
  unfold cellHeight at 2.
  destruct (Z.ltb_spec 50 (Z.of_nat (String.length (field_string row f)))) as [H|H].
  - apply IH. lia.
  - rewrite Z.max_l by lia. apply IH. exact Hh.
Qed.

Lemma fold_max_spec {A : Type} (g : A -> Z) (l : list A) (h0 : Z) :
  let m := fold_left (fun h x => Z.max h (g x)) l h0 in
  h0 <= m /\ (forall x, In x l -> g x <= m) /\ (m = h0 \/ exists x, In x l /\ m = g x).
Proof.
  revert h0. induction l as [|a l IH]; intros h0; simpl.
  - repeat split; [lia | intros x [] | left; reflexivity].
  - destruct (IH (Z.max h0 (g a))) as (H1 & H2 & H3). repeat split.
    + lia.
    + intros x [<-|Hx]; [lia | apply H2, Hx].
    + destruct H3 as [H3|(x & Hx & H3)].
      * destruct (Z.max_spec h0 (g a)) as [[_ Hm]|[_ Hm]].
        -- right. exists a. split; [left; reflexivity | congruence].
        -- left. congruence.
      * right. exists x. split; [right; exact Hx | exact H3].
Qed.


(** ** The toolbar *)

Lemma SortField_eqb_spec (a b : SortField) : SortField_eqb a b = true <-> a = b.
Proof. destruct a, b; split; intros H; try reflexivity; discriminate H. Qed.

(** X26.  Choosing a sort field in the toolbar.  From the unsorted state,
    choosing a field sorts ascending, choosing it again sorts descending,
    and a third time returns to the unsorted state, in which the view is
    the filter stage as it is.  Choosing another field starts ascending
    on that field.  Whatever is chosen, field and order are afterwards
    both set or both unset, and no other prop changes. *)
Theorem sort_select_cycle
    (Date_parse : string -> num)
    (Array_sort : (SpreadsheetRow -> SpreadsheetRow -> option Z) ->
                  list SpreadsheetRow -> option (list SpreadsheetRow))
    (f g : SortField) (P : Props) (d : list SpreadsheetRow) :
  let P0 := onSort None None P in
  let P1 := handleSortSelect (Some f) P0 in
  let P2 := handleSortSelect (Some f) P1 in
  let P3 := handleSortSelect (Some f) P2 in
  P1 = onSort (Some f) (Some asc) P /\
  P2 = onSort (Some f) (Some desc) P /\
  P3 = P0 /\
  processedData Date_parse Array_sort P3 d = Some (filter_stage P d) /\
  (f <> g -> handleSortSelect (Some g) P1 = onSort (Some g) (Some asc) P /\
             handleSortSelect (Some g) P2 = onSort (Some g) (Some asc) P) /\
  handleSortSelect None P = P0 /\
  (forall field Q,
      (sortField (handleSortSelect field Q) = None
       <-> sortOrder (handleSortSelect field Q) = None) /\
      hiddenFields (handleSortSelect field Q) = hiddenFields Q /\
      filterField (handleSortSelect field Q) = filterField Q /\
      filterValue (handleSortSelect field Q) = filterValue Q /\
      searchTerm (handleSortSelect field Q) = searchTerm Q).
Proof.
  intros P0 P1 P2 P3.
  assert (Hff : SortField_eqb f f = true) by (apply SortField_eqb_spec; reflexivity).
  assert (H1 : P1 = onSort (Some f) (Some asc) P) by reflexivity.
  assert (H2 : P2 = onSort (Some f) (Some desc) P).
  { unfold P2. rewrite H1. unfold handleSortSelect. simpl. rewrite Hff. reflexivity. }
  assert (H3 : P3 = P0).
  { unfold P3. rewrite H2. unfold handleSortSelect. simpl. rewrite Hff. reflexivity. }
  repeat apply conj; try assumption.
  - rewrite H3. reflexivity.
  - intros Hne.
    assert (Hfg : SortField_eqb f g = false).
    { destruct (SortField_eqb f g) eqn:E; [|reflexivity].
      apply SortField_eqb_spec in E. contradiction. }
    rewrite H1, H2. unfold handleSortSelect. simpl. rewrite Hfg. split; reflexivity.
  - reflexivity.
  - intros field Q. unfold handleSortSelect.
    destruct field as [h|]; [|simpl; tauto].
    destruct (sortField Q) as [k|]; [|simpl; repeat split; discriminate].
    destruct (SortField_eqb k h); [|simpl; repeat split; discriminate].
    destruct (sortOrder Q) as [[|]|]; simpl; repeat split; try discriminate; reflexivity.
Qed.

Lemma toggle_hidden (fieldKey : string) (hidden : list string) (k : string) :
  includes_str (if includes_str hidden fieldKey
                then List.filter (fun f => negb (String.eqb f fieldKey)) hidden
                else hidden ++ [fieldKey]) k
  = if String.eqb k fieldKey then negb (includes_str hidden fieldKey)
    else includes_str hidden k.
Proof.
  destruct (includes_str hidden fieldKey) eqn:E.
  - destruct (String.eqb_spec k fieldKey) as [->|Hne]; simpl.
    + destruct (includes_str (List.filter (fun f => negb (String.eqb f fieldKey)) hidden)
                             fieldKey) eqn:E'; [|reflexivity].
      apply includes_str_In, filter_In in E' as [_ E'].
      rewrite String.eqb_refl in E'. discriminate E'.
    + apply includes_str_iff. rewrite filter_In.
      destruct (String.eqb_spec k fieldKey); [contradiction|]. simpl. tauto.
  - destruct (String.eqb_spec k fieldKey) as [->|Hne]; simpl.
    + apply includes_str_In, in_or_app. right. left. reflexivity.
    + apply includes_str_iff. rewrite in_app_iff. simpl. intuition congruence.
Qed.

(** X27.  The visibility toggle of the toolbar flips one field: a hidden
    field is shown again (every occurrence of its key leaves the hidden
    list), a shown field is hidden, and the state of every other field
    stays.  The table then shows the registry without the hidden fields,
    so toggling a field twice gives the visible fields there were, and
    hiding a field removes exactly its columns from them. *)
Theorem visibility_toggle (fieldKey : string) (P : Props) (cc : list string) :
  let P1 := handleFieldVisibilityToggle fieldKey P in
  let P2 := handleFieldVisibilityToggle fieldKey P1 in
  (forall k, includes_str (hiddenFields P1) k
             = if String.eqb k fieldKey then negb (includes_str (hiddenFields P) fieldKey)
               else includes_str (hiddenFields P) k) /\
  visibleFields cc (hiddenFields P2) = visibleFields cc (hiddenFields P) /\
  (includes_str (hiddenFields P) fieldKey = false ->
   visibleFields cc (hiddenFields P1)
   = List.filter (fun f => negb (String.eqb f fieldKey)) (visibleFields cc (hiddenFields P))) /\
  sortField P1 = sortField P /\ sortOrder P1 = sortOrder P /\
  filterField P1 = filterField P /\ filterValue P1 = filterValue P.
Proof.
  intros P1 P2.
  assert (H1 : forall k, includes_str (hiddenFields P1) k
             = if String.eqb k fieldKey then negb (includes_str (hiddenFields P) fieldKey)
               else includes_str (hiddenFields P) k).
  { intros k. apply toggle_hidden. }
  repeat apply conj; try reflexivity.
  - exact H1.
  - unfold visibleFields. apply filter_ext. intros k. f_equal.
    unfold P2. simpl hiddenFields at 1. rewrite toggle_hidden. fold P1. rewrite !H1.
    rewrite String.eqb_refl.
    destruct (String.eqb_spec k fieldKey) as [->|]; [apply negb_involutive|reflexivity].
  - intros Hshown. unfold visibleFields.
    induction (allFields cc) as [|a l IH]; [reflexivity|].
    cbn [List.filter]. rewrite H1, Hshown.
    destruct (String.eqb_spec a fieldKey) as [->|Hne]; cbn [negb].
    + rewrite Hshown. cbn [negb List.filter]. rewrite String.eqb_refl. exact IH.
    + destruct (includes_str (hiddenFields P) a); cbn [negb List.filter]; [exact IH|].
      destruct (String.eqb_spec a fieldKey); [contradiction|]. cbn [negb].
      f_equal. exact IH.
Qed.


(** ** Batch duplicate *)

Lemma nth_error_imap {A B : Type} (g : nat -> A -> B) (l : list A) (i : nat) :
  nth_error (imap g l) i = option_map (g i) (nth_error l i).
Proof.
  revert g i. induction l as [|x l IH]; intros g i; destruct i; simpl; try reflexivity.
  apply (IH (fun n => g (S n))).
Qed.

Lemma length_imap {A B : Type} (g : nat -> A -> B) (l : list A) :
  length (imap g l) = length l.
Proof.
  revert g. induction l as [|x l IH]; intros g; simpl; [reflexivity|].
  f_equal. apply (IH (fun n => g (S n))).
Qed.

(** X29.  The batch duplicate appends one copy of each selected row, in
    the order the rows have in the store, and leaves the rows there are
    in place.  The copies take the ids that follow the largest id of the
    store, one after the other, and have the members of their originals.
    A selection that names no row of the store appends nothing. *)
Theorem batch_duplicate_copies (rowIds : list num) (d : list SpreadsheetRow) (m : Z) :
  Math_max (ids d) = Int m ->
  let chosen := List.filter (fun row => includes_num rowIds (id row)) d in
  let d' := batchDuplicateRows rowIds d in
  firstn (length d) d' = d /\
  length d' = (length d + length chosen)%nat /\
  (forall i row, nth_error chosen i = Some row ->
     nth_error d' (length d + i)
     = Some {| id := Int (m + Z.of_nat i + 1); cells := cells row |}) /\
  (chosen = [] -> d' = d).
Proof.
  intros Hm chosen d'. unfold d', batchDuplicateRows. fold chosen. rewrite Hm.
  repeat apply conj.
  - rewrite firstn_app, Nat.sub_diag, firstn_all. simpl. apply app_nil_r.
  - rewrite length_app, length_imap. reflexivity.
  - intros i row Hi. rewrite nth_error_app2 by lia.
    replace (length d + i - length d)%nat with i by lia.
    rewrite nth_error_imap, Hi. reflexivity.
  - intros ->. apply app_nil_r.
Qed.

Lemma batch_duplicate_copies_witness :
  let d' := batchDuplicateRows [Int 5; Int 1; Int 7] sample_store in
  ids d' = [Int 1; Int 2; Int 5; Int 6; Int 7] /\
  firstn 3 d' = sample_store /\
  nth_error d' 3 = Some {| id := Int 6; cells := cells (nth 0 sample_store due_none) |} /\
  nth_error d' 4 = Some {| id := Int 7; cells := cells (nth 2 sample_store due_none) |}.
Proof.
  intros d'.
  destruct (batch_duplicate_copies [Int 5; Int 1; Int 7] sample_store 5 eq_refl)
    as (H1 & _ & H3 & _).
  split; [reflexivity|]. split; [exact H1|]. split.
  - exact (H3 0%nat (nth 0 sample_store due_none) eq_refl).
  - exact (H3 1%nat (nth 2 sample_store due_none) eq_refl).
Defined.
